(** * Attendance-monitoring: the ledger write and read paths

    A shallow embedding of the Python sources

      - [face_attendance.py]          (capture loop, session dedup, ledger write),
      - [app.py]                      (dashboard capture loop, content hash),
      - [Get_Attendance_By_Time.py]   (ledger scan, timestamp resolution,
                                       block-time reconciliation, range filter),

    and the properties of the specification stated over it.

    Modelling conventions.
    - A Python [str] is modelled by the byte string of its UTF-8 encoding
      (Rocq's [string]); [str.encode()] is then the identity on bytes and
      string concatenation is byte concatenation.  What works on
      characters ([re], [strptime], [int]) sees the code points the byte
      string decodes to; the classes [\d] and [\s] are those of a [str]
      pattern, the decimal digits and the blanks of the Unicode database.
    - A Python exception that the code catches with [except Exception] (or
      that ends the program) is an explicit error value.
    - [print] and the calls that reach the ledger node are recorded as
      events of a trace, in program order; writing to the standard output
      is taken to succeed.
    - The recognition model, the camera and the floating-point face matcher
      are inputs: a capture session is the finite list of frames read before
      the loop ends, each frame the list of detections with the identity
      [match_face] returned. *)

From Stdlib Require Import ZArith List String Ascii Bool Lia Sorted.
From stdpp Require Import base option list gmap strings sorting.

Local Open Scope string_scope.
Local Open Scope list_scope.
Local Open Scope Z_scope.

(** ** The characters of a [str] *)

Module Unicode.

(** The value of a byte. *)
Definition ord (b : ascii) : Z := Z.of_nat (nat_of_ascii b).

(** A byte [10xxxxxx], and its six bits. *)
Definition continuation (b : ascii) : bool := (128 <=? ord b) && (ord b <? 192).
Definition payload (b : ascii) : Z := ord b `mod` 64.

(** The code point given to a byte that begins no well-formed sequence:
    a low surrogate, which is in no character class.  The encoding of a
    [str] has no such byte. *)
Definition stray (b : ascii) : Z := 56320 + ord b.

(** The code points of a UTF-8 byte string: sequences of one to four
    bytes, the shortest form only, no surrogate, nothing above
    [0x10FFFF]. *)
Fixpoint decode (s : list ascii) : list Z :=
  match s with
  | [] => []
  | b0 :: s1 =>
      let n0 := ord b0 in
      if n0 <? 128 then n0 :: decode s1
      else
        match s1 with
        | [] => stray b0 :: decode s1
        | b1 :: s2 =>
            let c2 := (n0 - 192) * 64 + payload b1 in
            if (194 <=? n0) && (n0 <? 224) && continuation b1
            then c2 :: decode s2
            else
              match s2 with
              | [] => stray b0 :: decode s1
              | b2 :: s3 =>
                  let c3 := ((n0 - 224) * 64 + payload b1) * 64 + payload b2 in
                  if (224 <=? n0) && (n0 <? 240) && continuation b1 && continuation b2
                     && (2048 <=? c3) && negb ((55296 <=? c3) && (c3 <? 57344))
                  then c3 :: decode s3
                  else
                    match s3 with
                    | [] => stray b0 :: decode s1
                    | b3 :: s4 =>
                        let c4 := (((n0 - 240) * 64 + payload b1) * 64 + payload b2) * 64
                                  + payload b3 in
                        if (240 <=? n0) && (n0 <? 248) && continuation b1
                           && continuation b2 && continuation b3
                           && (65536 <=? c4) && (c4 <? 1114112)
                        then c4 :: decode s4
                        else stray b0 :: decode s1
                    end
              end
        end
  end.

(** The characters of a [str]. *)
Definition code_points (text : string) : list Z :=
  decode (list_ascii_of_string text).

(** The digit zero of every script of the Unicode Character Database
    14.0, the one CPython 3.11 carries: the nine code points after each are
    its digits one to nine.  These runs are the characters with a decimal
    value (category [Nd]). *)
Definition DECIMAL_ZEROS : list Z :=
  [48; 1632; 1776; 1984; 2406; 2534; 2662; 2790; 2918; 3046; 3174; 3302;
   3430; 3558; 3664; 3792; 3872; 4160; 4240; 6112; 6160; 6470; 6608; 6784;
   6800; 6992; 7088; 7232; 7248; 42528; 43216; 43264; 43472; 43504; 43600;
   44016; 65296; 66720; 68912; 69734; 69872; 69942; 70096; 70384; 70736;
   70864; 71248; 71360; 71472; 71904; 72016; 72784; 73040; 73120; 92768;
   92864; 93008; 120782; 120792; 120802; 120812; 120822; 123200; 123632;
   125264; 130032].

(** The decimal value of a character, when it has one. *)
Definition decimal (c : Z) : option Z :=
  match find (fun zero => (zero <=? c) && (c <? zero + 10)) DECIMAL_ZEROS with
  | Some zero => Some (c - zero)
  | None => None
  end.

(** [str.isdecimal] and [str.isspace] of one character. *)
Definition isdecimal (c : Z) : bool :=
  match decimal c with
  | Some _ => true
  | None => false
  end.

Definition isspace (c : Z) : bool :=
  ((9 <=? c) && (c <=? 13)) || ((28 <=? c) && (c <=? 32))
  || (c =? 133) || (c =? 160) || (c =? 5760)
  || ((8192 <=? c) && (c <=? 8202))
  || (c =? 8232) || (c =? 8233) || (c =? 8239) || (c =? 8287) || (c =? 12288).

End Unicode.

(** ** Python's [re], as far as the patterns of the program need it *)

Module Re.
Import Unicode.

(** A regular expression of the fragment used by [_strptime] and by the
    fallback pattern of [collect_records], over the characters of a [str]
    (code points).  [Alt] is Python's ordered alternation, [PlusCls] a
    greedy [c+] over a character class. *)
Inductive re : Type :=
| Eps
| Cls (p : Z -> bool)
| Cat (r1 r2 : re)
| Alt (r1 r2 : re)
| PlusCls (p : Z -> bool).

(** [c+], greedy: the remainders after the longest run first. *)
Fixpoint plus_cls (p : Z -> bool) (s : list Z) : list (list Z) :=
  match s with
  | c :: s' => if p c then plus_cls p s' ++ [s'] else []
  | [] => []
  end.

(** The backtracking matcher: every way [r] matches a prefix of [s], as the
    remaining suffix, in the order in which Python's engine tries them. *)
Fixpoint rmatch (r : re) (s : list Z) : list (list Z) :=
  match r with
  | Eps => [s]
  | Cls p => match s with
             | c :: s' => if p c then [s'] else []
             | [] => []
             end
  | Cat r1 r2 => concat (map (rmatch r2) (rmatch r1 s))
  | Alt r1 r2 => rmatch r1 s ++ rmatch r2 s
  | PlusCls p => plus_cls p s
  end.

(** [\d] and [\s] of a [str] pattern: any decimal digit, any blank. *)
Definition is_digit (c : Z) : bool := isdecimal c.
Definition is_space (c : Z) : bool := isspace c.

(** [[lo-hi]] and a literal character; the literals of the patterns are
    ASCII characters without case, on which [re.IGNORECASE] changes
    nothing. *)
Definition in_range (lo hi : ascii) (c : Z) : bool :=
  (ord lo <=? c) && (c <=? ord hi).
Definition is_char (a : ascii) (c : Z) : bool := ord a =? c.

Definition chr (a : ascii) : re := Cls (is_char a).
Definition rng (lo hi : ascii) : re := Cls (in_range lo hi).
Definition dig : re := Cls is_digit.

Arguments in_range (lo hi)%_char c.
Arguments is_char a%_char c.
Arguments chr a%_char.
Arguments rng (lo hi)%_char.

(** A fixed-width pattern: one class per character. *)
Fixpoint of_classes (cl : list (Z -> bool)) : re :=
  match cl with
  | [] => Eps
  | p :: cl' => Cat (Cls p) (of_classes cl')
  end.

(** [m.group(0)] of a match of [r] at the head of [s]: the prefix consumed by
    the first successful alternative. *)
Definition match_prefix (r : re) (s : list Z) : option (list Z) :=
  match rmatch r s with
  | rest :: _ => Some (take (length s - length rest)%nat s)
  | [] => None
  end.

(** [re.search(r, s)]: the match at the leftmost position that has one. *)
Fixpoint search (r : re) (s : list Z) : option (list Z) :=
  match match_prefix r s with
  | Some m => Some m
  | None => match s with
            | _ :: s' => search r s'
            | [] => None
            end
  end.

End Re.

(** ** Python's [datetime], naive *)

Module Datetime.
Import Unicode Re.

Record datetime : Type := mkdatetime {
  year : Z; month : Z; day : Z;
  hour : Z; minute : Z; second : Z; microsecond : Z
}.

Definition is_leap (y : Z) : bool :=
  (y `mod` 4 =? 0) && (negb (y `mod` 100 =? 0) || (y `mod` 400 =? 0)).

Definition days_in_month (y m : Z) : Z :=
  if m =? 2 then (if is_leap y then 29 else 28)
  else if (m =? 4) || (m =? 6) || (m =? 9) || (m =? 11) then 30
  else 31.

(** The constructor [datetime(y, m, d, H, M, S)]: [None] is the
    [ValueError] it raises on a field out of range. *)
Definition make_datetime (y m d H M S : Z) : option datetime :=
  if (1 <=? y) && (y <=? 9999) && (1 <=? m) && (m <=? 12)
     && (1 <=? d) && (d <=? days_in_month y m)
     && (0 <=? H) && (H <=? 23) && (0 <=? M) && (M <=? 59)
     && (0 <=? S) && (S <=? 59)
  then Some (mkdatetime y m d H M S 0)
  else None.

(** Comparison of naive datetimes: lexicographic on the fields. *)
Definition fields (d : datetime) : list Z :=
  [year d; month d; day d; hour d; minute d; second d; microsecond d].

Fixpoint lex_compare (a b : list Z) : comparison :=
  match a, b with
  | x :: a', y :: b' =>
      match x ?= y with
      | Eq => lex_compare a' b'
      | c => c
      end
  | [], [] => Eq
  | [], _ :: _ => Lt
  | _ :: _, [] => Gt
  end.

Definition compare (a b : datetime) : comparison :=
  lex_compare (fields a) (fields b).

(** [a <= b] and [a < b] *)
Definition leb (a b : datetime) : bool :=
  match compare a b with Gt => false | _ => true end.
Definition ltb (a b : datetime) : bool :=
  match compare a b with Lt => true | _ => false end.

(** *** [datetime.strptime] *)

Inductive field : Type := FY | Fm | Fd | FH | FM | FS.

Definition field_eqb (a b : field) : bool :=
  match a, b with
  | FY, FY | Fm, Fm | Fd, Fd | FH, FH | FM, FM | FS, FS => true
  | _, _ => false
  end.

(** One element of a compiled format: a named group or a separator. *)
Inductive item : Type :=
| Group (f : field) (r : re)
| Sep (r : re).

(** The regular expressions [_strptime.TimeRE] gives the directives. *)
Definition re_Y : re := Cat dig (Cat dig (Cat dig dig)).
Definition re_m : re :=
  Alt (Cat (chr "1") (rng "0" "2")) (Alt (Cat (chr "0") (rng "1" "9")) (rng "1" "9")).
Definition re_d : re :=
  Alt (Cat (chr "3") (rng "0" "1"))
 (Alt (Cat (rng "1" "2") dig)
 (Alt (Cat (chr "0") (rng "1" "9"))
 (Alt (rng "1" "9")
      (Cat (chr " ") (rng "1" "9"))))).
Definition re_H : re :=
  Alt (Cat (chr "2") (rng "0" "3")) (Alt (Cat (rng "0" "1") dig) dig).
Definition re_M : re := Alt (Cat (rng "0" "5") dig) dig.
Definition re_S : re :=
  Alt (Cat (chr "6") (rng "0" "1")) (Alt (Cat (rng "0" "5") dig) dig).

(** ["%Y-%m-%d"] *)
Definition DATE_FORMAT : list item :=
  [Group FY re_Y; Sep (chr "-"); Group Fm re_m; Sep (chr "-"); Group Fd re_d].

(** [DATETIME_FORMAT = "%Y-%m-%d %H:%M:%S"]; the blank of the format is
    compiled to [\s+]. *)
Definition DATETIME_FORMAT : list item :=
  DATE_FORMAT ++
  [Sep (PlusCls is_space); Group FH re_H; Sep (chr ":"); Group FM re_M;
   Sep (chr ":"); Group FS re_S].

Definition captures : Type := list (field * list Z).

(** The match of a compiled format: the groups captured and the text left,
    for every way to match, in the engine's order. *)
Fixpoint fmatch (fmt : list item) (s : list Z)
  : list (captures * list Z) :=
  match fmt with
  | [] => [([], s)]
  | Sep r :: fmt' => concat (map (fmatch fmt') (rmatch r s))
  | Group f r :: fmt' =>
      concat (map (fun rest =>
                     map (fun '(caps, out) =>
                            ((f, take (length s - length rest)%nat s) :: caps, out))
                         (fmatch fmt' rest))
                  (rmatch r s))
  end.

Definition digit_value (c : Z) : Z := default 0 (decimal c).

(** The blanks [int] drops: those of [str.isspace] but for the four
    separators [0x1c..0x1f]. *)
Definition int_blank (c : Z) : bool :=
  is_space c && negb ((28 <=? c) && (c <=? 31)).

Fixpoint lstrip (s : list Z) : list Z :=
  match s with
  | c :: s' => if int_blank c then lstrip s' else s
  | [] => []
  end.

(** [int(text)] for a group's text: surrounding blanks are dropped, the rest
    must be a non-empty run of decimal digits, of any script. *)
Definition py_int (text : list Z) : option Z :=
  let body := rev (lstrip (rev (lstrip text))) in
  match body with
  | [] => None
  | _ => if forallb is_digit body
         then Some (fold_left (fun acc c => 10 * acc + digit_value c) body 0)
         else None
  end.

Fixpoint capture (f : field) (caps : captures) : option (list Z) :=
  match caps with
  | [] => None
  | (g, text) :: caps' => if field_eqb f g then Some text else capture f caps'
  end.

(** A group the format does not have keeps its default. *)
Definition group_int (f : field) (default : Z) (caps : captures) : option Z :=
  match capture f caps with
  | None => Some default
  | Some text => py_int text
  end.

(** [datetime.strptime(text, fmt)].  [None] stands for the [ValueError]
    raised when the text does not match, when text remains after the match,
    or when the fields are not a date and time. *)
Definition strptime_chars (fmt : list item) (s : list Z) : option datetime :=
  match fmatch fmt s with
  | [] => None
  | (caps, rest) :: _ =>
      match rest with
      | _ :: _ => None
      | [] =>
          y ← group_int FY 1900 caps;
          m ← group_int Fm 1 caps;
          d ← group_int Fd 1 caps;
          H ← group_int FH 0 caps;
          M ← group_int FM 0 caps;
          S ← group_int FS 0 caps;
          make_datetime y m d H M S
      end
  end.

Definition strptime (text : string) (fmt : list item) : option datetime :=
  strptime_chars fmt (code_points text).

(** *** [datetime.strftime] with ["%Y-%m-%d %H:%M:%S"] *)

Definition digit_char (n : Z) : ascii := ascii_of_nat (Z.to_nat (48 + n `mod` 10)).

Definition pad2 (n : Z) : list ascii := [digit_char (n `div` 10); digit_char n].
Definition pad4 (n : Z) : list ascii :=
  [digit_char (n `div` 1000); digit_char (n `div` 100); digit_char (n `div` 10); digit_char n].

(** The year is written with four digits, as for every year from 1000 on. *)
Definition strftime (d : datetime) : string :=
  string_of_list_ascii
    (pad4 (year d) ++ ["-"%char] ++ pad2 (month d) ++ ["-"%char] ++ pad2 (day d)
     ++ [" "%char] ++ pad2 (hour d) ++ [":"%char] ++ pad2 (minute d)
     ++ [":"%char] ++ pad2 (second d)).

End Datetime.

(** ** [hashlib.sha256(...).hexdigest()] *)

Module Sha256.

Definition w32 (x : Z) : Z := x `mod` 2 ^ 32.
Definition add32 (a b : Z) : Z := w32 (a + b).
Definition rotr (n x : Z) : Z := Z.lor (Z.shiftr x n) (w32 (Z.shiftl x (32 - n))).
Definition shr (n x : Z) : Z := Z.shiftr x n.
Definition not32 (x : Z) : Z := Z.lxor x 0xffffffff.

Definition Ch (x y z : Z) : Z := Z.lxor (Z.land x y) (Z.land (not32 x) z).
Definition Maj (x y z : Z) : Z :=
  Z.lxor (Z.lxor (Z.land x y) (Z.land x z)) (Z.land y z).
Definition bsig0 (x : Z) : Z := Z.lxor (Z.lxor (rotr 2 x) (rotr 13 x)) (rotr 22 x).
Definition bsig1 (x : Z) : Z := Z.lxor (Z.lxor (rotr 6 x) (rotr 11 x)) (rotr 25 x).
Definition ssig0 (x : Z) : Z := Z.lxor (Z.lxor (rotr 7 x) (rotr 18 x)) (shr 3 x).
Definition ssig1 (x : Z) : Z := Z.lxor (Z.lxor (rotr 17 x) (rotr 19 x)) (shr 10 x).

(** The constants are given by their definition in FIPS 180-4: the first
    32 bits of the fractional parts of the cube roots (round constants) and
    of the square roots (initial hash value) of the first primes. *)

Definition is_prime (k : Z) : bool :=
  forallb (fun d => negb (k `mod` d =? 0)) (seqZ 2 (k - 2)).

(** The first [n] primes; they are below [bound]. *)
Definition first_primes (n : nat) (bound : Z) : list Z :=
  take n (List.filter is_prime (seqZ 2 (bound - 2))).

(** The integer cube root, by bisection between [lo] and [hi]. *)
Fixpoint cube_root_between (fuel : nat) (lo hi x : Z) : Z :=
  match fuel with
  | O => lo
  | S fuel' =>
      let mid := (lo + hi) `div` 2 in
      if mid * mid * mid <=? x
      then cube_root_between fuel' mid hi x
      else cube_root_between fuel' lo mid x
  end.

Definition cube_root_frac32 (p : Z) : Z :=
  w32 (cube_root_between 40 0 (2 ^ 36) (p * 2 ^ 96)).

Definition square_root_frac32 (p : Z) : Z :=
  w32 (Z.sqrt (p * 2 ^ 64)).

Definition K : list Z :=
  Eval vm_compute in map cube_root_frac32 (first_primes 64 312).

Definition H0 : list Z :=
  Eval vm_compute in map square_root_frac32 (first_primes 8 20).

(** Big-endian bytes of [x], [n] of them. *)
Fixpoint be_bytes (n : nat) (x : Z) : list Z :=
  match n with
  | O => []
  | S n' => (Z.shiftr x (8 * Z.of_nat n')) `mod` 256 :: be_bytes n' x
  end.

Definition be_word (bs : list Z) : Z :=
  fold_left (fun acc b => 256 * acc + b) bs 0.

(** The message, the byte [0x80], zeros up to 56 modulo 64, and the length
    in bits on eight bytes. *)
Definition pad (msg : list Z) : list Z :=
  let len := Z.of_nat (length msg) in
  let zeros := Z.to_nat ((55 - len) `mod` 64) in
  msg ++ [0x80] ++ repeat 0 zeros ++ be_bytes 8 (8 * len).

Fixpoint chunks (fuel : nat) (n : nat) (l : list Z) : list (list Z) :=
  match fuel, l with
  | _, [] => []
  | O, _ => []
  | S fuel', _ => take n l :: chunks fuel' n (drop n l)
  end.

Definition words_of_block (block : list Z) : list Z :=
  map be_word (chunks 16 4 block).

Definition wnth (w : list Z) (i : nat) : Z := nth i w 0.

(** The message schedule, extended from 16 to 64 words. *)
Fixpoint schedule (n : nat) (w : list Z) : list Z :=
  match n with
  | O => w
  | S n' =>
      let t := length w in
      let x := add32 (add32 (ssig1 (wnth w (t - 2))) (wnth w (t - 7)))
                     (add32 (ssig0 (wnth w (t - 15))) (wnth w (t - 16))) in
      schedule n' (w ++ [x])
  end.

Record regs : Type := mkregs { ra : Z; rb : Z; rc : Z; rd : Z; re : Z; rf : Z; rg : Z; rh : Z }.

Definition round (r : regs) (kw : Z * Z) : regs :=
  let '(k, w) := kw in
  let t1 := add32 (add32 (add32 (rh r) (bsig1 (re r))) (add32 (Ch (re r) (rf r) (rg r)) k)) w in
  let t2 := add32 (bsig0 (ra r)) (Maj (ra r) (rb r) (rc r)) in
  mkregs (add32 t1 t2) (ra r) (rb r) (rc r) (add32 (rd r) t1) (re r) (rf r) (rg r).

Definition regs_of (h : list Z) : regs :=
  mkregs (wnth h 0) (wnth h 1) (wnth h 2) (wnth h 3)
         (wnth h 4) (wnth h 5) (wnth h 6) (wnth h 7).

Definition list_of (r : regs) : list Z :=
  [ra r; rb r; rc r; rd r; re r; rf r; rg r; rh r].

Definition compress (h : list Z) (block : list Z) : list Z :=
  let w := schedule 48 (words_of_block block) in
  let r := fold_left round (combine K w) (regs_of h) in
  map (fun '(x, y) => add32 x y) (combine h (list_of r)).

Definition digest_words (msg : list Z) : list Z :=
  let padded := pad msg in
  fold_left compress (chunks (length padded) 64 padded) H0.

Definition hex_char (n : Z) : ascii :=
  if n <? 10 then ascii_of_nat (Z.to_nat (48 + n))
  else ascii_of_nat (Z.to_nat (87 + n)).

Definition hex_byte (b : Z) : list ascii := [hex_char (b `div` 16); hex_char (b `mod` 16)].

Definition bytes_of_string (s : string) : list Z :=
  map (fun c => Z.of_nat (nat_of_ascii c)) (list_ascii_of_string s).

(** [hashlib.sha256(data).hexdigest()] *)
Definition sha256_hexdigest (data : string) : string :=
  string_of_list_ascii
    (concat (map hex_byte (concat (map (be_bytes 4) (digest_words (bytes_of_string data)))))).

End Sha256.

(** ** Python values shared by the programs *)

Module Py.

(** The exceptions the programs tell apart. *)
Inductive exn : Type :=
| ValueError (m : string)
| BadFunctionCallOutput (m : string)
| Exception (m : string).

(** What a call that may raise gives. *)
Inductive result (A : Type) : Type :=
| Raised (e : exn)
| Value (a : A).
Arguments Raised {A} e.
Arguments Value {A} a.

(** Truth value of a [str] or [None]: the empty string is false. *)
Definition truthy (s : option string) : bool :=
  match s with
  | Some t => negb (String.eqb t "")
  | None => false
  end.

End Py.

(** ** [face_attendance.py] *)

Module FaceAttendance.
Import Py.

(** *** The node as the writer sees it *)

(** The calls of one write, in the order [save_to_blockchain] makes them. *)
Inductive stage : Type :=
| GetTransactionCount
| ChainId
| EstimateGas
| BuildTransaction
| SignTransaction
| SendRawTransaction
| WaitForTransactionReceipt.

(** The arguments of [logAttendance(name, timestamp, hash_str)] with the
    sender and the nonce of the transaction that carries them. *)
Record txn : Type := mktxn {
  tx_from : string;
  tx_nonce : nat;
  tx_name : string;
  tx_timestamp : string;
  tx_hash_str : string
}.

(** The node: the raw transactions it accepted, oldest first; the number
    of writes begun; and, for each write by its number, the call that
    raises ([None]: none does). *)
Record chain : Type := mkchain {
  sent : list txn;
  attempts : nat;
  fault : nat -> option stage
}.

(** A computation over the node that may raise. *)
Definition rpc (A : Type) : Type := chain -> option A * chain.

Definition ret {A} (a : A) : rpc A := fun w => (Some a, w).
Definition bind {A B} (m : rpc A) (f : A -> rpc B) : rpc B :=
  fun w => match m w with
           | (Some a, w') => f a w'
           | (None, w') => (None, w')
           end.

#[global] Instance rpc_ret : MRet rpc := @ret.
#[global] Instance rpc_bind : MBind rpc := fun A B f m => bind m f.

Definition stage_eqb (a b : stage) : bool :=
  match a, b with
  | GetTransactionCount, GetTransactionCount
  | ChainId, ChainId
  | EstimateGas, EstimateGas
  | BuildTransaction, BuildTransaction
  | SignTransaction, SignTransaction
  | SendRawTransaction, SendRawTransaction
  | WaitForTransactionReceipt, WaitForTransactionReceipt => true
  | _, _ => false
  end.

(** The call [st] of the write in progress: it raises when the node's
    fault for this write is [st]. *)
Definition call {A} (st : stage) (a : chain -> A) : rpc A :=
  fun w => match fault w (attempts w) with
           | Some st' => if stage_eqb st st' then (None, w) else (Some (a w), w)
           | None => (Some (a w), w)
           end.

(** [send_raw_transaction]: once it returns, the node holds the
    transaction; its position is the transaction's reference. *)
Definition send_raw_transaction (t : txn) : rpc nat :=
  bind (call SendRawTransaction (fun _ => tt))
       (fun _ w => (Some (length (sent w)),
                    mkchain (sent w ++ [t]) (attempts w) (fault w))).

(** [try: body except Exception: handler], and the end of the write. *)
Definition try_except {A} (body : rpc A) (handler : A) : chain -> A * chain :=
  fun w => match body w with
           | (Some a, w') => (a, w')
           | (None, w') => (handler, w')
           end.

Definition end_attempt {A} (r : A * chain) : A * chain :=
  (r.1, mkchain (sent r.2) (S (attempts r.2)) (fault r.2)).

(** *** The writer *)

(** The optional arguments [web3], [contract], [account_address] and
    [private_key]: the two objects are there or [None]. *)
Record client : Type := mkclient {
  web3 : bool;
  contract : bool;
  account_address : option string;
  private_key : option string
}.

(** The call with the defaults, [save_to_blockchain(name, timestamp)]. *)
Definition no_client : client := mkclient false false None None.

(** [hashlib.sha256(f"{name}-{timestamp}".encode()).hexdigest()] *)
Definition hash_str (name timestamp : string) : string :=
  Sha256.sha256_hexdigest (name +:+ "-" +:+ timestamp).

Definition save_to_blockchain (name timestamp : string) (c : client)
  : chain -> (bool * option nat) * chain :=
  let h := hash_str name timestamp in
  if web3 c && contract c && truthy (private_key c) && truthy (account_address c)
  then
    fun w =>
      end_attempt
        (try_except
           (nonce ← call GetTransactionCount (fun w => length (sent w));
            _ ← call ChainId (fun _ => tt);
            _ ← call EstimateGas (fun _ => tt);
            _ ← call BuildTransaction (fun _ => tt);
            _ ← call SignTransaction (fun _ => tt);
            tx_hash ← send_raw_transaction
                        (mktxn (default "" (account_address c)) nonce name timestamp h);
            _ ← call WaitForTransactionReceipt (fun _ => tt);
            mret (true, Some tx_hash))
           (false, None)
           w)
  else
    fun w => ((false, None), w).

(** *** The capture loop *)

(** One face of a frame: what [match_face] returned for it, and the clock
    when it is handled. *)
Record detection : Type := mkdetection {
  matched : option string;
  clock : Datetime.datetime
}.

Definition frame : Type := list detection.

(** The state of the loop: [logged_today] and the node. *)
Definition session : Type := (gset string * chain)%type.

(** The body of [for face in faces], as far as it writes. *)
Definition log_face (send_to_chain : bool) (c : client)
  (st : session) (face : detection) : session :=
  let '(logged_today, w) := st in
  let name := matched face in
  if truthy name then
    let name := default "" name in
    if decide (name ∈ logged_today) then st
    else
      let timestamp := Datetime.strftime (clock face) in
      if send_to_chain then
        let '((success, _), w') := save_to_blockchain name timestamp c w in
        if success then ({[name]} ∪ logged_today, w')
        else ({[name]} ∪ logged_today, w')
      else
        let '(_, w') := save_to_blockchain name timestamp no_client w in
        ({[name]} ∪ logged_today, w')
  else st.

(** [capture_and_log] on the frames read before the loop ends;
    [logged_today] starts empty. *)
Definition capture_frames (send_to_chain : bool) (c : client)
  (frames : list frame) (st : session) : session :=
  fold_left (fun st faces => fold_left (log_face send_to_chain c) faces st) frames st.

Definition capture_and_log (send_to_chain : bool) (c : client)
  (frames : list frame) (w : chain) : session :=
  capture_frames send_to_chain c frames (∅, w).

End FaceAttendance.

(** ** [app.py] *)

Module App.
Import Py.

(** The hash of [save_to_blockchain] and of the capture loop. *)
Definition hash_str (name timestamp : string) : string :=
  Sha256.sha256_hexdigest (name +:+ "-" +:+ timestamp).

(** An element of [st.session_state.session_entries]. *)
Record entry : Type := mkentry {
  e_name : string;
  e_timestamp : string;
  e_hash : string;
  e_tx : option string
}.

(** [logged_users] and [session_entries] *)
Definition session_state : Type := (gset string * list entry)%type.

(** The body of [for face in faces]: no transaction is sent from the loop,
    an entry is queued for the dashboard. *)
Definition log_face (st : session_state) (face : FaceAttendance.detection)
  : session_state :=
  let '(logged_users, session_entries) := st in
  let name := FaceAttendance.matched face in
  if truthy name && negb (bool_decide (default "" name ∈ logged_users)) then
    let name := default "" name in
    let timestamp := Datetime.strftime (FaceAttendance.clock face) in
    let entry := mkentry name timestamp (hash_str name timestamp) None in
    ({[name]} ∪ logged_users, session_entries ++ [entry])
  else st.

(** The loop after "Start Webcam", which empties both collections. *)
Definition run_webcam (frames : list FaceAttendance.frame) : session_state :=
  fold_left (fun st faces => fold_left log_face faces st) frames (∅, []).

End App.

(** ** [Get_Attendance_By_Time.py] *)

Module GetAttendanceByTime.
Import Py Datetime.

(** *** The node and the contract as the reader sees them *)

Record transaction : Type := mktransaction {
  to : option string;
  input : string
}.

Record block : Type := mkblock {
  timestamp : Z;
  transactions : list transaction
}.

(** The contract object bound to the address and the ABI: its two view
    functions, and [decode_function_input], which gives the name of the
    function a transaction input calls or raises. *)
Record contract : Type := mkcontract {
  totalRecords : result nat;
  getRecord : nat -> result (list string);
  decode_function_input : string -> result string
}.

Record web3 : Type := mkweb3 {
  is_connected : bool;
  chain_id : result Z;
  get_code : result string;
  block_number : result Z;
  get_block : Z -> result block
}.

(** All the program reads besides its arguments: the clock and the local
    time zone ([datetime.now], [datetime.fromtimestamp]), the ABI file,
    [Web3.to_checksum_address], the node and the contract.
    [eth_contract] is [w3.eth.contract(address=..., abi=abi)]: it raises
    when the library refuses what the ABI file holds, and gives the
    contract object [deployed] otherwise. *)
Record world : Type := mkworld {
  now : datetime;
  fromtimestamp : Z -> datetime;
  load_abi : result unit;
  to_checksum_address : string -> result string;
  eth_contract : result unit;
  w3 : web3;
  deployed : contract
}.

(** An element of [records] or of [invalid_records]: the keys ["index"],
    ["name"], ["timestamp"], ["hash"] and, for a record of unexpected
    shape, ["raw"]. *)
Record entry : Type := mkentry {
  e_index : nat;
  e_name : option string;
  e_timestamp : option string;
  e_hash : option string;
  e_raw : option (list string)
}.

(** *** The trace: calls to the node, and lines printed *)

Inductive call : Type :=
| IsConnected
| GetChainId
| GetCode
| TotalRecords
| GetRecord (i : nat)
| BlockNumber
| GetBlock (b : Z).

Inductive msg : Type :=
| ErrorFetchingRecord (i : nat) (e : exn)
| DebugRawRecord (i : nat) (raw : list string)
| UnexpectedRecordShape (i : nat) (raw : list string)
| SkippingRecord (i : nat) (timestamp_str : string)
| DebugFullRecord (i : nat) (name timestamp_str hash_value : string)
| Web3NotConnected
| CouldNotLoadAbi (e : exn)
| ConnectedToChain (id : Z)
| CouldNotQueryChainId
| NoContractCode (address : string)
| CouldNotGetCode (address : string) (e : exn)
| OnChainTotalRecords (n : nat)
| CouldNotReadTotalRecords (e : exn)
| ScanningBlocks (from_block : Z)
| FoundTransactions (n : nat)
| CouldNotBuildBlockTimeMapping (e : exn)
| CouldNotCallContract (e : exn)
| UnexpectedErrorCollecting (e : exn)
| NoRecordsFound
| NoteInvalidListedBelow (n : nat)
| NoteUseIncludeInvalid (n : nat)
| RecordsBetween (start_dt end_dt : datetime)
| RecordLines (r : entry) (block_time : option string)
| InvalidRecordsHeader
| InvalidRecordLines (r : entry).

Inductive event : Type :=
| Call (c : call)
| Print (m : msg).

(** A computation that leaves a trace and either gives a value or stops
    with an [E]. *)
Definition io (E A : Type) : Type := (list event * (E + A))%type.

Definition io_ret {E A} (a : A) : io E A := ([], inr a).
Definition io_bind {E A B} (m : io E A) (f : A -> io E B) : io E B :=
  match m with
  | (t, inl x) => (t, inl x)
  | (t, inr a) => let '(t', r) := f a in (t ++ t', r)
  end.

#[global] Instance io_mret E : MRet (io E) := @io_ret E.
#[global] Instance io_mbind E : MBind (io E) := fun A B f m => io_bind m f.

Definition emit {E} (e : event) : io E unit := ([e], inr tt).
Definition print {E} (m : msg) : io E unit := emit (Print m).
Definition stop {E A} (x : E) : io E A := ([], inl x).

(** A call to the node: the call is traced, an exception stops. *)
Definition node_call {A} (c : call) (r : result A) : io exn A :=
  match r with
  | Raised e => ([Call c], inl e)
  | Value a => ([Call c], inr a)
  end.

(** *** [parse_time] *)

(** [None] is the [ValueError] of the second [strptime], raised again. *)
Definition parse_time (txt : string) : option datetime :=
  match strptime txt DATETIME_FORMAT with
  | Some d => Some d
  | None =>
      match strptime txt DATE_FORMAT with
      | Some d => Some d
      | None => None
      end
  end.

(** *** [collect_records] *)

(** [\d{4}-\d{2}-\d{2} \d{2}:\d{2}:\d{2}] *)
Definition TIMESTAMP_CLASSES : list (Z -> bool) :=
  let d := Re.is_digit in
  let c := Re.is_char in
  [d; d; d; d; c "-"%char; d; d; c "-"%char; d; d; c " "%char;
   d; d; c ":"%char; d; d; c ":"%char; d; d].

Definition TIMESTAMP_PATTERN : Re.re := Re.of_classes TIMESTAMP_CLASSES.

(** The parse of the stored timestamp text (the first [try] of the loop
    body): [strptime] on the whole text, and when it raises, [re.search]
    for the pattern and [strptime] on the text matched. *)
Definition resolve_timestamp (timestamp_str : string) : option datetime :=
  match strptime timestamp_str DATETIME_FORMAT with
  | Some d => Some d
  | None =>
      match Re.search TIMESTAMP_PATTERN (Unicode.code_points timestamp_str) with
      | Some m =>
          match strptime_chars DATETIME_FORMAT m with
          | Some d => Some d
          | None => None
          end
      | None => None
      end
  end.

(** [block_time_map[i]] when the map is given and has [i]. *)
Definition block_time (block_time_map : option (gmap nat datetime)) (i : nat)
  : option datetime :=
  match block_time_map with
  | Some m => m !! i
  | None => None
  end.

(** [rec_dt] when the loop body tests it: the parse of the text, replaced
    by the block time when the map has one for the index. *)
Definition resolved_time (block_time_map : option (gmap nat datetime)) (i : nat)
  (timestamp_str : string) : option datetime :=
  let rec_dt := resolve_timestamp timestamp_str in
  match block_time block_time_map i with
  | Some bt => Some bt
  | None => rec_dt
  end.

(** [records] and [invalid_records] *)
Definition collected : Type := (list entry * list entry)%type.

(** The body of [for i in range(total)]. *)
Definition collect_record (c : contract) (start_dt end_dt : datetime)
  (debug include_invalid : bool) (block_time_map : option (gmap nat datetime))
  (st : collected) (i : nat) : list event * collected :=
  let '(records, invalid_records) := st in
  match getRecord c i with
  | Raised e => ([Call (GetRecord i); Print (ErrorFetchingRecord i e)], st)
  | Value raw =>
      let t := Call (GetRecord i)
               :: (if debug then [Print (DebugRawRecord i raw)] else []) in
      match raw with
      | [name; timestamp_str; hash_value] =>
          match resolved_time block_time_map i timestamp_str with
          | None =>
              (t ++ Print (SkippingRecord i timestamp_str)
                 :: (if debug
                     then [Print (DebugFullRecord i name timestamp_str hash_value)]
                     else []),
               (records,
                if include_invalid
                then invalid_records
                     ++ [mkentry i (Some name) (Some timestamp_str) (Some hash_value) None]
                else invalid_records))
          | Some rec_dt =>
              if leb start_dt rec_dt && leb rec_dt end_dt
              then (t, (records
                        ++ [mkentry i (Some name) (Some timestamp_str) (Some hash_value) None],
                        invalid_records))
              else (t, st)
          end
      | _ =>
          (t ++ [Print (UnexpectedRecordShape i raw)],
           (records,
            if include_invalid
            then invalid_records ++ [mkentry i None None None (Some raw)]
            else invalid_records))
      end
  end.

(** A [for] loop over indices whose body leaves a trace. *)
Fixpoint for_each {S I : Type} (body : S -> I -> list event * S)
  (idx : list I) (s : S) : list event * S :=
  match idx with
  | [] => ([], s)
  | i :: idx' =>
      let '(t1, s1) := body s i in
      let '(t2, s2) := for_each body idx' s1 in
      (t1 ++ t2, s2)
  end.

Definition collect_records (c : contract) (start_dt end_dt : datetime)
  (debug include_invalid : bool) (block_time_map : option (gmap nat datetime))
  : io exn collected :=
  total ← node_call TotalRecords (totalRecords c);
  let '(t, st) :=
    for_each (collect_record c start_dt end_dt debug include_invalid block_time_map)
             (seq 0 total) ([], []) in
  (t, inr st).

(** *** The command line *)

(** [--to-block]: the text ["latest"], a text [int()] converts, or a
    text on which [int()] raises. *)
Inductive block_arg : Type :=
| Latest
| Number (n : Z)
| NotANumber (text : string).

(** The parsed arguments that reach the ledger logic ([--rpc], [--abi] and
    [--save] name the node, the ABI file and the export file). *)
Record args : Type := mkargs {
  start : option string;
  end_ : option string;
  date : option string;
  contract_address : string;
  debug : bool;
  include_invalid : bool;
  use_block_times : bool;
  from_block : Z;
  to_block : block_arg
}.

(** How [main] ends: [parser.error(m)], an exception nobody catches, or
    the end of the function or a [return]. *)
Inductive exit : Type :=
| ParserError (m : string)
| Uncaught (e : exn)
| Return.

(** The window asked for (lines 149-167 of [main]). *)
Definition time_window (a : args) (now : datetime) : io exit (datetime * datetime) :=
  if truthy (date a) then
    if truthy (start a) || truthy (end_ a)
    then stop (ParserError "--date cannot be used with --start or --end; pick one approach")
    else
      match strptime (default "" (date a)) DATE_FORMAT with
      | None => stop (ParserError "Invalid --date format: use YYYY-MM-DD.")
      | Some day_dt =>
          match make_datetime (year day_dt) (month day_dt) (day day_dt) 0 0 0,
                make_datetime (year day_dt) (month day_dt) (day day_dt) 23 59 59 with
          | Some start_dt, Some end_dt => mret (start_dt, end_dt)
          | _, _ => stop (Uncaught (ValueError "datetime"))
          end
      end
  else
    if negb (truthy (start a))
    then stop (ParserError "--start is required unless --date is provided")
    else
      match parse_time (default "" (start a)) with
      | None => stop (Uncaught (ValueError "parse_time"))
      | Some start_dt =>
          if truthy (end_ a) then
            match parse_time (default "" (end_ a)) with
            | None => stop (Uncaught (ValueError "parse_time"))
            | Some end_dt => mret (start_dt, end_dt)
            end
          else mret (start_dt, now)
      end.

(** *** The block-time mapping (lines 213-243 of [main]) *)

(** Whether the scan keeps [tx]; [to_checksum_address] may raise. *)
Definition is_log_attendance (w : world) (checksum_address : string)
  (tx : transaction) : result bool :=
  if negb (truthy (to tx)) then Value false
  else
    match to_checksum_address w (default "" (to tx)) with
    | Raised e => Raised e
    | Value address =>
        if negb (String.eqb address checksum_address) then Value false
        else
          match decode_function_input (deployed w) (input tx) with
          | Raised _ => Value false
          | Value fn_name => Value (String.eqb fn_name "logAttendance")
          end
    end.

(** [block_time_map] and [current_index] *)
Definition scan_state : Type := (gmap nat datetime * nat)%type.

(** The body of [for tx in block.transactions]. *)
Definition scan_transaction (w : world) (checksum_address : string) (b : block)
  (st : scan_state) (tx : transaction) : io exn scan_state :=
  match is_log_attendance w checksum_address tx with
  | Raised e => stop e
  | Value true => mret (<[st.2 := fromtimestamp w (timestamp b)]> st.1, S st.2)
  | Value false => mret st
  end.

(** A [for] loop whose body may raise. *)
Fixpoint for_each_io {E S I : Type} (body : S -> I -> io E S)
  (idx : list I) (s : S) : io E S :=
  match idx with
  | [] => mret s
  | i :: idx' => s1 ← body s i; for_each_io body idx' s1
  end.

(** The body of [for b in range(from_block, int(to_block) + 1)]. *)
Definition scan_block (w : world) (checksum_address : string)
  (st : scan_state) (b : Z) : io exn scan_state :=
  blk ← node_call (GetBlock b) (get_block (w3 w) b);
  for_each_io (scan_transaction w checksum_address blk) (transactions blk) st.

(** The [try] block. *)
Definition scan_blocks (a : args) (w : world) (checksum_address : string)
  : io exn (gmap nat datetime) :=
  to_block ← match to_block a with
             | Latest => n ← node_call BlockNumber (block_number (w3 w)); mret (Number n)
             | other => mret other
             end;
  _ ← print (ScanningBlocks (from_block a));
  last ← match to_block with
         | Number n => mret n
         | _ => stop (ValueError "int")
         end;
  st ← for_each_io (scan_block w checksum_address)
                   (seqZ (from_block a) (last + 1 - from_block a)) (∅, 0%nat);
  _ ← print (FoundTransactions (size st.1));
  mret st.1.

(** The [try] with its [except Exception]: the mapping, or [None]. *)
Definition build_block_time_map {E} (a : args) (w : world) (checksum_address : string)
  : io E (option (gmap nat datetime)) :=
  match scan_blocks a w checksum_address with
  | (t, inr m) => (t, inr (Some m))
  | (t, inl e) => (t ++ [Print (CouldNotBuildBlockTimeMapping e)], inr None)
  end.

(** *** [main]

    From the arguments parsed to the report of the records found.  The
    export of [--save] that follows the report is under a [try] of its own
    and is left out. *)

Definition no_code (code : string) : bool :=
  String.eqb code "" || String.eqb code "0x".

(** The report of the records found (lines 257-285). *)
Definition report (a : args) (start_dt end_dt : datetime)
  (block_time_map : option (gmap nat datetime)) (found : collected) : list event :=
  let '(results, invalid_records) := found in
  (match results with
   | [] =>
       Print NoRecordsFound
       :: match invalid_records with
          | [] => []
          | _ => if include_invalid a
                 then [Print (NoteInvalidListedBelow (length invalid_records))]
                 else [Print (NoteUseIncludeInvalid (length invalid_records))]
          end
   | _ =>
       Print (RecordsBetween start_dt end_dt)
       :: map (fun r => Print (RecordLines r (strftime <$> block_time block_time_map (e_index r))))
              results
   end)
  ++ (if include_invalid a
      then match invalid_records with
           | [] => []
           | _ => Print InvalidRecordsHeader
                  :: map (fun r => Print (InvalidRecordLines r)) invalid_records
           end
      else []).

Definition main_io (a : args) (w : world) : io exit unit :=
  '(start_dt, end_dt) ← time_window a (now w);
  _ ← (if ltb end_dt start_dt
       then stop (ParserError "--end cannot be earlier than --start")
       else mret tt);
  _ ← emit (Call IsConnected);
  _ ← (if is_connected (w3 w) then mret tt
       else _ ← print Web3NotConnected; stop Return);
  _ ← match load_abi w with
      | Raised e => _ ← print (CouldNotLoadAbi e); stop Return
      | Value _ => mret tt
      end;
  checksum_address ← match to_checksum_address w (contract_address a) with
                     | Raised e => stop (Uncaught e)
                     | Value address => mret address
                     end;
  _ ← match eth_contract w with
      | Raised e => stop (Uncaught e)
      | Value _ => mret tt
      end;
  _ ← emit (Call GetChainId);
  _ ← print (match chain_id (w3 w) with
             | Value id => ConnectedToChain id
             | Raised _ => CouldNotQueryChainId
             end);
  _ ← emit (Call GetCode);
  _ ← match get_code (w3 w) with
      | Value code =>
          if no_code code
          then _ ← print (NoContractCode checksum_address); stop Return
          else mret tt
      | Raised e => print (CouldNotGetCode checksum_address e)
      end;
  _ ← emit (Call TotalRecords);
  _ ← print (match totalRecords (deployed w) with
             | Value n => OnChainTotalRecords n
             | Raised e => CouldNotReadTotalRecords e
             end);
  block_time_map ← (if use_block_times a
                    then build_block_time_map a w checksum_address
                    else mret None);
  found ← match collect_records (deployed w) start_dt end_dt (debug a)
                                (include_invalid a) block_time_map with
          | (t, inr found) => (t, inr found)
          | (t, inl (BadFunctionCallOutput m)) =>
              (t ++ [Print (CouldNotCallContract (BadFunctionCallOutput m))], inl Return)
          | (t, inl e) => (t ++ [Print (UnexpectedErrorCollecting e)], inl Return)
          end;
  (report a start_dt end_dt block_time_map found, inr tt).

(** One run: the trace, and how the run ends. *)
Definition main (a : args) (w : world) : list event * exit :=
  match main_io a w with
  | (t, inl x) => (t, x)
  | (t, inr _) => (t, Return)
  end.

End GetAttendanceByTime.



(** ** Text operations and dictionaries of Python *)

Module PyStr.

(** [s.startswith(prefix)], on characters. *)
Fixpoint starts_with (prefix s : list ascii) : bool :=
  match prefix, s with
  | [], _ => true
  | p :: prefix', c :: s' => Ascii.eqb p c && starts_with prefix' s'
  | _ :: _, [] => false
  end.

(** [s.endswith(suffix)] *)
Definition endswith (s suffix : string) : bool :=
  starts_with (rev (list_ascii_of_string suffix)) (rev (list_ascii_of_string s)).

(** [s.replace(old, new)] for a non-empty [old]: the occurrences of [old]
    are taken from the left and do not overlap.  [fuel] bounds the number
    of steps; each step consumes a character at least. *)
Fixpoint replace_chars (fuel : nat) (old new s : list ascii) : list ascii :=
  match fuel with
  | O => s
  | S fuel' =>
      if starts_with old s
      then new ++ replace_chars fuel' old new (drop (length old) s)
      else match s with
           | [] => []
           | c :: s' => c :: replace_chars fuel' old new s'
           end
  end.

Definition replace (s old new : string) : string :=
  let chars := list_ascii_of_string s in
  string_of_list_ascii
    (replace_chars (S (length chars)) (list_ascii_of_string old)
                   (list_ascii_of_string new) chars).

(** A [dict] with [str] keys, in insertion order. *)
Definition dict (A : Type) : Type := list (string * A).

(** [d[key] = value]: a key the dictionary has keeps its place. *)
Fixpoint dict_set {A} (d : dict A) (key : string) (value : A) : dict A :=
  match d with
  | [] => [(key, value)]
  | (k, v) :: d' =>
      if String.eqb k key then (k, value) :: d'
      else (k, v) :: dict_set d' key value
  end.

Definition keys {A} (d : dict A) : list string := map fst d.

End PyStr.

(** ** The embedding files: [Register_Student.py] writes, the loaders read *)

Module Embeddings.
Import Py PyStr.

Definition SUFFIX : string := "_embedding.json".

(** The name of the file [Register_Student.py] saves in [student_data]
    for a [name] without a path separator ([save_path], without the
    folder). *)
Definition saved_file (name : string) : string := name +:+ SUFFIX.

Section Loaders.

(** The content of a file: what [json.load] gives. *)
Context {embedding : Type}.

(** [load_all_embeddings] of [face_attendance.py].  [listing] is
    [os.listdir(STUDENT_FOLDER)], or [None] when the folder does not exist;
    [load] opens and parses a file of the folder. *)
Definition load_all_embeddings (listing : option (list string))
  (load : string -> result embedding) : dict embedding :=
  match listing with
  | None => []
  | Some files =>
      fold_left
        (fun embeddings file =>
           if endswith file SUFFIX then
             let name := replace file SUFFIX "" in
             match load file with
             | Value data => dict_set embeddings name data
             | Raised _ => embeddings
             end
           else embeddings)
        files []
  end.

(** The body of the loop of [load_known_embeddings] of [app.py]: nothing
    catches what [open] or [json.load] raise. *)
Definition load_known_file (load : string -> result embedding)
  (embeddings : result (dict embedding)) (filename : string)
  : result (dict embedding) :=
  match embeddings with
  | Raised e => Raised e
  | Value embeddings =>
      if endswith filename ".json" then
        let student_name := replace filename SUFFIX "" in
        match load filename with
        | Value data => Value (dict_set embeddings student_name data)
        | Raised e => Raised e
        end
      else Value embeddings
  end.

(** [load_known_embeddings]: [os.listdir] raises when the folder is not
    there. *)
Definition load_known_embeddings (listing : option (list string))
  (load : string -> result embedding) : result (dict embedding) :=
  match listing with
  | None => Raised (Exception "FileNotFoundError")
  | Some files => fold_left (load_known_file load) files (Value [])
  end.

End Loaders.

End Embeddings.

(** ** The matchers *)

Module Matching.
Import PyStr.

Section Matchers.

(** The embeddings, the similarity [compare_embeddings] computes in
    floating point, and the comparison [>] of similarities. *)
Context {embedding score : Type}.
Context (compare_embeddings : embedding -> embedding -> score).
Context (gt : score -> score -> bool).

(** The body of the loop of [match_face] of [face_attendance.py], on
    [best_name] and [best_score]. *)
Definition better (face_embedding : embedding) (threshold : score)
  (best : option string * score) (known : string * embedding)
  : option string * score :=
  let '(best_name, best_score) := best in
  let '(name, emb) := known in
  let score := compare_embeddings face_embedding emb in
  if gt score threshold && gt score best_score
  then (Some name, score)
  else best.

(** [match_face(face_embedding, known_embeddings, threshold)] of
    [face_attendance.py]; [zero] is the initial [best_score]. *)
Definition match_face (zero : score) (face_embedding : embedding)
  (known_embeddings : dict embedding) (threshold : score) : option string :=
  (fold_left (better face_embedding threshold) known_embeddings (None, zero)).1.

(** [match_face(face_embedding, known_embeddings)] of [app.py], with its
    threshold. *)
Fixpoint app_match_face (threshold : score) (face_embedding : embedding)
  (known_embeddings : dict embedding) : option string :=
  match known_embeddings with
  | [] => None
  | (name, known_emb) :: rest =>
      if gt (compare_embeddings face_embedding known_emb) threshold
      then Some name
      else app_match_face threshold face_embedding rest
  end.

End Matchers.

End Matching.

(** ** The table of on-chain records of [app.py] *)

Module AppRecords.
Import Py GetAttendanceByTime.

(** The body of [for idx in range(total)]: the record is unpacked into
    three values, which raises for any other number of them. *)
Definition append_row (c : contract) (records : list entry) (idx : nat)
  : io exn (list entry) :=
  raw ← node_call (GetRecord idx) (getRecord c idx);
  match raw with
  | [n; t; h] => mret (records ++ [mkentry idx (Some n) (Some t) (Some h) None])
  | _ => stop (ValueError "unpack")
  end.

(** The [try] block under "Refresh On-Chain Records": the rows of the
    table shown, or the exception the [except] reports. *)
Definition refresh_on_chain_records (c : contract) : io exn (list entry) :=
  total ← node_call TotalRecords (totalRecords c);
  for_each_io (append_row c) (seq 0 total) [].

End AppRecords.


(** * Properties *)

(** ** The content hash *)

Module ContentHash.

(** The specification's [contentHash]: the hexadecimal SHA-256 digest of
    [identity + "-" + declaredTimestamp]. *)
Definition contentHash (identity declaredTimestamp : string) : string :=
  Sha256.sha256_hexdigest (identity +:+ "-" +:+ declaredTimestamp).

Example sha256_round_constants :
  length Sha256.K = 64%nat
  /\ nth 0 Sha256.K 0 = 0x428a2f98 /\ nth 63 Sha256.K 0 = 0xc67178f2
  /\ nth 0 Sha256.H0 0 = 0x6a09e667 /\ nth 7 Sha256.H0 0 = 0x5be0cd19.
Proof. vm_compute. repeat split; reflexivity. Qed.

Example sha256_abc :
  Sha256.sha256_hexdigest "abc"
  = "ba7816bf8f01cfea414140de5dae2223b00361a396177a9cb410ff61f20015ad".
Proof. vm_compute. reflexivity. Qed.

Example sha256_two_blocks :
  Sha256.sha256_hexdigest
    "aaaaaaaaaaaaaaaaaaaaaaaaaaaaaaaaaaaaaaaaaaaaaaaaaaaaaaaaaaaaaaaaaaaaaa"
  = "6bd5e5034855a11241f0dee8fc72850ffd9955b28347a86428b5fa19119f6ad0".
Proof. vm_compute. reflexivity. Qed.

Example contentHash_alice :
  contentHash "alice" "2025-01-01 00:00:00"
  = "1a9be50af5acdaac351ca7d02f9cdefcb7fe066ca927acaf4ac6c4190d396edc".
Proof. vm_compute. reflexivity. Qed.

End ContentHash.

(** ** The write path *)

Module WriteProperties.
Import Py FaceAttendance ContentHash.

(** A client with which [save_to_blockchain] does send. *)
Definition usable (c : client) : bool :=
  web3 c && contract c && truthy (private_key c) && truthy (account_address c).

(** The transaction [save_to_blockchain] submits. *)
Definition txn_of (name timestamp : string) (c : client) (w : chain) : txn :=
  mktxn (default "" (account_address c)) (length (sent w)) name timestamp
        (hash_str name timestamp).

#[local] Arguments hash_str : simpl never.

Ltac run_write E :=
  unfold save_to_blockchain, end_attempt, try_except, mbind, rpc_bind,
    mret, rpc_ret, ret, send_raw_transaction;
  repeat (progress (unfold bind, call; cbn; rewrite ?E; cbn)).

Lemma save_unusable name timestamp c w :
  usable c = false ->
  save_to_blockchain name timestamp c w = ((false, None), w).
Proof.
  unfold usable, save_to_blockchain. intros ->. reflexivity.
Qed.

(** A write in which no call raises submits one transaction and succeeds. *)
Lemma save_success name timestamp c w :
  usable c = true -> fault w (attempts w) = None ->
  save_to_blockchain name timestamp c w
  = ((true, Some (length (sent w))),
     mkchain (sent w ++ [txn_of name timestamp c w]) (S (attempts w)) (fault w)).
Proof.
  intros Hc E. unfold usable in Hc. unfold save_to_blockchain. rewrite Hc.
  run_write E. reflexivity.
Qed.

(** A write in which a call up to the submission raises submits nothing. *)
Lemma save_fault_before_send name timestamp c w st :
  usable c = true -> fault w (attempts w) = Some st ->
  st <> WaitForTransactionReceipt ->
  save_to_blockchain name timestamp c w
  = ((false, None), mkchain (sent w) (S (attempts w)) (fault w)).
Proof.
  intros Hc E Hst. unfold usable in Hc. unfold save_to_blockchain. rewrite Hc.
  destruct st; try congruence; run_write E; reflexivity.
Qed.

(** When the wait for the receipt raises, the transaction is with the
    node and the write still reports a failure. *)
Lemma save_fault_receipt name timestamp c w :
  usable c = true -> fault w (attempts w) = Some WaitForTransactionReceipt ->
  save_to_blockchain name timestamp c w
  = ((false, None),
     mkchain (sent w ++ [txn_of name timestamp c w]) (S (attempts w)) (fault w)).
Proof.
  intros Hc E. unfold usable in Hc. unfold save_to_blockchain. rewrite Hc.
  run_write E. reflexivity.
Qed.

(** Every write fails exactly when a call raises or the client is not
    usable, and submits at most the one transaction of its arguments. *)
Lemma save_cases name timestamp c w :
  let r := save_to_blockchain name timestamp c w in
  (sent r.2 = sent w \/ sent r.2 = sent w ++ [txn_of name timestamp c w])
  /\ fault r.2 = fault w.
Proof.
  destruct (usable c) eqn:Hc.
  - destruct (fault w (attempts w)) as [st|] eqn:E.
    + destruct (stage_eqb st WaitForTransactionReceipt) eqn:Hst.
      * destruct st; try discriminate.
        rewrite save_fault_receipt by done. cbn. auto.
      * rewrite (save_fault_before_send _ _ _ _ st) by (try done; intros ->; discriminate).
        cbn. auto.
    + rewrite save_success by done. cbn. auto.
  - rewrite save_unusable by done. cbn. auto.
Qed.

Lemma save_failed_of_fault name timestamp c w st :
  fault w (attempts w) = Some st ->
  (save_to_blockchain name timestamp c w).1 = (false, None).
Proof.
  intros E. destruct (usable c) eqn:Hc.
  - destruct (stage_eqb st WaitForTransactionReceipt) eqn:Hst.
    + destruct st; try discriminate. by rewrite save_fault_receipt.
    + by rewrite (save_fault_before_send _ _ _ _ st) by (try done; intros ->; discriminate).
  - by rewrite save_unusable.
Qed.

(** *** The invariant of the capture loop *)

(** The transactions the node received since [w0]. *)
Definition submitted (w0 w : chain) : list txn := drop (length (sent w0)) (sent w).

Definition well_hashed (t : txn) : Prop :=
  tx_hash_str t = contentHash (tx_name t) (tx_timestamp t).

(** What holds between two faces: the node received, since the start, one
    transaction at most for each name, each for a name of [logged_today],
    each carrying the hash of its name and timestamp. *)
Definition session_inv (w0 : chain) (st : session) : Prop :=
  exists new,
    sent st.2 = sent w0 ++ new
    /\ NoDup (tx_name <$> new)
    /\ Forall (fun t => tx_name t ∈ st.1 /\ well_hashed t) new.

Lemma session_inv_init w : session_inv w (∅, w).
Proof.
  exists []. cbn. rewrite app_nil_r. repeat split; [constructor | constructor].
Qed.

Lemma session_inv_mark w0 logged w name :
  session_inv w0 (logged, w) -> session_inv w0 ({[name]} ∪ logged, w).
Proof.
  intros (new & Hs & Hnd & Hall). exists new. repeat split; try done.
  eapply Forall_impl; [exact Hall|]. cbn. intros t [? ?]. split; [set_solver | done].
Qed.

Lemma session_inv_save w0 logged w name timestamp c :
  name ∉ logged ->
  session_inv w0 (logged, w) ->
  session_inv w0 ({[name]} ∪ logged, (save_to_blockchain name timestamp c w).2).
Proof.
  intros Hfresh Hinv.
  destruct (save_cases name timestamp c w) as [[Hs | Hs] _].
  - apply (session_inv_mark _ _ _ name) in Hinv. destruct Hinv as (new & Hw & Hnd & Hall).
    exists new. cbn [fst snd] in *. repeat split; [congruence | done | done].
  - destruct Hinv as (new & Hw & Hnd & Hall). cbn [fst snd] in *.
    exists (new ++ [txn_of name timestamp c w]). repeat split.
    + rewrite app_assoc, <- Hw. exact Hs.
    + rewrite fmap_app. cbn. apply NoDup_app. repeat split; [done | | apply NoDup_singleton].
      intros x Hx Hx'. apply list_elem_of_singleton in Hx'. subst x.
      apply list_elem_of_fmap in Hx as (t & Ht & Hin).
      rewrite Forall_forall in Hall. destruct (Hall t Hin) as [Hl _].
      rewrite <- Ht in Hl. done.
    + apply Forall_app. split.
      * eapply Forall_impl; [exact Hall|]. cbn. intros t [? ?]. split; [set_solver | done].
      * constructor; [|constructor]. cbn. split; [set_solver | reflexivity].
Qed.

Lemma log_face_inv w0 send_to_chain c st face :
  session_inv w0 st -> session_inv w0 (log_face send_to_chain c st face).
Proof.
  intros Hinv. destruct st as [logged w]. unfold log_face.
  destruct (truthy (matched face)); [|done].
  destruct (decide (default "" (matched face) ∈ logged)) as [|Hfresh]; [done|].
  destruct send_to_chain.
  - pose proof (session_inv_save w0 logged w _ (Datetime.strftime (clock face)) c Hfresh Hinv) as H.
    destruct (save_to_blockchain _ _ c w) as [[success tx] w']. cbn in H.
    by destruct success.
  - pose proof (session_inv_save w0 logged w _ (Datetime.strftime (clock face)) no_client Hfresh Hinv) as H.
    destruct (save_to_blockchain _ _ no_client w) as [r w']. exact H.
Qed.

Lemma capture_frames_inv w0 send_to_chain c frames st :
  session_inv w0 st -> session_inv w0 (capture_frames send_to_chain c frames st).
Proof.
  unfold capture_frames. revert st.
  induction frames as [|faces frames IH]; intros st Hinv; [done|].
  cbn. apply IH. clear IH. revert st Hinv.
  induction faces as [|face faces IHf]; intros st Hinv; [done|].
  cbn. apply IHf. by apply log_face_inv.
Qed.

(** A detection of a name already in [logged_today] changes nothing. *)
Lemma log_face_logged send_to_chain c logged w name clock :
  log_face send_to_chain c ({[name]} ∪ logged, w) (mkdetection (Some name) clock)
  = ({[name]} ∪ logged, w).
Proof.
  unfold log_face. cbn. destruct (negb (name =? ""))%string; [|done].
  destruct (decide (name ∈ {[name]} ∪ logged)) as [|Hn]; [done|]. set_solver.
Qed.

Lemma filter_name_fresh {A} (f : A -> string) (l : list A) (x : string) :
  x ∉ f <$> l -> filter (fun a => f a = x) l = [].
Proof.
  induction l as [|a l IH]; [done|].
  rewrite fmap_cons, not_elem_of_cons. intros [Hne Hl].
  rewrite filter_cons. destruct (decide (f a = x)); [congruence | by apply IH].
Qed.

Lemma count_name_le_1 {A} (f : A -> string) (l : list A) (x : string) :
  NoDup (f <$> l) -> (length (filter (fun a => f a = x) l) <= 1)%nat.
Proof.
  induction l as [|a l IH]; [cbn; lia|].
  rewrite fmap_cons. intros Hnd. apply NoDup_cons in Hnd as [Hnotin Hnd].
  rewrite filter_cons. destruct (decide (f a = x)) as [Hax|]; [|by apply IH].
  subst x. rewrite filter_name_fresh by done. cbn. lia.
Qed.

(** *** The dashboard loop of [app.py] *)

Definition app_inv (st : App.session_state) : Prop :=
  NoDup (App.e_name <$> st.2)
  /\ Forall (fun e => App.e_name e ∈ st.1
                      /\ App.e_hash e = contentHash (App.e_name e) (App.e_timestamp e))
            st.2.

Lemma app_log_face_inv st face : app_inv st -> app_inv (App.log_face st face).
Proof.
  destruct st as [logged entries]. unfold App.log_face.
  destruct (truthy (matched face)); cbn [andb]; [|done].
  case_bool_decide as Hin; cbn [negb]; [done|].
  intros [Hnd Hall]. unfold app_inv. cbn [fst snd] in *. split.
  - rewrite fmap_app. cbn. apply NoDup_app. repeat split; [done | | apply NoDup_singleton].
    intros x Hx Hx'. apply list_elem_of_singleton in Hx'. subst x.
    apply list_elem_of_fmap in Hx as (e & He & Hine).
    rewrite Forall_forall in Hall. destruct (Hall e Hine) as [Hl _].
    rewrite <- He in Hl. done.
  - apply Forall_app. split.
    + eapply Forall_impl; [exact Hall|]. cbn. intros e [? ?]. split; [set_solver | done].
    + constructor; [|constructor]. cbn. split; [set_solver | reflexivity].
Qed.

Lemma run_webcam_inv frames : app_inv (App.run_webcam frames).
Proof.
  unfold App.run_webcam.
  assert (app_inv (∅, [])) as Hinit by (split; constructor).
  revert Hinit. generalize ((∅, []) : App.session_state).
  induction frames as [|faces frames IH]; intros st Hinv; [done|].
  cbn. apply IH. clear IH. revert st Hinv.
  induction faces as [|face faces IHf]; intros st Hinv; [done|].
  cbn. apply IHf. by apply app_log_face_inv.
Qed.

(** *** The claims on the write path *)

(** C4.  In one capture session the node receives at most one transaction
    for an identity, however often the identity is detected; a detection
    of an identity already in the session's dedup set submits nothing and
    leaves the session as it is; and the dashboard loop queues at most one
    entry for an identity. *)
Theorem at_most_one_transaction_per_identity
  (send_to_chain : bool) (c : client) (frames : list frame) (w : chain)
  (identity : string) :
  let st := capture_and_log send_to_chain c frames w in
  sent st.2 = sent w ++ submitted w st.2
  /\ (length (filter (fun t => tx_name t = identity) (submitted w st.2)) <= 1)%nat
  /\ (forall logged w' clock,
        log_face send_to_chain c ({[identity]} ∪ logged, w')
                 (mkdetection (Some identity) clock)
        = ({[identity]} ∪ logged, w'))
  /\ (length (filter (fun e => App.e_name e = identity) (App.run_webcam frames).2) <= 1)%nat.
Proof.
  intros st.
  destruct (capture_frames_inv w send_to_chain c frames (∅, w) (session_inv_init w))
    as (new & Hs & Hnd & _).
  fold (capture_and_log send_to_chain c frames w) in Hs. fold st in Hs.
  assert (submitted w st.2 = new) as Hsub.
  { unfold submitted. rewrite Hs. by rewrite drop_app_length. }
  rewrite Hsub. repeat split.
  - exact Hs.
  - by apply count_name_le_1.
  - intros. apply log_face_logged.
  - apply count_name_le_1. apply (run_webcam_inv frames).
Qed.

(** C9.  The content hash is the hexadecimal SHA-256 digest of
    [identity + "-" + declaredTimestamp] wherever it is computed: in the
    writer of [face_attendance.py], in [app.py], in every transaction a
    capture session submits and in every entry the dashboard loop queues. *)
Theorem content_hash_is_sha256_of_identity_and_timestamp
  (identity declaredTimestamp : string)
  (send_to_chain : bool) (c : client) (frames : list frame) (w : chain) :
  FaceAttendance.hash_str identity declaredTimestamp
  = Sha256.sha256_hexdigest (identity +:+ "-" +:+ declaredTimestamp)
  /\ App.hash_str identity declaredTimestamp
     = FaceAttendance.hash_str identity declaredTimestamp
  /\ Forall (fun t => tx_hash_str t = contentHash (tx_name t) (tx_timestamp t))
            (submitted w (capture_and_log send_to_chain c frames w).2)
  /\ Forall (fun e => App.e_hash e = contentHash (App.e_name e) (App.e_timestamp e))
            (App.run_webcam frames).2
  /\ contentHash "alice" "2025-01-01 00:00:00"
     = "1a9be50af5acdaac351ca7d02f9cdefcb7fe066ca927acaf4ac6c4190d396edc".
Proof.
  split; [reflexivity|]. split; [reflexivity|]. split; [|split].
  - destruct (capture_frames_inv w send_to_chain c frames (∅, w) (session_inv_init w))
      as (new & Hs & _ & Hall).
    fold (capture_and_log send_to_chain c frames w) in Hs.
    unfold submitted. rewrite Hs, drop_app_length.
    eapply Forall_impl; [exact Hall|]. cbn. by intros t [_ ?].
  - destruct (run_webcam_inv frames) as [_ Hall].
    eapply Forall_impl; [exact Hall|]. cbn. by intros e [_ ?].
  - exact contentHash_alice.
Qed.

(** *** A write that fails *)

Definition alice_at_midnight : detection :=
  mkdetection (Some "alice") (Datetime.mkdatetime 2025 1 1 0 0 0 0).

Definition configured_client : client :=
  mkclient true true (Some "0xA31534EC") (Some "0x1d77cbde").

(** A node on which the cost estimation of the first write raises, and
    nothing else ever does. *)
Definition estimate_fails_once : chain :=
  mkchain [] 0 (fun n => match n with O => Some EstimateGas | S _ => None end).

(** C1, as the specification states it, fails on the code: the cost
    estimation of the write for ["alice"] raises, the write reports the
    failure, and ["alice"] is in [logged_today] all the same; detected
    again in the next frame, on a node that would now accept the write, the
    identity is not written: one attempt was made and nothing was sent. *)
Lemma failed_write_is_marked_written :
  let w := estimate_fails_once in
  let st := capture_and_log true configured_client
              [[alice_at_midnight]; [alice_at_midnight]] w in
  (save_to_blockchain "alice" "2025-01-01 00:00:00" configured_client w).1 = (false, None)
  /\ elements st.1 = ["alice"]
  /\ attempts st.2 = 1%nat
  /\ sent st.2 = [].
Proof. vm_compute. repeat split; reflexivity. Qed.

(** C1, amended.  When a call of a write raises (the cost estimation, the
    submission, or any other), the write returns [(False, None)], and the
    capture loop adds the identity to [logged_today] as it does after a
    success: every later detection of the identity in the session leaves
    the session and the node unchanged, so no further write is attempted
    for it. *)
Theorem failed_write_returns_failed_and_marks_identity
  (c : client) (logged_today : gset string) (w : chain) (face : detection)
  (identity : string) (st : stage) :
  matched face = Some identity ->
  identity <> "" ->
  identity ∉ logged_today ->
  fault w (attempts w) = Some st ->
  let after := log_face true c (logged_today, w) face in
  (save_to_blockchain identity (Datetime.strftime (clock face)) c w).1 = (false, None)
  /\ identity ∈ after.1
  /\ after.2 = (save_to_blockchain identity (Datetime.strftime (clock face)) c w).2
  /\ forall again, matched again = Some identity -> log_face true c after again = after.
Proof.
  intros Hm Hne Hfresh Hfault after.
  pose proof (save_failed_of_fault identity (Datetime.strftime (clock face)) c w st Hfault)
    as Hfailed.
  assert (after = ({[identity]} ∪ logged_today,
                   (save_to_blockchain identity (Datetime.strftime (clock face)) c w).2))
    as Hafter.
  { unfold after, log_face. rewrite Hm. cbn.
    destruct (String.eqb_spec identity ""); [done|]. cbn.
    destruct (decide (identity ∈ logged_today)); [done|].
    destruct (save_to_blockchain identity _ c w) as [[success tx] w']. cbn.
    by destruct success. }
  split; [exact Hfailed|]. rewrite Hafter. cbn [fst snd].
  split; [set_solver|]. split; [reflexivity|].
  intros again Hagain. destruct again as [m clk]. cbn in Hagain. subst m.
  apply log_face_logged.
Qed.

Lemma failed_write_returns_failed_and_marks_identity_witness :
  let after := log_face true configured_client (∅, estimate_fails_once) alice_at_midnight in
  (save_to_blockchain "alice" (Datetime.strftime (clock alice_at_midnight))
     configured_client estimate_fails_once).1 = (false, None)
  /\ "alice" ∈ after.1
  /\ after.2 = (save_to_blockchain "alice" (Datetime.strftime (clock alice_at_midnight))
                  configured_client estimate_fails_once).2
  /\ forall again, matched again = Some "alice" ->
       log_face true configured_client after again = after.
Proof.
  apply (failed_write_returns_failed_and_marks_identity
           configured_client ∅ estimate_fails_once alice_at_midnight "alice" EstimateGas).
  - reflexivity.
  - discriminate.
  - set_solver.
  - reflexivity.
Defined.

End WriteProperties.

(** ** The fallback search of the timestamp resolution *)

Module SearchProperties.
Import Re.

(** Whether [s] starts with one character of each class of [cl]. *)
Fixpoint classes_match (cl : list (Z -> bool)) (s : list Z) : bool :=
  match cl, s with
  | [], _ => true
  | p :: cl', c :: s' => p c && classes_match cl' s'
  | _ :: _, [] => false
  end.

(** [m] is a text of the pattern: as long as [cl], each character in its class. *)
Definition shaped (cl : list (Z -> bool)) (m : list Z) : Prop :=
  Forall2 (fun p c => p c = true) cl m.

(** [m] is the first substring of [text] of the pattern: no substring of
    the pattern starts further left. *)
Definition first_match (cl : list (Z -> bool)) (text m : list Z) : Prop :=
  exists pre post,
    text = pre ++ m ++ post
    /\ shaped cl m
    /\ forall pre' m' post',
         text = pre' ++ m' ++ post' -> shaped cl m' -> (length pre <= length pre')%nat.

Definition no_match (cl : list (Z -> bool)) (text : list Z) : Prop :=
  forall pre m post, text = pre ++ m ++ post -> ~ shaped cl m.

Lemma rmatch_of_classes cl s :
  rmatch (of_classes cl) s
  = if classes_match cl s then [drop (length cl) s] else [].
Proof.
  revert s. induction cl as [|p cl IH]; intros s; [done|].
  cbn [of_classes rmatch classes_match length].
  destruct s as [|c s]; [done|].
  destruct (p c); cbn; [|done].
  rewrite IH. rewrite app_nil_r. done.
Qed.

Lemma classes_match_shaped cl s :
  classes_match cl s = true
  <-> (length cl <= length s)%nat /\ shaped cl (take (length cl) s).
Proof.
  revert s. induction cl as [|p cl IH]; intros s.
  - cbn. split; [|done]. intros _. split; [lia | constructor].
  - destruct s as [|c s]; cbn.
    + split; [done|]. intros [? _]. lia.
    + rewrite andb_true_iff, IH. split.
      * intros [Hp [Hlen Hsh]]. split; [lia|]. by constructor.
      * intros [Hlen Hsh]. inversion Hsh; subst. repeat split; [done | lia | done].
Qed.

Lemma shaped_length cl m : shaped cl m -> length m = length cl.
Proof. intros H. symmetry. eapply Forall2_length, H. Qed.

Lemma classes_match_prefix cl m post :
  shaped cl m -> classes_match cl (m ++ post) = true.
Proof.
  intros Hsh. apply classes_match_shaped.
  pose proof (shaped_length _ _ Hsh) as Hlen.
  split; [rewrite length_app; lia|].
  rewrite <- Hlen, take_app_length. done.
Qed.

Lemma match_prefix_of_classes cl s :
  match_prefix (of_classes cl) s
  = if classes_match cl s then Some (take (length cl) s) else None.
Proof.
  unfold match_prefix. rewrite rmatch_of_classes.
  destruct (classes_match cl s) eqn:Hm; [|done].
  apply classes_match_shaped in Hm as [Hlen _].
  f_equal. f_equal. rewrite length_drop. lia.
Qed.

(** [re.search] gives the leftmost substring of the pattern. *)
Lemma search_first_match cl s m :
  search (of_classes cl) s = Some m -> first_match cl s m.
Proof.
  revert m. induction s as [|c s IH]; intros m; cbn [search];
    rewrite match_prefix_of_classes.
  - destruct (classes_match cl []) eqn:Hm; [|done].
    intros [= <-]. apply classes_match_shaped in Hm as [Hlen Hsh].
    exists [], (drop (length cl) []). split; [by rewrite app_nil_l, take_drop|].
    split; [done|]. intros. cbn. lia.
  - destruct (classes_match cl (c :: s)) eqn:Hm.
    + intros [= <-]. apply classes_match_shaped in Hm as [Hlen Hsh].
      exists [], (drop (length cl) (c :: s)).
      split; [by rewrite app_nil_l, take_drop|].
      split; [done|]. intros. cbn. lia.
    + intros Hs. destruct (IH m Hs) as (pre & post & -> & Hsh & Hleft).
      exists (c :: pre), post. split; [done|]. split; [done|].
      intros pre' m' post' Heq Hsh'. destruct pre' as [|c' pre'].
      * cbn in Heq. rewrite Heq, classes_match_prefix in Hm by done. done.
      * cbn in Heq. injection Heq as -> Heq. cbn.
        specialize (Hleft pre' m' post' Heq Hsh'). lia.
Qed.

(** When [re.search] finds nothing, no substring is of the pattern. *)
Lemma search_no_match cl s :
  search (of_classes cl) s = None -> no_match cl s.
Proof.
  induction s as [|c s IH]; cbn [search]; rewrite match_prefix_of_classes.
  - destruct (classes_match cl []) eqn:Hm; [done|]. intros _ pre m post Heq Hsh.
    destruct pre; [|done]. cbn in Heq.
    rewrite Heq, classes_match_prefix in Hm by done. done.
  - destruct (classes_match cl (c :: s)) eqn:Hm; [done|]. intros Hs pre m post Heq Hsh.
    destruct pre as [|c' pre].
    + cbn in Heq. rewrite Heq, classes_match_prefix in Hm by done. done.
    + cbn in Heq. injection Heq as -> Heq. exact (IH Hs pre m post Heq Hsh).
Qed.

End SearchProperties.

(** ** The read path *)

Module ReadProperties.
Import Py Datetime GetAttendanceByTime SearchProperties.

(** *** Timestamp resolution *)

(** [strptime] is more lenient than the pattern of the fallback search:
    fields of one digit and a run of blanks parse; seconds of 60, a day the
    month does not have, the year 0 and text after the seconds do not. *)
Example strptime_accepts :
  strptime "2025-1-5 7:3:9" DATETIME_FORMAT = Some (mkdatetime 2025 1 5 7 3 9 0)
  /\ strptime "2025-12-01   20:19:00" DATETIME_FORMAT = Some (mkdatetime 2025 12 1 20 19 0 0)
  /\ strptime "2024-02-29 00:00:00" DATETIME_FORMAT = Some (mkdatetime 2024 2 29 0 0 0 0)
  /\ strptime "2025-12-1" DATE_FORMAT = Some (mkdatetime 2025 12 1 0 0 0 0).
Proof. vm_compute. repeat split; reflexivity. Qed.

Example strptime_rejects :
  strptime "2025-12-01 20:19:60" DATETIME_FORMAT = None
  /\ strptime "2025-02-30 10:00:00" DATETIME_FORMAT = None
  /\ strptime "1900-02-29 00:00:00" DATETIME_FORMAT = None
  /\ strptime "0000-01-01 00:00:00" DATETIME_FORMAT = None
  /\ strptime "2025-12-01 24:00:00" DATETIME_FORMAT = None
  /\ strptime "2025-12-01 20:19:075" DATETIME_FORMAT = None
  /\ strptime "2025-12-01 20:19:00 " DATETIME_FORMAT = None
  /\ strptime "2025-12-015" DATE_FORMAT = None.
Proof. vm_compute. repeat split; reflexivity. Qed.

(** The first substring of the pattern decides: a later one that would
    parse is not tried. *)
Example resolve_timestamp_first_match_only :
  resolve_timestamp "9999-99-99 99:99:99 2025-12-01 20:19:00" = None.
Proof. vm_compute. reflexivity. Qed.

Definition instant_20_19 : datetime := mkdatetime 2025 12 1 20 19 0 0.

(** A text given by the bytes of its encoding. *)
Definition utf8 (bytes : list Z) : string :=
  string_of_list_ascii (map (fun b => ascii_of_nat (Z.to_nat b)) bytes).

Definition NO_BREAK_SPACE : string := utf8 [194; 160].
Definition EM_SPACE : string := utf8 [226; 128; 131].
Definition ZERO_WIDTH_SPACE : string := utf8 [226; 128; 139].

(** Sequences of one, two, three and four bytes; bytes that are no
    encoding (a shortest form not respected, a surrogate, a sequence cut
    short) are characters of no class. *)
Example code_points_of_texts :
  Unicode.code_points "aé٢€😀" = [97; 233; 1634; 8364; 128512]
  /\ Unicode.code_points NO_BREAK_SPACE = [160]
  /\ Unicode.code_points EM_SPACE = [8195]
  /\ Unicode.code_points (utf8 [192; 176; 237; 160; 128; 226; 130])
     = [56512; 56496; 56557; 56480; 56448; 56546; 56450].
Proof. vm_compute. repeat split; reflexivity. Qed.

(** Where a directive has [\d] and where the format has its blank, the
    decimal digits of any script and any blank are read; where a directive
    names its digits ([1[0-2]], [2[0-3]], ...), only those are. *)
Example strptime_reads_digits_of_any_script :
  strptime "٢٠٢٥-12-01 20:19:00" DATETIME_FORMAT = Some instant_20_19
  /\ strptime "２０２５-12-01 20:19:00" DATETIME_FORMAT = Some instant_20_19
  /\ strptime "𝟐𝟎𝟐𝟓-12-01 20:19:00" DATETIME_FORMAT = Some instant_20_19
  /\ strptime "2025-12-01 1٠:19:5๙" DATETIME_FORMAT = Some (mkdatetime 2025 12 1 10 19 59 0)
  /\ strptime ("2025-12-01" +:+ NO_BREAK_SPACE +:+ "20:19:00") DATETIME_FORMAT
     = Some instant_20_19
  /\ strptime ("2025-12-01" +:+ EM_SPACE +:+ "20:19:00") DATETIME_FORMAT
     = Some instant_20_19
  /\ strptime ("2025-12-01" +:+ ZERO_WIDTH_SPACE +:+ "20:19:00") DATETIME_FORMAT = None
  /\ strptime "2025-12-01 2٠:19:00" DATETIME_FORMAT = None
  /\ strptime "٢٠٢٥-١٢-٠١ ٢٠:١٩:٠٠" DATETIME_FORMAT = None
  /\ strptime "²025-12-01 20:19:00" DATETIME_FORMAT = None
  /\ strptime "2025-12-1٠" DATE_FORMAT = Some (mkdatetime 2025 12 10 0 0 0 0)
  /\ strptime "2025-1٢-10" DATE_FORMAT = None.
Proof. vm_compute. repeat split; reflexivity. Qed.

(** The fallback search finds a timestamp whose digits are of another
    script, among other characters, and it is the leftmost one that
    decides; a text the pattern accepts and [strptime] does not has no
    instant. *)
Example resolve_timestamp_of_any_script :
  strptime "x ٢٠٢٥-12-01 20:19:00 y" DATETIME_FORMAT = None
  /\ resolve_timestamp "x ٢٠٢٥-12-01 20:19:00 y" = Some instant_20_19
  /\ resolve_timestamp "x ٢٠٢٥-12-01 20:19:00 2024-01-01 00:00:00" = Some instant_20_19
  /\ resolve_timestamp "café 2025-12-01 20:19:00 😀" = Some instant_20_19
  /\ resolve_timestamp "① 2025-12-01 20:19:00" = Some instant_20_19
  /\ resolve_timestamp "٢٠٢٥-١٢-٠١ ٢٠:١٩:٠٠" = None
  /\ resolve_timestamp "2025-12-01 2٠:19:00" = None.
Proof. vm_compute. repeat split; reflexivity. Qed.

(** C6.  The resolution of a stored timestamp text parses the whole text
    with [DATETIME_FORMAT]; when that fails it takes the first substring of
    the pattern [\d{4}-\d{2}-\d{2} \d{2}:\d{2}:\d{2}], among the
    characters of the text, and parses it; when there is no such substring,
    or its parse fails, there is no instant.  The three texts of the
    specification resolve as it says, the second one through the
    fallback. *)
Theorem resolve_timestamp_parses_then_searches (text : string) :
  match strptime text DATETIME_FORMAT with
  | Some instant => resolve_timestamp text = Some instant
  | None =>
      (exists m,
          first_match TIMESTAMP_CLASSES (Unicode.code_points text) m
          /\ resolve_timestamp text = strptime_chars DATETIME_FORMAT m)
      \/ (no_match TIMESTAMP_CLASSES (Unicode.code_points text)
          /\ resolve_timestamp text = None)
  end
  /\ resolve_timestamp "2025-12-01 20:19:00" = Some instant_20_19
  /\ strptime "noise 2025-12-01 20:19:00 noise" DATETIME_FORMAT = None
  /\ resolve_timestamp "noise 2025-12-01 20:19:00 noise" = Some instant_20_19
  /\ resolve_timestamp "garbage" = None.
Proof.
  split; [|by vm_compute].
  unfold resolve_timestamp.
  destruct (strptime text DATETIME_FORMAT) as [instant|]; [done|].
  unfold TIMESTAMP_PATTERN.
  destruct (Re.search _ _) as [m|] eqn:Hs.
  - left. exists m. split; [by apply search_first_match|].
    by destruct (strptime_chars DATETIME_FORMAT m).
  - right. split; [by apply search_no_match | done].
Qed.

(** *** The order of datetimes *)

Lemma lex_compare_refl l : lex_compare l l = Eq.
Proof. induction l as [|x l IH]; [done|]. cbn. by rewrite Z.compare_refl. Qed.

Lemma leb_refl d : leb d d = true.
Proof. unfold leb, compare. by rewrite lex_compare_refl. Qed.

Lemma lex_compare_antisym a b : lex_compare b a = CompOpp (lex_compare a b).
Proof.
  revert b. induction a as [|x a IH]; intros [|y b]; try done.
  cbn. rewrite (Z.compare_antisym x y). destruct (x ?= y); cbn; [apply IH | done | done].
Qed.

(** [end_dt < start_dt] is the negation of [start_dt <= end_dt]. *)
Lemma ltb_negb_leb a b : ltb b a = negb (leb a b).
Proof.
  unfold ltb, leb, compare. rewrite (lex_compare_antisym (fields a) (fields b)).
  by destruct (lex_compare (fields a) (fields b)).
Qed.

(** *** The scan of [collect_records] *)

Section Collect.

Context (c : contract) (start_dt end_dt : datetime) (debug include_invalid : bool)
        (block_time_map : option (gmap nat datetime)).

(** The entry of a record fetched with its three fields. *)
Definition entry_of (i : nat) (name timestamp_str hash_value : string) : entry :=
  mkentry i (Some name) (Some timestamp_str) (Some hash_value) None.

(** What index [i] adds to [records]: the record was fetched, has three
    fields, and its resolved time is in the window. *)
Definition in_range_entry (i : nat) : option entry :=
  match getRecord c i with
  | Value [name; timestamp_str; hash_value] =>
      match resolved_time block_time_map i timestamp_str with
      | Some rec_dt =>
          if leb start_dt rec_dt && leb rec_dt end_dt
          then Some (entry_of i name timestamp_str hash_value)
          else None
      | None => None
      end
  | _ => None
  end.

(** What index [i] adds to [invalid_records] when [include_invalid] is set. *)
Definition invalid_entry (i : nat) : option entry :=
  match getRecord c i with
  | Raised _ => None
  | Value [name; timestamp_str; hash_value] =>
      match resolved_time block_time_map i timestamp_str with
      | Some _ => None
      | None => Some (entry_of i name timestamp_str hash_value)
      end
  | Value raw => Some (mkentry i None None None (Some raw))
  end.

#[local] Abbreviation body :=
  (collect_record c start_dt end_dt debug include_invalid block_time_map).

Lemma collect_record_state st i :
  (body st i).2
  = (st.1 ++ option_list (in_range_entry i),
     st.2 ++ (if include_invalid then option_list (invalid_entry i) else [])).
Proof.
  destruct st as [records invalid_records].
  unfold collect_record, in_range_entry, invalid_entry.
  destruct (getRecord c i) as [e|raw]; cbn.
  { destruct include_invalid; by rewrite !app_nil_r. }
  destruct raw as [|name [|timestamp_str [|hash_value [|x raw]]]]; cbn;
    try (destruct include_invalid; cbn; by rewrite ?app_nil_r).
  destruct (resolved_time block_time_map i timestamp_str) as [rec_dt|]; cbn.
  - destruct (leb start_dt rec_dt && leb rec_dt end_dt); cbn;
      destruct include_invalid; by rewrite ?app_nil_r.
  - destruct include_invalid; cbn; by rewrite ?app_nil_r.
Qed.

Lemma for_each_collect_state idx st :
  (for_each body idx st).2
  = (st.1 ++ omap in_range_entry idx,
     st.2 ++ (if include_invalid then omap invalid_entry idx else [])).
Proof.
  revert st. induction idx as [|i idx IH]; intros st; cbn.
  { destruct st. cbn. destruct include_invalid; by rewrite !app_nil_r. }
  pose proof (collect_record_state st i) as Hst.
  destruct (body st i) as [t1 s1]. specialize (IH s1).
  destruct (for_each body idx s1) as [t2 s2]. cbn in *. rewrite IH, Hst. cbn.
  f_equal.
  - rewrite <- app_assoc. f_equal. by destruct (in_range_entry i).
  - rewrite <- app_assoc. f_equal. destruct include_invalid; [|done].
    by destruct (invalid_entry i).
Qed.

(** Every index of the loop is fetched, whatever happened before it. *)
Lemma collect_record_calls st i : Call (GetRecord i) ∈ (body st i).1.
Proof.
  destruct st as [records invalid_records]. unfold collect_record.
  destruct (getRecord c i) as [e|raw]; cbn; [set_solver|].
  destruct raw as [|name [|timestamp_str [|hash_value [|x raw]]]]; cbn;
    try set_solver.
  destruct (resolved_time block_time_map i timestamp_str) as [rec_dt|]; cbn;
    [|set_solver].
  destruct (leb start_dt rec_dt && leb rec_dt end_dt); set_solver.
Qed.

Lemma collect_record_reports st i e :
  getRecord c i = Raised e -> Print (ErrorFetchingRecord i e) ∈ (body st i).1.
Proof.
  intros He. destruct st as [records invalid_records]. unfold collect_record.
  rewrite He. cbn. set_solver.
Qed.

(** What an iteration always prints or calls is in the trace of the loop. *)
Lemma for_each_trace_elem (ev : event) idx st i :
  i ∈ idx -> (forall st', ev ∈ (body st' i).1) -> ev ∈ (for_each body idx st).1.
Proof.
  intros Hi Hev. revert st. induction idx as [|j idx IH]; intros st;
    [by apply elem_of_nil in Hi|].
  cbn. specialize (Hev st) as Hst.
  destruct (body st j) as [t1 s1] eqn:Hb.
  destruct (for_each body idx s1) as [t2 s2] eqn:Hf. cbn.
  apply elem_of_app. apply elem_of_cons in Hi as [-> | Hi].
  - left. by rewrite Hb in Hst.
  - right. specialize (IH Hi s1). by rewrite Hf in IH.
Qed.

Lemma in_range_entry_index i r : in_range_entry i = Some r -> e_index r = i.
Proof.
  unfold in_range_entry. destruct (getRecord c i) as [e|raw]; [done|].
  destruct raw as [|name [|timestamp_str [|hash_value [|x raw]]]]; try done.
  destruct (resolved_time _ _ _); [|done].
  destruct (_ && _); [|done]. by intros [= <-].
Qed.

Lemma invalid_entry_index i r : invalid_entry i = Some r -> e_index r = i.
Proof.
  unfold invalid_entry. destruct (getRecord c i) as [e|raw]; [done|].
  destruct raw as [|name [|timestamp_str [|hash_value [|x raw]]]];
    try by intros [= <-].
  destruct (resolved_time _ _ _); [done|]. by intros [= <-].
Qed.

(** The result of [collect_records] when the count can be read. *)
Lemma collect_records_value total :
  totalRecords c = Value total ->
  exists t,
    collect_records c start_dt end_dt debug include_invalid block_time_map
    = (Call TotalRecords :: t,
       inr (omap in_range_entry (seq 0 total),
            if include_invalid then omap invalid_entry (seq 0 total) else []))
    /\ t = (for_each body (seq 0 total) ([], [])).1.
Proof.
  intros Ht. unfold collect_records, node_call, mbind, io_mbind, io_bind.
  rewrite Ht.
  pose proof (for_each_collect_state (seq 0 total) ([], [])) as Hst.
  destruct (for_each body (seq 0 total) ([], [])) as [t st]. cbn in Hst. subst st.
  exists t. done.
Qed.

End Collect.

(** [records] of a result of [collect_records], and [invalid_records]. *)
Definition records_of (r : io exn collected) : list entry :=
  match r.2 with
  | inr found => found.1
  | inl _ => []
  end.

Definition invalid_of (r : io exn collected) : list entry :=
  match r.2 with
  | inr found => found.2
  | inl _ => []
  end.

Lemma omap_seq_index_bounds (f : nat -> option entry) a n r :
  (forall i r, f i = Some r -> e_index r = i) ->
  r ∈ omap f (seq a n) -> (a <= e_index r < a + n)%nat.
Proof.
  intros Hf Hr. apply list_elem_of_omap in Hr as (i & Hi & Hfi).
  apply elem_of_seq in Hi. by rewrite (Hf _ _ Hfi).
Qed.

(** The entries kept by a scan come in ascending index order. *)
Lemma omap_seq_sorted (f : nat -> option entry) a n :
  (forall i r, f i = Some r -> e_index r = i) ->
  StronglySorted lt (e_index <$> omap f (seq a n)).
Proof.
  intros Hf. revert a. induction n as [|n IH]; intros a; [constructor|].
  cbn [seq omap list_omap]. destruct (f a) as [r|] eqn:Hfa; [|apply IH].
  rewrite fmap_cons. constructor; [apply IH|].
  apply Forall_forall. intros x Hx.
  apply list_elem_of_fmap in Hx as (r' & -> & Hr').
  apply (omap_seq_index_bounds f (S a) n r' Hf) in Hr'.
  rewrite (Hf _ _ Hfa). lia.
Qed.

(** *** Fixtures *)

Definition exactly (h m s : Z) : datetime := mkdatetime 2025 12 1 h m s 0.

(** Ten records, one a minute from 20:10:00 on; the fetch of index 5 raises. *)
Definition ten_records_fifth_fails : contract :=
  mkcontract
    (Value 10%nat)
    (fun i =>
       if (i =? 5)%nat then Raised (Exception "timeout")
       else Value ["student";
                   strftime (exactly 20 (10 + Z.of_nat i) 0);
                   "hash"])
    (fun _ => Raised (Exception "no input")).

(** Records at 20:18:59, 20:19:30 and 20:20:01. *)
Definition three_records : contract :=
  mkcontract
    (Value 3%nat)
    (fun i =>
       Value ["student";
              nth i ["2025-12-01 20:18:59"; "2025-12-01 20:19:30"; "2025-12-01 20:20:01"] "";
              "hash"])
    (fun _ => Raised (Exception "no input")).

(** One record whose timestamp text has no time in it. *)
Definition one_garbage_record : contract :=
  mkcontract (Value 1%nat) (fun _ => Value ["dana"; "garbage"; "hash"])
             (fun _ => Raised (Exception "no input")).

(** *** The claims on the scan *)

(** C2, as the specification states it, fails on the code: the second
    component of the result is [invalid_records], in which the failed
    fetch of index 5 leaves nothing, and the first holds the records of the
    window only, not every record that was fetched. *)
Lemma fetch_failure_is_in_no_returned_collection :
  getRecord ten_records_fifth_fails 5 = Raised (Exception "timeout")
  /\ (collect_records ten_records_fifth_fails (exactly 20 13 0) (exactly 20 17 0)
        false true None).2
     = inr ([entry_of 3 "student" "2025-12-01 20:13:00" "hash";
             entry_of 4 "student" "2025-12-01 20:14:00" "hash";
             entry_of 6 "student" "2025-12-01 20:16:00" "hash";
             entry_of 7 "student" "2025-12-01 20:17:00" "hash"],
            []).
Proof. split; vm_compute; reflexivity. Qed.

(** C2, amended.  A scan whose count can be read returns a pair
    [(records, invalid_records)].  It fetches every index below the count: a
    failure fetching index [i] does not end it; the failure is printed with
    [i] and leaves no entry for [i] in either collection.  [records] holds
    exactly the records fetched with three fields whose resolved time is in
    the window, in ascending index order. *)
Theorem scan_continues_past_fetch_failures
  (c : contract) (start_dt end_dt : datetime) (debug include_invalid : bool)
  (block_time_map : option (gmap nat datetime)) (total : nat) :
  totalRecords c = Value total ->
  exists t records invalid_records,
    collect_records c start_dt end_dt debug include_invalid block_time_map
    = (t, inr (records, invalid_records))
    /\ (forall i, (i < total)%nat -> Call (GetRecord i) ∈ t)
    /\ (forall i e, (i < total)%nat -> getRecord c i = Raised e ->
          Print (ErrorFetchingRecord i e) ∈ t
          /\ Forall (fun r => e_index r <> i) (records ++ invalid_records))
    /\ records = omap (in_range_entry c start_dt end_dt block_time_map) (seq 0 total)
    /\ StronglySorted lt (e_index <$> records).
Proof.
  intros Ht.
  destruct (collect_records_value c start_dt end_dt debug include_invalid
              block_time_map total Ht) as (t & Hc & Htr).
  eexists _, _, _. split; [exact Hc|].
  assert (forall i, (i < total)%nat -> i ∈ seq 0 total) as Hseq.
  { intros i Hi. apply elem_of_seq. lia. }
  repeat split.
  - intros i Hi. apply elem_of_cons. right. rewrite Htr.
    apply (for_each_trace_elem _ _ _ _ _ _ _ _ _ i (Hseq i Hi)).
    intros st'. apply collect_record_calls.
  - apply elem_of_cons. right. rewrite Htr.
    apply (for_each_trace_elem _ _ _ _ _ _ _ _ _ i (Hseq i H)).
    intros st'. by apply collect_record_reports.
  - apply Forall_app. split; apply Forall_forall; intros r Hr.
    + apply list_elem_of_omap in Hr as (j & _ & Hj).
      intros <-. apply in_range_entry_index in Hj as Hidx. rewrite Hidx in H0.
      unfold in_range_entry in Hj. by rewrite H0 in Hj.
    + destruct include_invalid; [|by apply elem_of_nil in Hr].
      apply list_elem_of_omap in Hr as (j & _ & Hj).
      intros <-. apply invalid_entry_index in Hj as Hidx. rewrite Hidx in H0.
      unfold invalid_entry in Hj. by rewrite H0 in Hj.
  - apply omap_seq_sorted. intros i r. apply in_range_entry_index.
Qed.

Lemma scan_continues_past_fetch_failures_witness :
  exists t records invalid_records,
    collect_records ten_records_fifth_fails (exactly 20 13 0) (exactly 20 17 0)
                    false true None
    = (t, inr (records, invalid_records))
    /\ (forall i, (i < 10)%nat -> Call (GetRecord i) ∈ t)
    /\ (forall i e, (i < 10)%nat -> getRecord ten_records_fifth_fails i = Raised e ->
          Print (ErrorFetchingRecord i e) ∈ t
          /\ Forall (fun r => e_index r <> i) (records ++ invalid_records))
    /\ records = omap (in_range_entry ten_records_fifth_fails (exactly 20 13 0)
                                      (exactly 20 17 0) None) (seq 0 10)
    /\ StronglySorted lt (e_index <$> records).
Proof.
  apply (scan_continues_past_fetch_failures ten_records_fifth_fails
           (exactly 20 13 0) (exactly 20 17 0) false true None 10).
  reflexivity.
Defined.

Lemma in_range_entry_fetched c start_dt end_dt block_time_map i name ts h rec_dt :
  getRecord c i = Value [name; ts; h] ->
  resolved_time block_time_map i ts = Some rec_dt ->
  in_range_entry c start_dt end_dt block_time_map i
  = if leb start_dt rec_dt && leb rec_dt end_dt
    then Some (entry_of i name ts h) else None.
Proof. intros Hr Ht. unfold in_range_entry. by rewrite Hr, Ht. Qed.

(** C7.  A fetched record with a resolved time is in the result of the
    range filter exactly when [start <= resolved time] and
    [resolved time <= end]; so a record whose resolved time is [start], or
    is [end], is in the result.  On the fixture with records at 20:18:59,
    20:19:30 and 20:20:01 and the window 20:19:00 to 20:20:00, the result
    is the single record at 20:19:30. *)
Theorem range_filter_is_inclusive :
  (forall (c : contract) (start_dt end_dt : datetime) (debug include_invalid : bool)
          (block_time_map : option (gmap nat datetime)) (total i : nat)
          (name timestamp_str hash_value : string) (rec_dt : datetime),
      totalRecords c = Value total ->
      (i < total)%nat ->
      getRecord c i = Value [name; timestamp_str; hash_value] ->
      resolved_time block_time_map i timestamp_str = Some rec_dt ->
      let records :=
        records_of (collect_records c start_dt end_dt debug include_invalid
                                    block_time_map) in
      let r := entry_of i name timestamp_str hash_value in
      (r ∈ records <-> leb start_dt rec_dt = true /\ leb rec_dt end_dt = true)
      /\ (rec_dt = start_dt -> leb start_dt end_dt = true -> r ∈ records)
      /\ (rec_dt = end_dt -> leb start_dt end_dt = true -> r ∈ records))
  /\ records_of (collect_records three_records (exactly 20 19 0) (exactly 20 20 0)
                                 false false None)
     = [entry_of 1 "student" "2025-12-01 20:19:30" "hash"].
Proof.
  split; [|by vm_compute].
  intros c start_dt end_dt debug include_invalid block_time_map total i
         name ts h rec_dt Ht Hi Hrec Hres records r.
  destruct (collect_records_value c start_dt end_dt debug include_invalid
              block_time_map total Ht) as (t & Hc & _).
  assert (records = omap (in_range_entry c start_dt end_dt block_time_map) (seq 0 total))
    as Hrecords.
  { unfold records, records_of. by rewrite Hc. }
  assert (r ∈ records <-> leb start_dt rec_dt = true /\ leb rec_dt end_dt = true) as Hiff.
  { rewrite Hrecords, list_elem_of_omap. split.
    - intros (j & _ & Hj). apply in_range_entry_index in Hj as Hidx. cbn in Hidx. subst j.
      rewrite (in_range_entry_fetched _ _ _ _ _ _ _ _ _ Hrec Hres) in Hj.
      destruct (leb start_dt rec_dt && leb rec_dt end_dt) eqn:Hw; [|done].
      by apply andb_true_iff in Hw.
    - intros [H1 H2]. exists i. split; [apply elem_of_seq; lia|].
      rewrite (in_range_entry_fetched _ _ _ _ _ _ _ _ _ Hrec Hres).
      by rewrite H1, H2. }
  split; [exact Hiff|]. split.
  - intros -> Hle. apply Hiff. split; [apply leb_refl | exact Hle].
  - intros -> Hle. apply Hiff. split; [exact Hle | apply leb_refl].
Qed.

Lemma range_filter_is_inclusive_witness :
  let records :=
    records_of (collect_records three_records (exactly 20 19 30) (exactly 20 20 0)
                                false false None) in
  let r := entry_of 1 "student" "2025-12-01 20:19:30" "hash" in
  (r ∈ records <->
     leb (exactly 20 19 30) (exactly 20 19 30) = true
     /\ leb (exactly 20 19 30) (exactly 20 20 0) = true)
  /\ (exactly 20 19 30 = exactly 20 19 30 ->
      leb (exactly 20 19 30) (exactly 20 20 0) = true -> r ∈ records)
  /\ (exactly 20 19 30 = exactly 20 20 0 ->
      leb (exactly 20 19 30) (exactly 20 20 0) = true -> r ∈ records).
Proof.
  apply (proj1 range_filter_is_inclusive three_records (exactly 20 19 30)
           (exactly 20 20 0) false false None 3%nat 1%nat
           "student" "2025-12-01 20:19:30" "hash" (exactly 20 19 30)).
  - reflexivity.
  - lia.
  - reflexivity.
  - vm_compute. reflexivity.
Defined.

(** *** Records without a resolvable time *)

(** C8 on the code.  A record whose time cannot be resolved is never in
    the in-range result.  It is in [invalid_records] only when
    [include_invalid] is set: without the flag the collection returned is
    empty, as on the fixture with the one record ["garbage"], and the note
    of [main] that counts the invalid records and names the flag is a line
    no run prints. *)
Theorem unresolvable_record_is_dropped_without_the_flag :
  collect_records one_garbage_record (exactly 0 0 0) (exactly 23 59 59)
                  false false None
  = ([Call TotalRecords; Call (GetRecord 0); Print (SkippingRecord 0 "garbage")],
     inr ([], []))
  /\ invalid_of (collect_records one_garbage_record (exactly 0 0 0) (exactly 23 59 59)
                                 false true None)
     = [entry_of 0 "dana" "garbage" "hash"]
  /\ (forall c start_dt end_dt debug block_time_map,
        invalid_of (collect_records c start_dt end_dt debug false block_time_map) = [])
  /\ (forall c start_dt end_dt debug include_invalid block_time_map,
        Forall (fun r => forall timestamp_str,
                           e_timestamp r = Some timestamp_str ->
                           resolved_time block_time_map (e_index r) timestamp_str <> None)
               (records_of (collect_records c start_dt end_dt debug include_invalid
                                            block_time_map)))
  /\ (forall a w start_dt end_dt block_time_map n,
        Print (NoteUseIncludeInvalid n)
        ∉ report a start_dt end_dt block_time_map
            (records_of (collect_records (deployed w) start_dt end_dt (debug a)
                                         (include_invalid a) block_time_map),
             invalid_of (collect_records (deployed w) start_dt end_dt (debug a)
                                         (include_invalid a) block_time_map))).
Proof.
  assert (forall c start_dt end_dt debug block_time_map,
            invalid_of (collect_records c start_dt end_dt debug false block_time_map) = [])
    as Hempty.
  { intros c start_dt end_dt debug block_time_map.
    destruct (totalRecords c) as [e|total] eqn:Ht.
    - unfold invalid_of, collect_records, node_call, mbind, io_mbind, io_bind.
      by rewrite Ht.
    - destruct (collect_records_value c start_dt end_dt debug false
                  block_time_map total Ht) as (t & Hc & _).
      unfold invalid_of. by rewrite Hc. }
  split; [by vm_compute|]. split; [by vm_compute|]. split; [exact Hempty|]. split.
  - intros c start_dt end_dt debug include_invalid block_time_map.
    destruct (totalRecords c) as [e|total] eqn:Ht.
    + unfold records_of, collect_records, node_call, mbind, io_mbind, io_bind.
      rewrite Ht. constructor.
    + destruct (collect_records_value c start_dt end_dt debug include_invalid
                  block_time_map total Ht) as (t & Hc & _).
      unfold records_of. rewrite Hc. cbn [snd fst].
      apply Forall_forall. intros r Hr ts Hts.
      apply list_elem_of_omap in Hr as (i & _ & Hi).
      unfold in_range_entry in Hi.
      destruct (getRecord c i) as [e|raw]; [done|].
      destruct raw as [|name [|ts' [|h [|x raw]]]]; try done.
      destruct (resolved_time block_time_map i ts') as [rec_dt|] eqn:Hres; [|done].
      destruct (_ && _); [|done]. injection Hi as <-. cbn in Hts. injection Hts as <-.
      cbn. by rewrite Hres.
  - intros a w start_dt end_dt block_time_map n.
    unfold report. destruct (include_invalid a) eqn:Hflag.
    + destruct (records_of _) as [|r rs]; destruct (invalid_of _) as [|v vs];
        rewrite ?elem_of_app, ?elem_of_cons, ?list_elem_of_fmap, ?elem_of_nil;
        intros H; decompose [or and ex] H; try discriminate; done.
    + rewrite Hempty. destruct (records_of _) as [|r rs];
        rewrite ?elem_of_app, ?elem_of_cons, ?list_elem_of_fmap, ?elem_of_nil;
        intros H; decompose [or and ex] H; try discriminate; done.
Qed.

(** *** The window of a query *)

Lemma make_datetime_Some y m d H M S x :
  make_datetime y m d H M S = Some x ->
  x = mkdatetime y m d H M S 0
  /\ make_datetime y m d 0 0 0 = Some (mkdatetime y m d 0 0 0 0)
  /\ make_datetime y m d 23 59 59 = Some (mkdatetime y m d 23 59 59 0).
Proof.
  unfold make_datetime.
  destruct ((1 <=? y) && (y <=? 9999) && (1 <=? m) && (m <=? 12)
            && (1 <=? d) && (d <=? days_in_month y m)) eqn:Hdate;
    cbn [andb]; [|done].
  destruct ((0 <=? H) && (H <=? 23) && (0 <=? M) && (M <=? 59)
            && (0 <=? S) && (S <=? 59)); [|done].
  by intros [= <-].
Qed.

(** The groups of a format, in its order. *)
Fixpoint group_fields (fmt : list item) : list field :=
  match fmt with
  | [] => []
  | Group f _ :: fmt' => f :: group_fields fmt'
  | Sep _ :: fmt' => group_fields fmt'
  end.

Lemma fmatch_fields fmt s caps rest :
  In (caps, rest) (fmatch fmt s) -> map fst caps = group_fields fmt.
Proof.
  revert s caps. induction fmt as [|[f r|r] fmt IH]; intros s caps; cbn [fmatch group_fields].
  - intros [[= <- _]|[]]. done.
  - rewrite in_concat. intros (l & Hl & Hin).
    apply in_map_iff in Hl as (rest0 & <- & _).
    apply in_map_iff in Hin as ([caps' out] & [= <- <-] & Hin).
    cbn. f_equal. by eapply IH.
  - rewrite in_concat. intros (l & Hl & Hin).
    apply in_map_iff in Hl as (rest0 & <- & _). by eapply IH.
Qed.

(** A text parsed with ["%Y-%m-%d"] is a day at 00:00:00. *)
Lemma strptime_date_midnight txt day_dt :
  strptime txt DATE_FORMAT = Some day_dt ->
  let y := year day_dt in
  let m := month day_dt in
  let d := day day_dt in
  day_dt = mkdatetime y m d 0 0 0 0
  /\ make_datetime y m d 0 0 0 = Some (mkdatetime y m d 0 0 0 0)
  /\ make_datetime y m d 23 59 59 = Some (mkdatetime y m d 23 59 59 0).
Proof.
  unfold strptime, strptime_chars.
  destruct (fmatch DATE_FORMAT (Unicode.code_points txt)) as [|[caps rest] l] eqn:Hf;
    [done|].
  destruct rest; [|done].
  assert (map fst caps = [FY; Fm; Fd]) as Hfields.
  { apply (fmatch_fields DATE_FORMAT (Unicode.code_points txt) caps []).
    rewrite Hf. by left. }
  destruct caps as [|[f1 a] [|[f2 b] [|[f3 c] [|? ?]]]]; try discriminate.
  injection Hfields as -> -> ->.
  unfold group_int. cbn [capture field_eqb].
  destruct (py_int a) as [y|]; [|done].
  destruct (py_int b) as [m|]; [|done].
  destruct (py_int c) as [d|]; [|done].
  cbn [mbind option_bind]. intros Hmk.
  apply make_datetime_Some in Hmk as (-> & H0 & H23). cbn. done.
Qed.

(** Every character class of [r] is within [P]. *)
Fixpoint classes_within (P : Z -> Prop) (r : Re.re) : Prop :=
  match r with
  | Re.Eps => True
  | Re.Cls p | Re.PlusCls p => forall c, p c = true -> P c
  | Re.Cat r1 r2 | Re.Alt r1 r2 => classes_within P r1 /\ classes_within P r2
  end.

Definition item_re (it : item) : Re.re :=
  match it with
  | Group _ r => r
  | Sep r => r
  end.

Lemma plus_cls_consumed (P : Z -> Prop) p s rest :
  (forall c, p c = true -> P c) ->
  In rest (Re.plus_cls p s) -> exists pre, s = pre ++ rest /\ Forall P pre.
Proof.
  intros Hp. induction s as [|c s IH]; cbn; [done|].
  destruct (p c) eqn:Hc; [|done]. rewrite in_app_iff. intros [Hin | [<- | []]].
  - destruct (IH Hin) as (pre & -> & Hpre). exists (c :: pre). split; [done|].
    constructor; [by apply Hp | done].
  - exists [c]. split; [done|]. constructor; [by apply Hp | constructor].
Qed.

(** What a match consumes is a prefix of the text, made of characters of
    the classes of the expression. *)
Lemma rmatch_consumed (P : Z -> Prop) r s rest :
  classes_within P r ->
  In rest (Re.rmatch r s) -> exists pre, s = pre ++ rest /\ Forall P pre.
Proof.
  revert s rest. induction r as [|p|r1 IH1 r2 IH2|r1 IH1 r2 IH2|p];
    intros s rest Hr; cbn [Re.rmatch].
  - intros [<- | []]. exists []. split; [done | constructor].
  - destruct s as [|c s]; [done|]. destruct (p c) eqn:Hc; [|done].
    intros [<- | []]. exists [c]. split; [done|].
    constructor; [by apply Hr | constructor].
  - destruct Hr as [Hr1 Hr2]. rewrite in_concat. intros (l & Hl & Hin).
    apply in_map_iff in Hl as (mid & <- & Hmid).
    destruct (IH1 _ _ Hr1 Hmid) as (pre1 & -> & Hpre1).
    destruct (IH2 _ _ Hr2 Hin) as (pre2 & -> & Hpre2).
    exists (pre1 ++ pre2). split; [by rewrite app_assoc | by apply Forall_app].
  - destruct Hr as [Hr1 Hr2]. rewrite in_app_iff. intros [Hin | Hin];
      [by apply IH1 | by apply IH2].
  - by apply plus_cls_consumed.
Qed.

Lemma fmatch_consumed (P : Z -> Prop) fmt s caps rest :
  Forall (fun it => classes_within P (item_re it)) fmt ->
  In (caps, rest) (fmatch fmt s) -> exists pre, s = pre ++ rest /\ Forall P pre.
Proof.
  intros Hfmt. revert s caps.
  induction Hfmt as [|it fmt Hit _ IH]; intros s caps; cbn [fmatch].
  - intros [[= _ <-] | []]. exists []. split; [done | constructor].
  - assert (forall mid caps', In mid (Re.rmatch (item_re it) s) ->
              In (caps', rest) (fmatch fmt mid) ->
              exists pre, s = pre ++ rest /\ Forall P pre) as Hstep.
    { intros mid caps' Hmid Hin.
      destruct (rmatch_consumed P _ _ _ Hit Hmid) as (pre1 & -> & Hpre1).
      destruct (IH _ _ Hin) as (pre2 & -> & Hpre2).
      exists (pre1 ++ pre2). split; [by rewrite app_assoc | by apply Forall_app]. }
    destruct it as [f r|r]; rewrite in_concat; intros (l & Hl & Hin);
      apply in_map_iff in Hl as (mid & <- & Hmid).
    + apply in_map_iff in Hin as ([caps' out] & [= _ <-] & Hin). by eapply Hstep.
    + by eapply Hstep.
Qed.

Lemma classes_within_True r : classes_within (fun _ => True) r.
Proof. induction r; cbn; auto. Qed.

(** A format with the separator [x] matches only texts that have [x]. *)
Lemma fmatch_separator x fmt1 fmt2 s caps rest :
  In (caps, rest) (fmatch (fmt1 ++ Sep (Re.chr x) :: fmt2) s) -> In (Unicode.ord x) s.
Proof.
  revert s caps. induction fmt1 as [|it fmt1 IH]; intros s caps.
  - cbn [app fmatch]. rewrite in_concat. intros (l & Hl & _).
    apply in_map_iff in Hl as (mid & _ & Hmid). cbn [Re.rmatch Re.chr] in Hmid.
    destruct s as [|c s]; [done|]. unfold Re.is_char in Hmid.
    destruct (Z.eqb_spec (Unicode.ord x) c) as [->|]; [by left | done].
  - assert (forall mid caps', In mid (Re.rmatch (item_re it) s) ->
              In (caps', rest) (fmatch (fmt1 ++ Sep (Re.chr x) :: fmt2) mid) ->
              In (Unicode.ord x) s) as Hstep.
    { intros mid caps' Hmid Hin.
      destruct (rmatch_consumed _ _ _ _ (classes_within_True _) Hmid) as (pre & -> & _).
      apply in_app_iff. right. by eapply IH. }
    cbn [app fmatch].
    destruct it as [f r|r]; rewrite in_concat; intros (l & Hl & Hin);
      apply in_map_iff in Hl as (mid & <- & Hmid).
    + apply in_map_iff in Hin as ([caps' out] & [= _ <-] & Hin). by eapply Hstep.
    + by eapply Hstep.
Qed.

(** A text that is a date is not a date and time: it has no colon. *)
Lemma date_is_not_datetime txt day_dt :
  strptime txt DATE_FORMAT = Some day_dt -> strptime txt DATETIME_FORMAT = None.
Proof.
  unfold strptime, strptime_chars. set (s := Unicode.code_points txt).
  destruct (fmatch DATE_FORMAT s) as [|[caps rest] l] eqn:Hdate; [done|].
  destruct rest; [|done]. intros _.
  assert (~ In (Unicode.ord ":") s) as Hcolon.
  { destruct (fmatch_consumed (fun c => c <> Unicode.ord ":") DATE_FORMAT s caps [])
      as (pre & Hs & Hpre).
    - repeat constructor; cbn [item_re classes_within re_Y re_m re_d Re.dig Re.chr Re.rng];
        repeat split; intros c Hc ->; discriminate Hc.
    - rewrite Hdate. by left.
    - rewrite app_nil_r in Hs. subst pre. intros Hin.
      rewrite Forall_forall in Hpre. apply list_elem_of_In in Hin.
      by apply (Hpre _ Hin). }
  destruct (fmatch DATETIME_FORMAT s) as [|[caps' rest'] l'] eqn:Hdt; [done|].
  exfalso. apply Hcolon.
  apply (fmatch_separator ":"%char
           (DATE_FORMAT ++ [Sep (Re.PlusCls Re.is_space); Group FH re_H])
           [Group FM re_M; Sep (Re.chr ":"); Group FS re_S] s caps' rest').
  change (In (caps', rest') (fmatch DATETIME_FORMAT s)). rewrite Hdt. by left.
Qed.

Lemma truthy_of_date txt day_dt :
  strptime txt DATE_FORMAT = Some day_dt -> truthy (Some txt) = true.
Proof.
  intros H. cbn. destruct (String.eqb_spec txt ""); [|done].
  subst txt. by vm_compute in H.
Qed.

(** The window [--start D --end D] of a day [D]: one instant. *)
Definition same_day_bounds : args :=
  mkargs (Some "2025-12-01") (Some "2025-12-01") None "0xF00F" false false false 0 Latest.

(** C3, as the specification states it, fails on the code: a date-only
    value given as the end bound becomes that day at 00:00:00, as the start
    bound does, and not that day at 23:59:59. *)
Lemma date_only_end_bound_is_midnight :
  time_window same_day_bounds (exactly 12 0 0)
  = ([], inr (mkdatetime 2025 12 1 0 0 0 0, mkdatetime 2025 12 1 0 0 0 0)).
Proof. vm_compute. reflexivity. Qed.

(** C3, amended.  A date-only value given with [--date] expands to that
    calendar day's window, from 00:00:00 to 23:59:59.  A date-only value
    given as [--start] or as [--end] becomes that day at 00:00:00, for
    either bound. *)
Theorem date_only_value_expands_with_date_option
  (txt : string) (day_dt : datetime) :
  strptime txt DATE_FORMAT = Some day_dt ->
  let midnight := mkdatetime (year day_dt) (month day_dt) (day day_dt) 0 0 0 0 in
  let last_second := mkdatetime (year day_dt) (month day_dt) (day day_dt) 23 59 59 0 in
  (forall a now,
      date a = Some txt -> truthy (start a) = false -> truthy (end_ a) = false ->
      time_window a now = ([], inr (midnight, last_second)))
  /\ parse_time txt = Some midnight
  /\ (forall a now,
        truthy (date a) = false -> start a = Some txt -> end_ a = Some txt ->
        time_window a now = ([], inr (midnight, midnight))).
Proof.
  intros Hdate midnight last_second.
  pose proof (date_is_not_datetime txt day_dt Hdate) as Hnot.
  destruct (strptime_date_midnight txt day_dt Hdate) as (Hday & H0 & H23).
  pose proof (truthy_of_date txt day_dt Hdate) as Htxt.
  assert (parse_time txt = Some midnight) as Hparse.
  { unfold parse_time. rewrite Hnot, Hdate. by rewrite Hday at 1. }
  split; [|split; [exact Hparse|]].
  - intros a now Ha Hs He. unfold time_window.
    rewrite Ha, Htxt, Hs, He. cbn [orb default from_option id].
    rewrite Hdate, H0, H23. done.
  - intros a now Ha Hs He. unfold time_window.
    rewrite Ha, Hs, He, Htxt. cbn [negb default from_option id]. by rewrite Hparse.
Qed.

Lemma date_only_value_expands_with_date_option_witness :
  let midnight := mkdatetime 2025 12 1 0 0 0 0 in
  let last_second := mkdatetime 2025 12 1 23 59 59 0 in
  (forall a now,
      date a = Some "2025-12-01" -> truthy (start a) = false -> truthy (end_ a) = false ->
      time_window a now = ([], inr (midnight, last_second)))
  /\ parse_time "2025-12-01" = Some midnight
  /\ (forall a now,
        truthy (date a) = false -> start a = Some "2025-12-01" ->
        end_ a = Some "2025-12-01" ->
        time_window a now = ([], inr (midnight, midnight))).
Proof.
  apply (date_only_value_expands_with_date_option
           "2025-12-01" (mkdatetime 2025 12 1 0 0 0 0)).
  vm_compute. reflexivity.
Defined.

Lemma time_window_trace a now : (time_window a now).1 = [].
Proof.
  unfold time_window.
  destruct (truthy (date a)).
  - destruct (truthy (start a) || truthy (end_ a)); [done|].
    destruct (strptime _ DATE_FORMAT) as [day_dt|]; [|done].
    destruct (make_datetime _ _ _ 0 0 0); [|done].
    by destruct (make_datetime _ _ _ 23 59 59).
  - destruct (negb (truthy (start a))); [done|].
    destruct (parse_time (default "" (start a))); [|done].
    destruct (truthy (end_ a)); [|done].
    by destruct (parse_time (default "" (end_ a))).
Qed.

(** A query for 20:20:00 to 20:19:00. *)
Definition inverted_bounds : args :=
  mkargs (Some "2025-12-01 20:20:00") (Some "2025-12-01 20:19:00") None "0xF00F"
         false false false 0 Latest.

Definition reachable_node : world :=
  mkworld (exactly 12 0 0) (fun _ => exactly 0 0 0) (Value tt) Value (Value tt)
          (mkweb3 true (Value 1337) (Value "0x6080") (Value 0)
                  (fun _ => Value (mkblock 0 [])))
          three_records.

(** C10.  When the end instant of the window is strictly earlier than the
    start instant, the run ends with the argument error
    ["--end cannot be earlier than --start"] and an empty trace: no call
    to the node was made.  So a run that makes any call to the node has a
    window with [start <= end]. *)
Theorem inverted_window_is_rejected_before_any_call :
  (forall (a : args) (w : world) (start_dt end_dt : datetime),
      (time_window a (now w)).2 = inr (start_dt, end_dt) ->
      ltb end_dt start_dt = true ->
      main a w = ([], ParserError "--end cannot be earlier than --start"))
  /\ (forall (a : args) (w : world) (c : call),
        Call c ∈ (main a w).1 ->
        exists start_dt end_dt,
          (time_window a (now w)).2 = inr (start_dt, end_dt)
          /\ leb start_dt end_dt = true).
Proof.
  split.
  - intros a w start_dt end_dt Hw Hlt.
    pose proof (time_window_trace a (now w)) as Ht.
    unfold main, main_io, mbind, io_mbind, io_bind.
    destruct (time_window a (now w)) as [t [x|[s e]]]; cbn in Hw, Ht; [done|].
    injection Hw as -> ->. subst t. rewrite Hlt. reflexivity.
  - intros a w c.
    pose proof (time_window_trace a (now w)) as Ht.
    unfold main, main_io, mbind, io_mbind, io_bind.
    destruct (time_window a (now w)) as [t [x|[s e]]]; cbn in Ht; subst t.
    { cbn. intros H. by apply elem_of_nil in H. }
    destruct (ltb e s) eqn:Hlt.
    { cbn. intros H. by apply elem_of_nil in H. }
    intros _. exists s, e. split; [done|].
    rewrite ltb_negb_leb in Hlt. by destruct (leb s e).
Qed.

Lemma inverted_window_is_rejected_before_any_call_witness :
  main inverted_bounds reachable_node
  = ([], ParserError "--end cannot be earlier than --start").
Proof.
  apply (proj1 inverted_window_is_rejected_before_any_call inverted_bounds
           reachable_node (exactly 20 20 0) (exactly 20 19 0)).
  - vm_compute. reflexivity.
  - vm_compute. reflexivity.
Defined.

(** *** The block-time mapping *)

Section Scan.

Context (w : world) (checksum_address : string).

(** The scan keeps [tx]. *)
Definition kept (tx : transaction) : bool :=
  match is_log_attendance w checksum_address tx with
  | Value true => true
  | _ => false
  end.

(** The test of [tx] does not raise. *)
Definition decided (tx : transaction) : Prop :=
  exists keep, is_log_attendance w checksum_address tx = Value keep.

Definition block_at (b : Z) : block :=
  match get_block (w3 w) b with
  | Value blk => blk
  | Raised _ => mkblock 0 []
  end.

(** The positions, counted from [j], of the transactions kept. *)
Fixpoint kept_positions (j : nat) (txs : list transaction) : list nat :=
  match txs with
  | [] => []
  | tx :: txs' =>
      if kept tx then j :: kept_positions (S j) txs' else kept_positions (S j) txs'
  end.

(** The surviving transactions of the blocks, each as the number of its
    block and its position in the block, block after block. *)
Definition survivors (blocks : list Z) : list (Z * nat) :=
  b ← blocks; pair b <$> kept_positions 0 (transactions (block_at b)).

(** The confirmation time of the block of a surviving transaction. *)
Definition time_of (p : Z * nat) : datetime :=
  fromtimestamp w (timestamp (block_at p.1)).

(** Scan order: by block number, then by position in the block. *)
Definition scan_order (p q : Z * nat) : Prop :=
  p.1 < q.1 \/ (p.1 = q.1 /\ (p.2 < q.2)%nat).

(** The state of the scan after the survivors [found]: the map sends [k] to
    the time of the [k]-th of them, and [current_index] is their number. *)
Definition represents (st : scan_state) (found : list (Z * nat)) : Prop :=
  st.1 = map_seq 0 (time_of <$> found) /\ st.2 = length found.

Lemma represents_snoc m k found p :
  represents (m, k) found ->
  represents (<[k := time_of p]> m, S k) (found ++ [p]).
Proof.
  intros [Hm Hk]. cbn in *. subst m k. split; cbn.
  - rewrite fmap_app. cbn. rewrite map_seq_snoc. by rewrite length_fmap.
  - rewrite length_app. cbn. lia.
Qed.

Lemma for_each_io_cons {E S I} (body : S -> I -> io E S) i idx s :
  for_each_io body (i :: idx) s
  = io_bind (body s i) (fun s1 => for_each_io body idx s1).
Proof. reflexivity. Qed.

Lemma scan_transaction_decided blk st tx keep :
  is_log_attendance w checksum_address tx = Value keep ->
  scan_transaction w checksum_address blk st tx
  = ([], inr (if keep
              then (<[st.2 := fromtimestamp w (timestamp blk)]> st.1, S st.2)
              else st)).
Proof. intros H. unfold scan_transaction. rewrite H. by destruct keep. Qed.

Lemma scan_transactions_ok b txs j st found :
  Forall decided txs ->
  represents st found ->
  exists st',
    for_each_io (scan_transaction w checksum_address (block_at b)) txs st
    = ([], inr st')
    /\ represents st' (found ++ (pair b <$> kept_positions j txs)).
Proof.
  intros Hdec. revert j st found.
  induction Hdec as [|tx txs [keep Hkeep] _ IH]; intros j st found Hrep.
  - exists st. cbn. by rewrite app_nil_r.
  - rewrite for_each_io_cons, (scan_transaction_decided _ _ _ keep Hkeep).
    cbn [kept_positions]. unfold kept. rewrite Hkeep.
    destruct st as [m k]. destruct keep; unfold io_bind.
    + pose proof (represents_snoc m k found (b, j) Hrep) as Hrep'.
      destruct (IH (S j) _ _ Hrep') as (st' & Hrun & Hfin).
      exists st'. unfold time_of in Hrun. cbn [fst snd] in *. rewrite Hrun.
      split; [done|]. rewrite fmap_cons. by rewrite <- app_assoc in Hfin.
    + destruct (IH (S j) _ _ Hrep) as (st' & Hrun & Hfin).
      exists st'. rewrite Hrun. done.
Qed.

(** The blocks of [bs] can be read and no test of a transaction raises. *)
Definition readable (bs : list Z) : Prop :=
  forall b, b ∈ bs ->
    exists blk, get_block (w3 w) b = Value blk /\ Forall decided (transactions blk).

Lemma scan_blocks_loop bs st found :
  readable bs ->
  represents st found ->
  exists st',
    for_each_io (scan_block w checksum_address) bs st
    = ((fun b => Call (GetBlock b)) <$> bs, inr st')
    /\ represents st' (found ++ survivors bs).
Proof.
  revert st found. induction bs as [|b bs IH]; intros st found Hread Hrep.
  - exists st. cbn. by rewrite app_nil_r.
  - destruct (Hread b) as (blk & Hblk & Hdec); [set_solver|].
    assert (block_at b = blk) as Hat by (unfold block_at; by rewrite Hblk).
    rewrite <- Hat in Hdec.
    destruct (scan_transactions_ok b _ 0%nat st found Hdec Hrep) as (st1 & Hrun1 & Hrep1).
    destruct (IH st1 _ (fun b' Hb' => Hread b' ltac:(set_solver)) Hrep1)
      as (st' & Hrun & Hfin).
    exists st'. rewrite for_each_io_cons.
    assert (scan_block w checksum_address st b = ([Call (GetBlock b)], inr st1)) as ->.
    { unfold scan_block, node_call. rewrite Hblk.
      unfold mbind, io_mbind, io_bind. rewrite <- Hat, Hrun1. done. }
    unfold io_bind. rewrite Hrun. split; [done|].
    unfold survivors in *. cbn. by rewrite <- app_assoc in Hfin.
Qed.

Lemma size_map_seq {A} (xs : list A) start :
  size (map_seq start xs : gmap nat A) = length xs.
Proof.
  revert start. induction xs as [|x xs IH]; intros start; cbn.
  - apply map_size_empty.
  - rewrite map_size_insert_None; [by rewrite IH|].
    apply lookup_map_seq_None. lia.
Qed.

(** The positions kept are those of the transactions kept, in order. *)
Lemma elem_of_kept_positions j txs x :
  x ∈ kept_positions j txs
  <-> (j <= x)%nat /\ exists tx, txs !! (x - j)%nat = Some tx /\ kept tx = true.
Proof.
  revert j. induction txs as [|tx txs IH]; intros j; cbn.
  - split; [by intros H; apply elem_of_nil in H | by intros (_ & tx & ? & _)].
  - destruct (kept tx) eqn:Hk.
    + rewrite elem_of_cons, IH. split.
      * intros [-> | (Hle & tx' & Htx' & Hk')].
        -- split; [lia|]. exists tx. by rewrite Nat.sub_diag.
        -- split; [lia|]. exists tx'. split; [|done].
           by replace (x - j)%nat with (S (x - S j)) by lia.
      * intros (Hle & tx' & Htx' & Hk'). destruct (decide (x = j)) as [|Hne]; [by left|].
        right. split; [lia|]. exists tx'. split; [|done].
        by replace (x - j)%nat with (S (x - S j)) in Htx' by lia.
    + rewrite IH. split.
      * intros (Hle & tx' & Htx' & Hk'). split; [lia|]. exists tx'. split; [|done].
        by replace (x - j)%nat with (S (x - S j)) by lia.
      * intros (Hle & tx' & Htx' & Hk'). destruct (decide (x = j)) as [->|Hne].
        { rewrite Nat.sub_diag in Htx'. cbn in Htx'. congruence. }
        split; [lia|]. exists tx'. split; [|done].
        by replace (x - j)%nat with (S (x - S j)) in Htx' by lia.
Qed.

Lemma kept_positions_sorted j txs : StronglySorted lt (kept_positions j txs).
Proof.
  revert j. induction txs as [|tx txs IH]; intros j; cbn; [constructor|].
  destruct (kept tx); [|apply IH]. constructor; [apply IH|].
  apply Forall_forall. intros x Hx. apply elem_of_kept_positions in Hx. lia.
Qed.

Lemma elem_of_survivors bs b j :
  (b, j) ∈ survivors bs
  <-> b ∈ bs /\ exists tx, transactions (block_at b) !! j = Some tx /\ kept tx = true.
Proof.
  unfold survivors. rewrite list_elem_of_bind. split.
  - intros (b' & Hin & Hb'). apply list_elem_of_fmap in Hin as (j' & [= <- <-] & Hj).
    split; [done|]. apply elem_of_kept_positions in Hj as (_ & tx & Htx & Hk).
    exists tx. by rewrite Nat.sub_0_r in Htx.
  - intros (Hb & tx & Htx & Hk). exists b. split; [|done].
    apply list_elem_of_fmap. exists j. split; [done|].
    apply elem_of_kept_positions. split; [lia|]. exists tx. by rewrite Nat.sub_0_r.
Qed.

(** The survivors of ascending blocks are in scan order. *)
Lemma survivors_sorted bs :
  StronglySorted Z.lt bs -> StronglySorted scan_order (survivors bs).
Proof.
  induction 1 as [|b bs Hs IH Hall]; [constructor|].
  unfold survivors. cbn. apply StronglySorted_app_2.
  - intros [b1 j1] [b2 j2] H1 H2.
    apply list_elem_of_fmap in H1 as (j & [= -> ->] & _).
    apply elem_of_survivors in H2 as (Hb2 & _).
    rewrite Forall_forall in Hall. left. cbn. by apply Hall.
  - apply (StronglySorted_fmap _ lt); [|apply kept_positions_sorted].
    intros x y Hxy. right. cbn. done.
  - exact IH.
Qed.

Lemma seqZ_sorted m n : StronglySorted Z.lt (seqZ m n).
Proof.
  remember (Z.to_nat n) as k eqn:Hk. revert m n Hk.
  induction k as [|k IH]; intros m n Hk.
  - rewrite seqZ_nil by lia. constructor.
  - rewrite seqZ_cons by lia. constructor; [apply IH; lia|].
    apply Forall_seqZ. lia.
Qed.

End Scan.

(** A transaction is kept when it is addressed to the contract and its
    input decodes to a call of [logAttendance]. *)
Lemma is_log_attendance_true w checksum_address tx :
  is_log_attendance w checksum_address tx = Value true
  <-> exists recipient,
        to tx = Some recipient /\ recipient <> ""
        /\ to_checksum_address w recipient = Value checksum_address
        /\ decode_function_input (deployed w) (input tx) = Value "logAttendance".
Proof.
  unfold is_log_attendance. destruct (to tx) as [recipient|]; cbn.
  - destruct (String.eqb_spec recipient "") as [->|Hne]; cbn.
    { split; [done|]. by intros (r & [= <-] & ? & _). }
    destruct (to_checksum_address w recipient) as [e|address] eqn:Haddr.
    { split; [done|]. intros (r & [= <-] & _ & ? & _). congruence. }
    destruct (String.eqb_spec address checksum_address) as [->|Hother]; cbn.
    + destruct (decode_function_input (deployed w) (input tx)) as [e|fn_name] eqn:Hfn.
      { split; [done|]. by intros (r & _ & _ & _ & ?). }
      destruct (String.eqb_spec fn_name "logAttendance") as [->|Hfn'].
      * split; [|done]. intros _. by exists recipient.
      * split; [by intros [=]|]. intros (r & _ & _ & _ & [=]). done.
    + split; [done|]. intros (r & [= <-] & _ & ? & _). congruence.
  - split; [done|]. by intros (r & ? & _).
Qed.

(** Blocks 10 to 12: two calls of [logAttendance] to the contract ["0xC"]
    in block 10, with a transaction to another contract between them; a
    call of another function in block 11; a contract creation and a call
    of [logAttendance] in block 12. *)
Definition three_blocks (b : Z) : result block :=
  if b =? 10 then
    Value (mkblock 1140 [mktransaction (Some "0xC") "log";
                         mktransaction (Some "0xD") "log";
                         mktransaction (Some "0xC") "log"])
  else if b =? 11 then
    Value (mkblock 1170 [mktransaction (Some "0xC") "count"])
  else if b =? 12 then
    Value (mkblock 1200 [mktransaction None "log"; mktransaction (Some "0xC") "log"])
  else Raised (Exception "block not found").

Definition chain_of_three_blocks : world :=
  mkworld (exactly 21 0 0)
          (fun seconds => exactly 20 (seconds `div` 60) (seconds `mod` 60))
          (Value tt) Value (Value tt)
          (mkweb3 true (Value 1337) (Value "0x6080") (Value 12) three_blocks)
          (mkcontract (Value 3%nat) (getRecord three_records)
             (fun input =>
                if String.eqb input "log" then Value "logAttendance"
                else if String.eqb input "count" then Value "totalRecords"
                else Raised (Exception "unknown selector"))).

Definition scan_from_ten : args :=
  mkargs None None (Some "2025-12-01") "0xC" false false true 10 Latest.

(** What the mapping [main] gets has at the keys [ks]. *)
Definition times_at (r : io exit (option (gmap nat datetime))) (ks : list nat)
  : option (list (option datetime)) :=
  match r.2 with
  | inr (Some m) => Some ((fun k => m !! k) <$> ks)
  | _ => None
  end.

(** C5.  Over a block range whose blocks can be read, the scan fetches the
    blocks in ascending order and takes the transactions of a block in the
    block's order; it keeps the transactions addressed to the contract
    whose input decodes to a call of [logAttendance]; and the mapping it
    builds sends [k], counted from 0, to the confirmation time of the block
    of the [k]-th transaction kept in that order.  On blocks 10 to 12 with
    the kept transactions at positions 0 and 2 of block 10 and 1 of block
    12, the keys 0 and 1 get the time of block 10 and the key 2 the time of
    block 12. *)
Theorem block_times_follow_scan_order :
  (forall (a : args) (w : world) (checksum_address : string) (last : Z),
      to_block a = Number last
      \/ (to_block a = Latest /\ block_number (w3 w) = Value last) ->
      let blocks := seqZ (from_block a) (last + 1 - from_block a) in
      readable w checksum_address blocks ->
      let found := survivors w checksum_address blocks in
      exists t m,
        scan_blocks a w checksum_address = (t, inr m)
        /\ (exists before,
              t = before ++ ((fun b => Call (GetBlock b)) <$> blocks)
                    ++ [Print (FoundTransactions (length found))]
              /\ forall b, Call (GetBlock b) ∉ before)
        /\ (forall k : nat, m !! k = time_of w <$> found !! k)
        /\ StronglySorted scan_order found
        /\ (forall b j,
              (b, j) ∈ found
              <-> from_block a <= b <= last
                  /\ exists tx, transactions (block_at w b) !! j = Some tx
                                /\ is_log_attendance w checksum_address tx = Value true))
  /\ survivors chain_of_three_blocks "0xC" [10; 11; 12] = [(10, 0%nat); (10, 2%nat); (12, 1%nat)]
  /\ times_at (build_block_time_map scan_from_ten chain_of_three_blocks "0xC")
              [0; 1; 2; 3]%nat
     = Some [Some (exactly 20 19 0); Some (exactly 20 19 0);
             Some (exactly 20 20 0); None].
Proof.
  split; [|split; by vm_compute].
  intros a w checksum_address last Hto blocks Hread found.
  destruct (scan_blocks_loop w checksum_address blocks (∅, 0%nat) [] Hread)
    as ([m k] & Hrun & Hm & Hk).
  { split; [by cbn | done]. }
  cbn [fst snd app] in Hm, Hk. fold found in Hm, Hk.
  assert (forall (t0 : list event) (r : io exn block_arg),
            r = (t0, inr (Number last)) ->
            (forall b, Call (GetBlock b) ∉ t0) ->
            exists t m',
              (to_block' ← r;
               _ ← print (ScanningBlocks (from_block a));
               last' ← match to_block' with
                       | Number n => mret n
                       | _ => stop (ValueError "int")
                       end;
               st ← for_each_io (scan_block w checksum_address)
                               (seqZ (from_block a) (last' + 1 - from_block a))
                               (∅, 0%nat);
               _ ← print (FoundTransactions (size st.1));
               mret st.1) = (t, inr m')
              /\ m' = m
              /\ exists before,
                   t = before ++ ((fun b => Call (GetBlock b)) <$> blocks)
                         ++ [Print (FoundTransactions (length found))]
                   /\ forall b, Call (GetBlock b) ∉ before) as Hscan.
  { intros t0 r -> Ht0.
    unfold mbind, io_mbind, io_bind, print, emit, mret, io_mret, io_ret.
    cbn [fst snd]. fold blocks. rewrite Hrun. cbn [fst snd].
    eexists _, _. split; [reflexivity|]. split; [done|].
    exists (t0 ++ [Print (ScanningBlocks (from_block a))]). split.
    - rewrite Hm, size_map_seq, length_fmap, app_nil_r. by rewrite <- !app_assoc.
    - intros b. rewrite elem_of_app, elem_of_cons, elem_of_nil.
      intros [H | [H | H]]; [by apply (Ht0 b) | discriminate | done]. }
  assert (exists t, scan_blocks a w checksum_address = (t, inr m)
                    /\ exists before,
                         t = before ++ ((fun b => Call (GetBlock b)) <$> blocks)
                               ++ [Print (FoundTransactions (length found))]
                         /\ forall b, Call (GetBlock b) ∉ before) as (t & Ht & Hbefore).
  { unfold scan_blocks. destruct Hto as [Hn | [Hl Hbn]].
    - rewrite Hn. destruct (Hscan [] (mret (Number last))) as (t & m' & Heq & -> & Hb).
      + reflexivity.
      + intros b H. by apply elem_of_nil in H.
      + exists t. split; [exact Heq | exact Hb].
    - rewrite Hl, Hbn.
      destruct (Hscan [Call BlockNumber]
                  (n ← node_call BlockNumber (Value last); mret (Number n)))
        as (t & m' & Heq & -> & Hb).
      + reflexivity.
      + intros b. rewrite elem_of_cons, elem_of_nil. intros [H | H]; [discriminate | done].
      + exists t. split; [exact Heq | exact Hb]. }
  exists t, m. split; [exact Ht|]. split; [exact Hbefore|]. split; [|split].
  - intros k'. rewrite Hm, lookup_map_seq_0. by rewrite list_lookup_fmap.
  - apply survivors_sorted, seqZ_sorted.
  - intros b j. unfold found. rewrite elem_of_survivors. unfold blocks.
    rewrite elem_of_seqZ. unfold kept. split.
    + intros (Hb & tx & Htx & Hk'). split; [lia|]. exists tx. split; [done|].
      destruct (is_log_attendance w checksum_address tx) as [|[|]]; done.
    + intros (Hb & tx & Htx & Hk'). split; [lia|]. exists tx. split; [done|].
      by rewrite Hk'.
Qed.

Lemma block_times_follow_scan_order_witness :
  let blocks := seqZ 10 (12 + 1 - 10) in
  let found := survivors chain_of_three_blocks "0xC" blocks in
  exists t m,
    scan_blocks scan_from_ten chain_of_three_blocks "0xC" = (t, inr m)
    /\ (exists before,
          t = before ++ ((fun b => Call (GetBlock b)) <$> blocks)
                ++ [Print (FoundTransactions (length found))]
          /\ forall b, Call (GetBlock b) ∉ before)
    /\ (forall k : nat, m !! k = time_of chain_of_three_blocks <$> found !! k)
    /\ StronglySorted scan_order found
    /\ (forall b j,
          (b, j) ∈ found
          <-> 10 <= b <= 12
              /\ exists tx, transactions (block_at chain_of_three_blocks b) !! j = Some tx
                            /\ is_log_attendance chain_of_three_blocks "0xC" tx = Value true).
Proof.
  apply (proj1 block_times_follow_scan_order scan_from_ten chain_of_three_blocks
           "0xC" 12).
  - right. split; reflexivity.
  - intros b Hb. apply elem_of_seqZ in Hb. cbn in Hb.
    assert (b = 10 \/ b = 11 \/ b = 12) as [-> | [-> | ->]] by lia.
    + eexists. split; [reflexivity|]. repeat constructor; by eexists.
    + eexists. split; [reflexivity|]. repeat constructor; by eexists.
    + eexists. split; [reflexivity|]. repeat constructor; by eexists.
Defined.

End ReadProperties.

(** * Further properties of the code *)

(** ** A capture session, detection by detection *)

Module SessionProperties.
Import Py FaceAttendance WriteProperties.

#[local] Set Warnings "-clear-no-such-hyp".

(** The detections at which a name is seen for the first time, given the
    names [seen] before: those the loop body acts on. *)
Fixpoint first_seen (seen : gset string) (faces : list detection) : list detection :=
  match faces with
  | [] => []
  | face :: faces' =>
      let name := default "" (matched face) in
      if truthy (matched face) && negb (bool_decide (name ∈ seen))
      then face :: first_seen ({[name]} ∪ seen) faces'
      else first_seen seen faces'
  end.

Definition names_of (faces : list detection) : gset string :=
  list_to_set ((fun face => default "" (matched face)) <$> faces).

(** What a transaction says: name, timestamp, hash. *)
Definition tx_fields (t : txn) : string * string * string :=
  (tx_name t, tx_timestamp t, tx_hash_str t).

Definition fields_of_detection (face : detection) : string * string * string :=
  let name := default "" (matched face) in
  let timestamp := Datetime.strftime (clock face) in
  (name, timestamp, hash_str name timestamp).

(** A write reaches the node when no call raises, or only the wait for
    the receipt does. *)
Definition reaches_node (f : option stage) : bool :=
  match f with
  | None | Some WaitForTransactionReceipt => true
  | Some _ => false
  end.

(** The transactions of the writes numbered from [n], one write for each
    detection of [faces]. *)
Fixpoint expected_fields (fault : nat -> option stage) (n : nat)
  (faces : list detection) : list (string * string * string) :=
  match faces with
  | [] => []
  | face :: faces' =>
      (if reaches_node (fault n) then [fields_of_detection face] else [])
      ++ expected_fields fault (S n) faces'
  end.

Lemma capture_frames_concat send_to_chain c frames st :
  capture_frames send_to_chain c frames st
  = fold_left (log_face send_to_chain c) (concat frames) st.
Proof.
  unfold capture_frames. revert st.
  induction frames as [|faces frames IH]; intros st; [done|].
  cbn. by rewrite fold_left_app, IH.
Qed.

(** One write with a usable client, whatever the node does. *)
Lemma save_usable name timestamp c w :
  usable c = true ->
  let r := save_to_blockchain name timestamp c w in
  attempts r.2 = S (attempts w)
  /\ fault r.2 = fault w
  /\ sent r.2 = sent w ++ (if reaches_node (fault w (attempts w))
                           then [txn_of name timestamp c w] else []).
Proof.
  intros Hc r. unfold r. clear r.
  destruct (fault w (attempts w)) as [st|] eqn:E.
  - destruct (stage_eqb st WaitForTransactionReceipt) eqn:Hst.
    + destruct st; try discriminate. rewrite save_fault_receipt by done. done.
    + rewrite (save_fault_before_send _ _ _ _ st) by (try done; intros ->; discriminate).
      cbn. destruct st; try discriminate; by rewrite app_nil_r.
  - rewrite save_success by done. done.
Qed.

Lemma log_face_skip send_to_chain c logged w face :
  truthy (matched face) && negb (bool_decide (default "" (matched face) ∈ logged)) = false ->
  log_face send_to_chain c (logged, w) face = (logged, w).
Proof.
  unfold log_face. destruct (truthy (matched face)); [|done]. cbn.
  destruct (decide (_ ∈ logged)) as [|Hn]; [done|].
  by rewrite bool_decide_eq_false_2.
Qed.

Lemma log_face_new c logged w face :
  truthy (matched face) && negb (bool_decide (default "" (matched face) ∈ logged)) = true ->
  log_face true c (logged, w) face
  = ({[default "" (matched face)]} ∪ logged,
     (save_to_blockchain (default "" (matched face))
        (Datetime.strftime (clock face)) c w).2).
Proof.
  unfold log_face. destruct (truthy (matched face)); [|done]. cbn.
  destruct (decide (_ ∈ logged)) as [Hin|Hn].
  { by rewrite bool_decide_eq_true_2. }
  intros _. destruct (save_to_blockchain _ _ c w) as [[success tx] w']. cbn.
  by destruct success.
Qed.

Lemma log_face_new_dry c logged w face :
  truthy (matched face) && negb (bool_decide (default "" (matched face) ∈ logged)) = true ->
  log_face false c (logged, w) face = ({[default "" (matched face)]} ∪ logged, w).
Proof.
  unfold log_face. destruct (truthy (matched face)); [|done]. cbn.
  destruct (decide (_ ∈ logged)) as [Hin|Hn].
  { by rewrite bool_decide_eq_true_2. }
  intros _. reflexivity.
Qed.

(** The loop with a usable client: what the node received, write by write. *)
Lemma capture_faces_usable c faces logged w :
  usable c = true ->
  let st := fold_left (log_face true c) faces (logged, w) in
  st.1 = logged ∪ names_of (first_seen logged faces)
  /\ attempts st.2 = (attempts w + length (first_seen logged faces))%nat
  /\ fault st.2 = fault w
  /\ exists new,
       sent st.2 = sent w ++ new
       /\ tx_fields <$> new
          = expected_fields (fault w) (attempts w) (first_seen logged faces).
Proof.
  intros Hc. revert logged w.
  induction faces as [|face faces IH]; intros logged w.
  { cbn. repeat split; [set_solver | lia | ]. exists []. by rewrite app_nil_r. }
  cbn [fold_left first_seen].
  destruct (truthy (matched face)
            && negb (bool_decide (default "" (matched face) ∈ logged))) eqn:Hnew.
  - rewrite (log_face_new c logged w face Hnew).
    set (name := default "" (matched face)).
    set (timestamp := Datetime.strftime (clock face)).
    destruct (save_usable name timestamp c w Hc) as (Hat & Hf & Hs).
    destruct (IH ({[name]} ∪ logged) (save_to_blockchain name timestamp c w).2)
      as (Hl & Hat' & Hf' & new & Hs' & Hnew').
    cbn zeta. repeat split.
    + rewrite Hl. unfold names_of. cbn. fold name. set_solver.
    + rewrite Hat', Hat. cbn. lia.
    + by rewrite Hf', Hf.
    + exists ((if reaches_node (fault w (attempts w))
               then [txn_of name timestamp c w] else []) ++ new).
      split; [by rewrite Hs', Hs, app_assoc|].
      rewrite fmap_app, Hnew', Hf, Hat. cbn [expected_fields]. f_equal.
      by destruct (reaches_node (fault w (attempts w))).
  - rewrite (log_face_skip true c logged w face Hnew). apply IH.
Qed.

(** The loop that does not send: the node is left as it is. *)
Lemma capture_faces_silent send_to_chain c faces logged w :
  send_to_chain = false \/ usable c = false ->
  fold_left (log_face send_to_chain c) faces (logged, w)
  = (logged ∪ names_of (first_seen logged faces), w).
Proof.
  intros Hsilent. revert logged.
  induction faces as [|face faces IH]; intros logged.
  { cbn. f_equal. set_solver. }
  cbn [fold_left first_seen].
  destruct (truthy (matched face)
            && negb (bool_decide (default "" (matched face) ∈ logged))) eqn:Hnew.
  - assert (log_face send_to_chain c (logged, w) face
            = ({[default "" (matched face)]} ∪ logged, w)) as ->.
    { destruct send_to_chain; [|by apply log_face_new_dry].
      destruct Hsilent as [|Hc]; [done|].
      rewrite (log_face_new c logged w face Hnew). by rewrite save_unusable. }
    rewrite IH. f_equal. unfold names_of. cbn. set_solver.
  - rewrite (log_face_skip send_to_chain c logged w face Hnew). apply IH.
Qed.

(** X1.  With [--send] and a client that can sign, a capture session makes
    one write for each identity, in the order in which the identities are
    first detected, whatever fails on the way: the node has received, in
    that order, the name, the timestamp of the first detection and their
    hash for the writes in which no call raises and for those in which only
    the wait for the receipt raises, and nothing for the other writes.  The
    number of writes begun is the number of identities, and [logged_today]
    holds them all. *)
Theorem session_makes_one_write_per_identity_in_detection_order
  (c : client) (frames : list frame) (w : chain) :
  usable c = true ->
  let st := capture_and_log true c frames w in
  let firsts := first_seen ∅ (concat frames) in
  tx_fields <$> submitted w st.2 = expected_fields (fault w) (attempts w) firsts
  /\ attempts st.2 = (attempts w + length firsts)%nat
  /\ st.1 = names_of firsts.
Proof.
  intros Hc st firsts.
  destruct (capture_faces_usable c (concat frames) ∅ w Hc)
    as (Hl & Hat & _ & new & Hs & Hnew).
  unfold st, capture_and_log. rewrite capture_frames_concat.
  repeat split.
  - unfold submitted. rewrite Hs, drop_app_length. exact Hnew.
  - exact Hat.
  - rewrite Hl. fold firsts. set_solver.
Qed.

Definition bob_later : detection :=
  mkdetection (Some "bob") (Datetime.mkdatetime 2025 1 1 0 0 5 0).

Lemma session_makes_one_write_per_identity_in_detection_order_witness :
  let st := capture_and_log true configured_client
              [[alice_at_midnight; bob_later]; [alice_at_midnight]]
              estimate_fails_once in
  let firsts := first_seen ∅ (concat [[alice_at_midnight; bob_later]; [alice_at_midnight]]) in
  tx_fields <$> submitted estimate_fails_once st.2
  = expected_fields (fault estimate_fails_once) (attempts estimate_fails_once) firsts
  /\ attempts st.2 = (attempts estimate_fails_once + length firsts)%nat
  /\ st.1 = names_of firsts.
Proof.
  apply (session_makes_one_write_per_identity_in_detection_order
           configured_client [[alice_at_midnight; bob_later]; [alice_at_midnight]]
           estimate_fails_once).
  reflexivity.
Defined.

(** X2.  Without [--send], or with a client that lacks the node, the
    contract, the account address or the private key, a capture session
    never calls the node: the node is as before, no write was begun, and
    every identity detected is in [logged_today] all the same. *)
Theorem session_without_usable_client_never_calls_node
  (send_to_chain : bool) (c : client) (frames : list frame) (w : chain) :
  send_to_chain = false \/ usable c = false ->
  capture_and_log send_to_chain c frames w
  = (names_of (first_seen ∅ (concat frames)), w).
Proof.
  intros Hsilent. unfold capture_and_log. rewrite capture_frames_concat.
  rewrite (capture_faces_silent send_to_chain c (concat frames) ∅ w Hsilent).
  f_equal. set_solver.
Qed.

Definition client_without_key : client :=
  mkclient true true (Some "0xA31534EC") (Some "").

Lemma session_without_usable_client_never_calls_node_witness :
  capture_and_log true client_without_key [[alice_at_midnight]] estimate_fails_once
  = (names_of (first_seen ∅ (concat [[alice_at_midnight]])), estimate_fails_once).
Proof.
  apply (session_without_usable_client_never_calls_node
           true client_without_key [[alice_at_midnight]] estimate_fails_once).
  right. reflexivity.
Defined.

(** The entry the dashboard loop queues for a detection. *)
Definition entry_of_detection (face : detection) : App.entry :=
  let name := default "" (matched face) in
  let timestamp := Datetime.strftime (clock face) in
  App.mkentry name timestamp (App.hash_str name timestamp) None.

Lemma app_faces logged entries faces :
  fold_left App.log_face faces (logged, entries)
  = (logged ∪ names_of (first_seen logged faces),
     entries ++ (entry_of_detection <$> first_seen logged faces)).
Proof.
  revert logged entries. induction faces as [|face faces IH]; intros logged entries.
  { cbn. rewrite app_nil_r. f_equal. set_solver. }
  cbn [fold_left first_seen]. unfold App.log_face at 2.
  destruct (truthy (matched face)
            && negb (bool_decide (default "" (matched face) ∈ logged))) eqn:Hnew.
  - rewrite IH. rewrite fmap_cons, <- app_assoc. f_equal.
    unfold names_of. cbn. set_solver.
  - apply IH.
Qed.

(** X3.  The dashboard loop of [app.py] queues one entry for each identity,
    in the order in which the identities are first detected, with the
    timestamp of the first detection, the hash of the two and no
    transaction reference; it sends nothing, and [logged_users] holds the
    identities queued. *)
Theorem dashboard_queues_one_entry_per_identity_in_detection_order
  (frames : list frame) :
  App.run_webcam frames
  = (names_of (first_seen ∅ (concat frames)),
     entry_of_detection <$> first_seen ∅ (concat frames)).
Proof.
  unfold App.run_webcam.
  assert (forall st, fold_left (fun st faces => fold_left App.log_face faces st) frames st
                     = fold_left App.log_face (concat frames) st) as ->.
  { induction frames as [|faces frames IH]; intros st; [done|].
    cbn. by rewrite fold_left_app, IH. }
  rewrite app_faces. cbn. f_equal. set_solver.
Qed.

End SessionProperties.

(** ** Written timestamps are read back *)

Module RoundTripProperties.
Import Unicode Re Datetime.

(** *** The characters [strftime] writes *)

(** The code point of the digit written for [n]. *)
Definition digit_point (n : Z) : Z := 48 + n `mod` 10.

Definition points2 (n : Z) : list Z := [digit_point (n `div` 10); digit_point n].
Definition points4 (n : Z) : list Z :=
  [digit_point (n `div` 1000); digit_point (n `div` 100);
   digit_point (n `div` 10); digit_point n].

Lemma ord_digit_char n : ord (digit_char n) = digit_point n.
Proof.
  unfold ord, digit_char, digit_point. pose proof (Z.mod_pos_bound n 10).
  rewrite nat_ascii_embedding by lia. lia.
Qed.

(** The ten digits of ASCII: decimal digits, and no blanks. *)
Lemma ascii_digit c :
  48 <= c <= 57 -> decimal c = Some (c - 48) /\ isspace c = false.
Proof.
  intros Hc. assert (c ∈ seqZ 48 10) as Hcases by (apply elem_of_seqZ; lia).
  cbv [seqZ seq fmap list_fmap Z.to_nat Pos.to_nat Pos.iter_op Init.Nat.add] in Hcases.
  repeat (apply elem_of_cons in Hcases as [-> | Hcases]; [by split|]).
  by apply elem_of_nil in Hcases.
Qed.

Lemma digit_point_range n : 48 <= digit_point n <= 57.
Proof. unfold digit_point. pose proof (Z.mod_pos_bound n 10). lia. Qed.

Lemma digit_point_is_digit n : is_digit (digit_point n) = true.
Proof.
  unfold is_digit, isdecimal.
  by rewrite (proj1 (ascii_digit _ (digit_point_range n))).
Qed.

Lemma digit_point_not_space n : is_space (digit_point n) = false.
Proof. apply (ascii_digit _ (digit_point_range n)). Qed.

Lemma digit_point_not_blank n : int_blank (digit_point n) = false.
Proof. unfold int_blank. by rewrite digit_point_not_space. Qed.

Lemma digit_point_value n : digit_value (digit_point n) = n `mod` 10.
Proof.
  unfold digit_value. rewrite (proj1 (ascii_digit _ (digit_point_range n))).
  unfold digit_point. cbn. lia.
Qed.

(** A byte string of ASCII characters decodes byte by byte. *)
Lemma decode_ascii (l : list ascii) :
  Forall (fun b => ord b < 128) l -> decode l = map ord l.
Proof.
  induction 1 as [|b l Hb _ IH]; [done|].
  cbn [decode map]. destruct (Z.ltb_spec (ord b) 128); [|lia]. by rewrite IH.
Qed.

(** The characters [strftime] writes for the six fields. *)
Definition written (y m d H M S : Z) : list Z :=
  points4 y ++ [ord "-"] ++ points2 m ++ [ord "-"] ++ points2 d
  ++ [ord " "] ++ points2 H ++ [ord ":"] ++ points2 M ++ [ord ":"] ++ points2 S.

Lemma code_points_strftime now :
  code_points (strftime now)
  = written (year now) (month now) (day now) (hour now) (minute now) (second now).
Proof.
  unfold code_points, strftime. rewrite list_ascii_of_string_of_list_ascii.
  rewrite decode_ascii.
  - unfold pad4, pad2. cbn [map app]. rewrite !ord_digit_char. reflexivity.
  - unfold pad4, pad2. cbn [app].
    repeat constructor; rewrite ?ord_digit_char;
      first [ pose proof (digit_point_range (year now `div` 1000)); done
            | match goal with
              | |- digit_point ?n < 128 => pose proof (digit_point_range n); lia
              end ].
Qed.

(** [int] of a run of digits that [strftime] wrote. *)
Lemma py_int_digits (ds : list Z) :
  ds <> [] ->
  py_int (map digit_point ds)
  = Some (fold_left (fun acc n => 10 * acc + n `mod` 10) ds 0).
Proof.
  intros Hne. unfold py_int.
  assert (forall l, lstrip (map digit_point l) = map digit_point l) as Hstrip.
  { intros [|n l]; [done|]. cbn [map lstrip]. by rewrite digit_point_not_blank. }
  rewrite Hstrip, <- map_rev, Hstrip, map_rev, rev_involutive.
  destruct ds as [|n ds]; [done|].
  assert (forallb is_digit (map digit_point (n :: ds)) = true) as Hdigits.
  { apply forallb_forall. intros c Hc. apply in_map_iff in Hc as (m & <- & _).
    apply digit_point_is_digit. }
  change (map digit_point (n :: ds)) with (digit_point n :: map digit_point ds) in *.
  cbv iota beta. rewrite Hdigits. f_equal.
  change (digit_point n :: map digit_point ds) with (map digit_point (n :: ds)).
  generalize 0. generalize (n :: ds). clear.
  induction l as [|m l IH]; intros acc; [done|].
  cbn [map fold_left]. rewrite digit_point_value. apply IH.
Qed.

Lemma py_int_points2 n : 0 <= n <= 99 -> py_int (points2 n) = Some n.
Proof.
  intros Hn. change (points2 n) with (map digit_point [n `div` 10; n]).
  rewrite py_int_digits by done. cbn [fold_left]. f_equal.
  Z.to_euclidean_division_equations. lia.
Qed.

Lemma py_int_points4 n : 0 <= n <= 9999 -> py_int (points4 n) = Some n.
Proof.
  intros Hn.
  change (points4 n) with (map digit_point [n `div` 1000; n `div` 100; n `div` 10; n]).
  rewrite py_int_digits by done. cbn [fold_left]. f_equal.
  Z.to_euclidean_division_equations. lia.
Qed.

(** *** The directives match what [strftime] wrote, at the first try *)

Ltac enum_range n lo count :=
  lazymatch count with
  | O => exfalso; lia
  | S ?c =>
      let H := fresh "Hne" in
      destruct (Z.eq_dec n lo) as [->|H];
      [ | let lo' := eval compute in (lo + 1) in enum_range n lo' c ]
  end.

Lemma rmatch_Y y rest : rmatch re_Y (points4 y ++ rest) = [rest].
Proof.
  unfold re_Y, dig, points4. cbn [app rmatch].
  repeat (rewrite digit_point_is_digit; cbn [map concat app rmatch]).
  reflexivity.
Qed.

Lemma rmatch_m n rest :
  1 <= n <= 12 -> exists tl, rmatch re_m (points2 n ++ rest) = rest :: tl.
Proof. intros Hn. enum_range n 1 12%nat; eexists; vm_compute; reflexivity. Qed.

Lemma rmatch_d n rest :
  1 <= n <= 31 -> exists tl, rmatch re_d (points2 n ++ rest) = rest :: tl.
Proof. intros Hn. enum_range n 1 31%nat; eexists; vm_compute; reflexivity. Qed.

Lemma rmatch_H n rest :
  0 <= n <= 23 -> exists tl, rmatch re_H (points2 n ++ rest) = rest :: tl.
Proof. intros Hn. enum_range n 0 24%nat; eexists; vm_compute; reflexivity. Qed.

Lemma rmatch_M n rest :
  0 <= n <= 59 -> exists tl, rmatch re_M (points2 n ++ rest) = rest :: tl.
Proof. intros Hn. enum_range n 0 60%nat; eexists; vm_compute; reflexivity. Qed.

Lemma rmatch_S n rest :
  0 <= n <= 59 -> exists tl, rmatch re_S (points2 n ++ rest) = rest :: tl.
Proof. intros Hn. enum_range n 0 60%nat; eexists; vm_compute; reflexivity. Qed.

Lemma rmatch_blank n rest :
  rmatch (PlusCls is_space) (ord " " :: points2 n ++ rest) = [points2 n ++ rest].
Proof.
  unfold points2. cbn [rmatch plus_cls app]. change (is_space (ord " ")) with true.
  cbv iota. by rewrite digit_point_not_space.
Qed.

Lemma rmatch_chr a rest : rmatch (chr a) (ord a :: rest) = [rest].
Proof. cbn [rmatch chr]. unfold is_char. by rewrite Z.eqb_refl. Qed.

(** A group whose expression takes [pre] at the first try, followed by a
    format that matches the rest at the first try. *)
Lemma fmatch_group_head f r fmt pre rest tl caps out tl' :
  rmatch r (pre ++ rest) = rest :: tl ->
  fmatch fmt rest = (caps, out) :: tl' ->
  exists tl'', fmatch (Group f r :: fmt) (pre ++ rest) = ((f, pre) :: caps, out) :: tl''.
Proof.
  intros Hr Hf. cbn [fmatch]. rewrite Hr. cbn [map concat]. rewrite Hf.
  cbn [map app]. eexists.
  rewrite length_app. replace (length pre + length rest - length rest)%nat
    with (length pre) by lia.
  rewrite take_app_length. reflexivity.
Qed.

Lemma fmatch_sep_head r fmt s rest caps out tl' :
  rmatch r s = [rest] ->
  fmatch fmt rest = (caps, out) :: tl' ->
  exists tl'', fmatch (Sep r :: fmt) s = (caps, out) :: tl''.
Proof.
  intros Hr Hf. cbn [fmatch]. rewrite Hr. cbn [map concat]. rewrite Hf.
  cbn. eexists. reflexivity.
Qed.

Lemma make_datetime_bounds y m d H M S t :
  make_datetime y m d H M S = Some t ->
  t = mkdatetime y m d H M S 0
  /\ 1 <= y <= 9999 /\ 1 <= m <= 12 /\ 1 <= d <= 31
  /\ 0 <= H <= 23 /\ 0 <= M <= 59 /\ 0 <= S <= 59.
Proof.
  unfold make_datetime.
  destruct (_ && _) eqn:Hok; [|done]. intros [= <-].
  repeat (apply andb_true_iff in Hok as [Hok ?]).
  assert (days_in_month y m <= 31).
  { unfold days_in_month. repeat case_match; lia. }
  split; [done|]. lia.
Qed.

Lemma fmatch_written y m d H M S :
  1 <= m <= 12 -> 1 <= d <= 31 -> 0 <= H <= 23 -> 0 <= M <= 59 -> 0 <= S <= 59 ->
  exists tl,
    fmatch DATETIME_FORMAT (written y m d H M S)
    = ([(FY, points4 y); (Fm, points2 m); (Fd, points2 d);
        (FH, points2 H); (FM, points2 M); (FS, points2 S)], []) :: tl.
Proof.
  intros Hm Hd HH HM HS.
  change DATETIME_FORMAT with
    [Group FY re_Y; Sep (chr "-"); Group Fm re_m; Sep (chr "-"); Group Fd re_d;
     Sep (PlusCls is_space); Group FH re_H; Sep (chr ":"); Group FM re_M;
     Sep (chr ":"); Group FS re_S].
  unfold written. rewrite <- (app_nil_r (points2 S)).
  destruct (rmatch_S S [] HS) as (tS & HrS).
  destruct (fmatch_group_head FS re_S [] (points2 S) [] tS [] [] [] HrS eq_refl) as (t1 & H1).
  destruct (fmatch_sep_head _ _ _ _ _ _ _ (rmatch_chr ":" (points2 S ++ [])) H1) as (t2 & H2).
  destruct (rmatch_M M (ord ":" :: points2 S ++ []) HM) as (tM & HrM).
  destruct (fmatch_group_head FM _ _ _ _ _ _ _ _ HrM H2) as (t3 & H3).
  destruct (fmatch_sep_head _ _ _ _ _ _ _ (rmatch_chr ":" _) H3) as (t4 & H4).
  destruct (rmatch_H H (ord ":" :: points2 M ++ ord ":" :: points2 S ++ []) HH) as (tH & HrH).
  destruct (fmatch_group_head FH _ _ _ _ _ _ _ _ HrH H4) as (t5 & H5).
  destruct (fmatch_sep_head _ _ _ _ _ _ _ (rmatch_blank H _) H5) as (t6 & H6).
  destruct (rmatch_d d (ord " " :: points2 H ++ ord ":" :: points2 M ++ ord ":" :: points2 S ++ []) Hd)
    as (td & Hrd).
  destruct (fmatch_group_head Fd _ _ _ _ _ _ _ _ Hrd H6) as (t7 & H7).
  destruct (fmatch_sep_head _ _ _ _ _ _ _ (rmatch_chr "-" _) H7) as (t8 & H8).
  destruct (rmatch_m m (ord "-" :: points2 d ++ ord " " :: points2 H ++ ord ":" :: points2 M
                          ++ ord ":" :: points2 S ++ []) Hm) as (tm & Hrm).
  destruct (fmatch_group_head Fm _ _ _ _ _ _ _ _ Hrm H8) as (t9 & H9).
  destruct (fmatch_sep_head _ _ _ _ _ _ _ (rmatch_chr "-" _) H9) as (t10 & H10).
  destruct (fmatch_group_head FY _ _ _ _ _ _ _ _ (rmatch_Y y _) H10) as (t11 & H11).
  exists t11. exact H11.
Qed.

Lemma strptime_written y m d H M S t :
  make_datetime y m d H M S = Some t ->
  strptime_chars DATETIME_FORMAT (written y m d H M S) = Some t.
Proof.
  intros Ht. destruct (make_datetime_bounds _ _ _ _ _ _ _ Ht) as (_ & Hy & Hm & Hd & HH & HM & HS).
  destruct (fmatch_written y m d H M S Hm Hd HH HM HS) as (tl & Hf).
  unfold strptime_chars. rewrite Hf. unfold group_int. cbn [capture field_eqb].
  rewrite py_int_points4 by lia. rewrite !py_int_points2 by lia. exact Ht.
Qed.

Lemma strftime_then_strptime (now t : datetime) :
  make_datetime (year now) (month now) (day now)
                (hour now) (minute now) (second now) = Some t ->
  strptime (strftime now) DATETIME_FORMAT = Some t
  /\ GetAttendanceByTime.resolve_timestamp (strftime now) = Some t
  /\ String.length (strftime now) = 19%nat.
Proof.
  intros Ht.
  assert (strptime (strftime now) DATETIME_FORMAT = Some t) as Hparse.
  { unfold strptime. rewrite code_points_strftime. by apply strptime_written. }
  split; [exact Hparse|]. split.
  - unfold GetAttendanceByTime.resolve_timestamp. by rewrite Hparse.
  - reflexivity.
Qed.

(** X4.  A timestamp the capture loop writes is read back by the scan as
    the instant of the detection, to the second: for every clock reading
    of a year from 1000 on, [strptime] parses what [strftime] wrote, at the
    first attempt of the timestamp resolution, and the text has 19
    characters. *)
Theorem written_timestamp_is_read_back (now t : datetime) :
  make_datetime (year now) (month now) (day now)
                (hour now) (minute now) (second now) = Some t ->
  1000 <= year now ->
  strptime (strftime now) DATETIME_FORMAT = Some t
  /\ GetAttendanceByTime.resolve_timestamp (strftime now) = Some t
  /\ String.length (strftime now) = 19%nat.
Proof. intros Ht _. by apply strftime_then_strptime. Qed.

Lemma written_timestamp_is_read_back_witness :
  strptime (strftime (mkdatetime 2025 12 1 20 19 0 123456)) DATETIME_FORMAT
  = Some (mkdatetime 2025 12 1 20 19 0 0)
  /\ GetAttendanceByTime.resolve_timestamp
       (strftime (mkdatetime 2025 12 1 20 19 0 123456))
     = Some (mkdatetime 2025 12 1 20 19 0 0)
  /\ String.length (strftime (mkdatetime 2025 12 1 20 19 0 123456)) = 19%nat.
Proof.
  apply (written_timestamp_is_read_back (mkdatetime 2025 12 1 20 19 0 123456)
           (mkdatetime 2025 12 1 20 19 0 0)).
  - reflexivity.
  - cbn. lia.
Defined.

End RoundTripProperties.

(** ** From the capture loop to the scan *)

Module EndToEndProperties.
Import Py Datetime FaceAttendance WriteProperties SessionProperties RoundTripProperties.

#[local] Set Warnings "-clear-no-such-hyp".

(** A clock reading, to the second. *)
Definition to_second (d : datetime) : datetime :=
  mkdatetime (year d) (month d) (day d) (hour d) (minute d) (second d) 0.

(** A reading [datetime.now] can give, of a year from 1000 on. *)
Definition clock_reading (d : datetime) : Prop :=
  make_datetime (year d) (month d) (day d) (hour d) (minute d) (second d)
  = Some (to_second d)
  /\ 1000 <= year d.

Lemma first_seen_elem seen faces face :
  face ∈ first_seen seen faces ->
  face ∈ faces /\ matched face = Some (default "" (matched face)).
Proof.
  revert seen. induction faces as [|face' faces IH]; intros seen; cbn.
  { intros H. by apply elem_of_nil in H. }
  destruct (truthy (matched face')) eqn:Htruthy; cbn.
  - destruct (negb _).
    + rewrite elem_of_cons. intros [-> | Hin].
      * split; [by left|]. by destruct (matched face').
      * destruct (IH _ Hin). split; [by right | done].
    + intros Hin. destruct (IH _ Hin). split; [by right | done].
  - intros Hin. destruct (IH _ Hin). split; [by right | done].
Qed.

Lemma expected_fields_elem fault n faces x :
  x ∈ expected_fields fault n faces ->
  exists face, face ∈ faces /\ x = fields_of_detection face.
Proof.
  revert n. induction faces as [|face faces IH]; intros n; cbn.
  { intros H. by apply elem_of_nil in H. }
  rewrite elem_of_app. intros [Hx | Hx].
  - destruct (reaches_node (fault n)); [|by apply elem_of_nil in Hx].
    apply list_elem_of_singleton in Hx. exists face. split; [by left | done].
  - destruct (IH _ Hx) as (face' & Hin & ->). exists face'. split; [by right | done].
Qed.

(** X5.  Every transaction a capture session submits carries the name of
    a detection of the session and a timestamp that the scan resolves to
    the instant of that detection, to the second; so a record written by
    the capture loop is never one the scan skips for its timestamp. *)
Theorem submitted_timestamps_are_resolved_by_the_scan
  (c : client) (frames : list frame) (w : chain) :
  Forall (fun face => clock_reading (clock face)) (concat frames) ->
  Forall (fun t =>
            exists face,
              face ∈ concat frames
              /\ matched face = Some (tx_name t)
              /\ tx_timestamp t = strftime (clock face)
              /\ GetAttendanceByTime.resolve_timestamp (tx_timestamp t)
                 = Some (to_second (clock face)))
         (submitted w (capture_and_log true c frames w).2).
Proof.
  intros Hclocks. unfold capture_and_log. rewrite capture_frames_concat.
  destruct (usable c) eqn:Hc.
  - destruct (capture_faces_usable c (concat frames) ∅ w Hc)
      as (_ & _ & _ & new & Hs & Hnew).
    unfold submitted. rewrite Hs, drop_app_length.
    apply Forall_forall. intros t Ht.
    assert (tx_fields t ∈ expected_fields (fault w) (attempts w)
                            (first_seen ∅ (concat frames))) as Hin.
    { rewrite <- Hnew. apply list_elem_of_fmap. by exists t. }
    apply expected_fields_elem in Hin as (face & Hface & Hfields).
    apply first_seen_elem in Hface as (Hface & Hname).
    unfold tx_fields, fields_of_detection in Hfields.
    injection Hfields as Hn Hts _.
    exists face. rewrite Hn, Hts. repeat split; try done.
    rewrite Forall_forall in Hclocks. destruct (Hclocks face Hface) as [Hvalid Hyear].
    by destruct (strftime_then_strptime (clock face) _ Hvalid) as (_ & ? & _).
  - rewrite (capture_faces_silent true c (concat frames) ∅ w (or_intror Hc)).
    unfold submitted. cbn. rewrite drop_all. constructor.
Qed.

Lemma submitted_timestamps_are_resolved_by_the_scan_witness :
  Forall (fun t =>
            exists face,
              face ∈ concat [[alice_at_midnight]; [alice_at_midnight]]
              /\ matched face = Some (tx_name t)
              /\ tx_timestamp t = strftime (clock face)
              /\ GetAttendanceByTime.resolve_timestamp (tx_timestamp t)
                 = Some (to_second (clock face)))
         (submitted (mkchain [] 0 (fun _ => None))
            (capture_and_log true configured_client
               [[alice_at_midnight]; [alice_at_midnight]]
               (mkchain [] 0 (fun _ => None))).2).
Proof.
  apply (submitted_timestamps_are_resolved_by_the_scan configured_client
           [[alice_at_midnight]; [alice_at_midnight]] (mkchain [] 0 (fun _ => None))).
  repeat constructor; cbn; lia.
Defined.

End EndToEndProperties.

(** ** The shape of the content hash *)

Module HashProperties.
Import Sha256.

Lemma compress_length h block : length h = 8%nat -> length (compress h block) = 8%nat.
Proof.
  intros Hh. unfold compress. rewrite length_map, length_combine, Hh. reflexivity.
Qed.

Lemma digest_words_length msg : length (digest_words msg) = 8%nat.
Proof.
  unfold digest_words. generalize (chunks (length (pad msg)) 64 (pad msg)).
  assert (length H0 = 8%nat) as Hinit by reflexivity. revert Hinit. generalize H0.
  intros h Hh blocks. revert h Hh.
  induction blocks as [|b blocks IH]; intros h Hh; [done|].
  cbn. apply IH. by apply compress_length.
Qed.

Lemma be_bytes_length n x : length (be_bytes n x) = n.
Proof. induction n as [|n IH]; [done|]. cbn. by rewrite IH. Qed.

Lemma be_bytes_range n x : Forall (fun b => 0 <= b < 256) (be_bytes n x).
Proof.
  induction n as [|n IH]; [constructor|]. cbn. constructor; [|done].
  apply Z.mod_pos_bound. lia.
Qed.

Definition lower_hex (c : ascii) : Prop :=
  In c (list_ascii_of_string "0123456789abcdef").

Lemma hex_char_lower n : 0 <= n < 16 -> lower_hex (hex_char n).
Proof.
  intros Hn. unfold lower_hex.
  assert (n ∈ seqZ 0 16) as Hcases by (apply elem_of_seqZ; lia).
  cbv [seqZ seq fmap list_fmap Z.to_nat Pos.to_nat Pos.iter_op Init.Nat.add] in Hcases.
  repeat (apply elem_of_cons in Hcases as [-> | Hcases]; [cbn; tauto|]).
  by apply elem_of_nil in Hcases.
Qed.

Lemma hex_of_bytes bs :
  Forall (fun b => 0 <= b < 256) bs ->
  length (concat (map hex_byte bs)) = (2 * length bs)%nat
  /\ Forall lower_hex (concat (map hex_byte bs)).
Proof.
  induction 1 as [|b bs Hb _ [IHl IHf]]; [by split; [|constructor]|].
  cbn [map concat hex_byte app length]. split; [lia|].
  constructor; [|constructor; [|done]]; apply hex_char_lower;
    Z.to_euclidean_division_equations; lia.
Qed.

Lemma bytes_of_words ws :
  length (concat (map (be_bytes 4) ws)) = (4 * length ws)%nat
  /\ Forall (fun b => 0 <= b < 256) (concat (map (be_bytes 4) ws)).
Proof.
  induction ws as [|x ws [IHl IHf]]; [by split; [|constructor]|].
  cbn [map concat]. rewrite length_app, be_bytes_length, IHl.
  split; [cbn [length]; lia|].
  apply Forall_app. split; [apply be_bytes_range | done].
Qed.

Lemma length_string_of_list l : String.length (string_of_list_ascii l) = length l.
Proof. induction l as [|c l IH]; [done|]. cbn. by rewrite IH. Qed.

Lemma hexdigest_shape data :
  String.length (sha256_hexdigest data) = 64%nat
  /\ Forall lower_hex (list_ascii_of_string (sha256_hexdigest data)).
Proof.
  unfold sha256_hexdigest.
  destruct (bytes_of_words (digest_words (bytes_of_string data))) as [Hl Hb].
  destruct (hex_of_bytes _ Hb) as [Hl' Hh].
  rewrite length_string_of_list, list_ascii_of_string_of_list_ascii.
  split; [|done]. rewrite Hl', Hl, digest_words_length. reflexivity.
Qed.

(** X6.  Whatever the name and the timestamp, the content hash sent to the
    contract and queued by the dashboard is a text of 64 characters, each a
    digit or a letter from [a] to [f]. *)
Theorem content_hash_is_64_lower_hex_digits (name timestamp : string) :
  String.length (FaceAttendance.hash_str name timestamp) = 64%nat
  /\ Forall lower_hex (list_ascii_of_string (FaceAttendance.hash_str name timestamp))
  /\ String.length (App.hash_str name timestamp) = 64%nat
  /\ Forall lower_hex (list_ascii_of_string (App.hash_str name timestamp)).
Proof.
  unfold FaceAttendance.hash_str, App.hash_str.
  destruct (hexdigest_shape (name +:+ "-" +:+ timestamp)) as [Hl Hh]. done.
Qed.

Lemma list_ascii_of_append s1 s2 :
  list_ascii_of_string (s1 +:+ s2) = list_ascii_of_string s1 ++ list_ascii_of_string s2.
Proof. induction s1 as [|c s1 IH]; [done|]. simpl. by rewrite IH. Qed.

Lemma string_length_list s : String.length s = length (list_ascii_of_string s).
Proof. induction s as [|c s IH]; [done|]. cbn. by rewrite IH. Qed.

Lemma list_ascii_inj s1 s2 :
  list_ascii_of_string s1 = list_ascii_of_string s2 -> s1 = s2.
Proof.
  intros H. rewrite <- (string_of_list_ascii_of_string s1),
    <- (string_of_list_ascii_of_string s2). by rewrite H.
Qed.

Lemma append_assoc (s1 s2 s3 : string) : (s1 +:+ s2) +:+ s3 = s1 +:+ (s2 +:+ s3).
Proof. apply list_ascii_inj. rewrite !list_ascii_of_append. by rewrite app_assoc. Qed.

(** X7.  The text that is hashed, [name + "-" + timestamp], tells the
    name from the timestamp when the timestamps have one length, as those
    the capture loop writes do (19 characters); for texts of any length it
    does not: moving a part of the name that follows a hyphen over to the
    timestamp gives the same hash. *)
Theorem hashed_text_determines_name_and_timestamp :
  (forall name1 name2 now1 now2,
      name1 +:+ "-" +:+ Datetime.strftime now1 = name2 +:+ "-" +:+ Datetime.strftime now2 ->
      name1 = name2 /\ Datetime.strftime now1 = Datetime.strftime now2)
  /\ (forall name1 name2 timestamp1 timestamp2,
        String.length timestamp1 = String.length timestamp2 ->
        name1 +:+ "-" +:+ timestamp1 = name2 +:+ "-" +:+ timestamp2 ->
        name1 = name2 /\ timestamp1 = timestamp2)
  /\ (forall a b timestamp,
        FaceAttendance.hash_str (a +:+ "-" +:+ b) timestamp
        = FaceAttendance.hash_str a (b +:+ "-" +:+ timestamp)).
Proof.
  assert (forall name1 name2 timestamp1 timestamp2,
            String.length timestamp1 = String.length timestamp2 ->
            name1 +:+ "-" +:+ timestamp1 = name2 +:+ "-" +:+ timestamp2 ->
            name1 = name2 /\ timestamp1 = timestamp2) as Hsame.
  { intros name1 name2 ts1 ts2 Hlen Heq.
    apply (f_equal list_ascii_of_string) in Heq.
    rewrite !list_ascii_of_append in Heq.
    rewrite !string_length_list in Hlen.
    assert (length (list_ascii_of_string "-" ++ list_ascii_of_string ts1)
            = length (list_ascii_of_string "-" ++ list_ascii_of_string ts2)) as Hlen'.
    { rewrite !length_app. by f_equal. }
    destruct (app_inj_2 _ _ _ _ Hlen' Heq) as [Hn Ht].
    split; [by apply list_ascii_inj|].
    apply list_ascii_inj. by injection Ht. }
  split; [|split; [exact Hsame|]].
  - intros name1 name2 now1 now2. apply Hsame. reflexivity.
  - intros a b timestamp. unfold FaceAttendance.hash_str. f_equal.
    by rewrite !append_assoc.
Qed.

Lemma hashed_text_determines_name_and_timestamp_witness :
  FaceAttendance.hash_str ("ann" +:+ "-" +:+ "marie") "2025-01-01 00:00:00"
  = FaceAttendance.hash_str "ann" ("marie" +:+ "-" +:+ "2025-01-01 00:00:00").
Proof.
  apply (proj2 (proj2 hashed_text_determines_name_and_timestamp)).
Defined.

End HashProperties.

(** ** The scan as a whole *)

Module ScanProperties.
Import Py Datetime GetAttendanceByTime ReadProperties.

#[local] Set Warnings "-clear-no-such-hyp".

Lemma lex_le_trans a b c :
  lex_compare a b <> Gt -> lex_compare b c <> Gt -> lex_compare a c <> Gt.
Proof.
  revert b c. induction a as [|x a IH]; intros [|y b] [|z c]; cbn; try done.
  destruct (Z.compare_spec x y), (Z.compare_spec y z), (Z.compare_spec x z);
    try lia; try done; subst; eauto.
Qed.

Lemma leb_trans a b c : leb a b = true -> leb b c = true -> leb a c = true.
Proof.
  unfold leb, compare. intros Hab Hbc.
  pose proof (lex_le_trans (fields a) (fields b) (fields c)) as Htrans.
  destruct (lex_compare (fields a) (fields b)); try done;
    destruct (lex_compare (fields b) (fields c)); try done;
    destruct (lex_compare (fields a) (fields c)); try done;
    exfalso; by apply Htrans.
Qed.

(** The records of a scan, by index. *)
Lemma records_of_collect c start_dt end_dt debug include_invalid block_time_map r :
  r ∈ records_of (collect_records c start_dt end_dt debug include_invalid block_time_map)
  <-> exists total i,
        totalRecords c = Value total /\ (i < total)%nat
        /\ in_range_entry c start_dt end_dt block_time_map i = Some r.
Proof.
  destruct (totalRecords c) as [e|total] eqn:Ht.
  - unfold records_of, collect_records, node_call, mbind, io_mbind, io_bind.
    rewrite Ht. cbn. split; [by intros H; apply elem_of_nil in H|].
    by intros (total & i & ? & _).
  - destruct (collect_records_value c start_dt end_dt debug include_invalid
                block_time_map total Ht) as (t & Hc & _).
    unfold records_of. rewrite Hc. cbn [fst snd]. rewrite list_elem_of_omap. split.
    + intros (i & Hi & Hr). apply elem_of_seq in Hi. exists total, i.
      repeat split; [lia | done].
    + intros (total' & i & [= <-] & Hi & Hr). exists i. split; [|done].
      apply elem_of_seq. lia.
Qed.

Lemma in_range_entry_widen c s e s' e' block_time_map i r :
  leb s' s = true -> leb e e' = true ->
  in_range_entry c s e block_time_map i = Some r ->
  in_range_entry c s' e' block_time_map i = Some r.
Proof.
  intros Hs He. unfold in_range_entry.
  destruct (getRecord c i) as [|raw]; [done|].
  destruct raw as [|name [|ts [|h [|x raw]]]]; try done.
  destruct (resolved_time block_time_map i ts) as [dt|]; [|done].
  destruct (leb s dt && leb dt e) eqn:Hin; [|done].
  apply andb_true_iff in Hin as [H1 H2].
  by rewrite (leb_trans _ _ _ Hs H1), (leb_trans _ _ _ H2 He).
Qed.

(** X8.  A wider window gives every record the narrower one gives, and a
    window whose end is before its start gives no record at all, whatever
    the ledger holds. *)
Theorem wider_window_keeps_records_and_inverted_window_has_none
  (c : contract) (debug include_invalid : bool)
  (block_time_map : option (gmap nat datetime)) :
  (forall start_dt end_dt start_dt' end_dt' r,
      leb start_dt' start_dt = true -> leb end_dt end_dt' = true ->
      r ∈ records_of (collect_records c start_dt end_dt debug include_invalid
                                      block_time_map) ->
      r ∈ records_of (collect_records c start_dt' end_dt' debug include_invalid
                                      block_time_map))
  /\ (forall start_dt end_dt,
        ltb end_dt start_dt = true ->
        records_of (collect_records c start_dt end_dt debug include_invalid
                                    block_time_map) = []).
Proof.
  split.
  - intros s e s' e' r Hs He. rewrite !records_of_collect.
    intros (total & i & Ht & Hi & Hr). exists total, i. repeat split; try done.
    by apply (in_range_entry_widen c s e).
  - intros s e Hinv.
    destruct (records_of (collect_records c s e debug include_invalid block_time_map))
      as [|r rs] eqn:Hrec; [done|].
    assert (r ∈ records_of (collect_records c s e debug include_invalid block_time_map))
      as Hin by (rewrite Hrec; by left).
    apply records_of_collect in Hin as (total & i & _ & _ & Hr).
    unfold in_range_entry in Hr.
    destruct (getRecord c i) as [|raw]; [done|].
    destruct raw as [|name [|ts [|h [|x raw]]]]; try done.
    destruct (resolved_time block_time_map i ts) as [dt|]; [|done].
    destruct (leb s dt && leb dt e) eqn:Hwin; [|done].
    apply andb_true_iff in Hwin as [H1 H2].
    rewrite ltb_negb_leb, (leb_trans _ _ _ H1 H2) in Hinv. done.
Qed.

Lemma wider_window_keeps_records_and_inverted_window_has_none_witness :
  records_of (collect_records three_records (exactly 20 20 0) (exactly 20 19 0)
                              false false None) = [].
Proof.
  apply (proj2 (wider_window_keeps_records_and_inverted_window_has_none
                  three_records false false None)).
  vm_compute. reflexivity.
Defined.

Lemma invalid_of_collect c start_dt end_dt debug block_time_map total :
  totalRecords c = Value total ->
  invalid_of (collect_records c start_dt end_dt debug true block_time_map)
  = omap (invalid_entry c block_time_map) (seq 0 total)
  /\ records_of (collect_records c start_dt end_dt debug true block_time_map)
     = omap (in_range_entry c start_dt end_dt block_time_map) (seq 0 total).
Proof.
  intros Ht.
  destruct (collect_records_value c start_dt end_dt debug true block_time_map total Ht)
    as (t & Hc & _).
  unfold invalid_of, records_of. by rewrite Hc.
Qed.

(** X9.  With [include_invalid], a scan accounts for every index below the
    count: the fetch raised; or the record is in [invalid_records] (no
    three fields, or no resolvable time); or it is in [records]; or it has
    a resolved time outside the window.  Both collections are in ascending
    index order and no index is in both. *)
Theorem scan_accounts_for_every_index
  (c : contract) (start_dt end_dt : datetime) (debug : bool)
  (block_time_map : option (gmap nat datetime)) (total : nat) :
  totalRecords c = Value total ->
  let found := collect_records c start_dt end_dt debug true block_time_map in
  StronglySorted lt (e_index <$> invalid_of found)
  /\ StronglySorted lt (e_index <$> records_of found)
  /\ (forall r v, r ∈ records_of found -> v ∈ invalid_of found -> e_index r <> e_index v)
  /\ (forall i, (i < total)%nat ->
        (exists e, getRecord c i = Raised e)
        \/ (exists v, v ∈ invalid_of found /\ e_index v = i)
        \/ (exists r, r ∈ records_of found /\ e_index r = i)
        \/ (exists name timestamp_str hash_value rec_dt,
              getRecord c i = Value [name; timestamp_str; hash_value]
              /\ resolved_time block_time_map i timestamp_str = Some rec_dt
              /\ leb start_dt rec_dt && leb rec_dt end_dt = false)).
Proof.
  intros Ht found.
  destruct (invalid_of_collect c start_dt end_dt debug block_time_map total Ht)
    as [Hinv Hrec].
  fold found in Hinv, Hrec. rewrite Hinv, Hrec.
  split; [|split; [|split]].
  - apply omap_seq_sorted. intros i v. apply invalid_entry_index.
  - apply omap_seq_sorted. intros i r. apply in_range_entry_index.
  - intros r v Hr Hv Heq.
    apply list_elem_of_omap in Hr as (i & _ & Hi).
    apply list_elem_of_omap in Hv as (j & _ & Hj).
    apply in_range_entry_index in Hi as Hri. apply invalid_entry_index in Hj as Hvj.
    assert (i = j) as <- by congruence.
    unfold in_range_entry in Hi. unfold invalid_entry in Hj.
    destruct (getRecord c i) as [|raw]; [done|].
    destruct raw as [|name [|ts [|h [|x raw]]]]; try done.
    by destruct (resolved_time block_time_map i ts).
  - intros i Hi.
    assert (i ∈ seq 0 total) as Hseq by (apply elem_of_seq; lia).
    destruct (getRecord c i) as [e|raw] eqn:Hget; [left; by exists e|]. right.
    destruct (invalid_entry c block_time_map i) as [v|] eqn:Hv.
    { left. exists v. split; [|by apply invalid_entry_index in Hv].
      apply list_elem_of_omap. by exists i. }
    right.
    destruct (in_range_entry c start_dt end_dt block_time_map i) as [r|] eqn:Hr.
    { left. exists r. split; [|by apply in_range_entry_index in Hr].
      apply list_elem_of_omap. by exists i. }
    right. unfold invalid_entry in Hv. unfold in_range_entry in Hr.
    rewrite Hget in Hv, Hr.
    destruct raw as [|name [|ts [|h [|x raw]]]]; try done.
    destruct (resolved_time block_time_map i ts) as [dt|] eqn:Hres; [|done].
    exists name, ts, h, dt. repeat split; try done.
    by destruct (leb start_dt dt && leb dt end_dt).
Qed.

Lemma scan_accounts_for_every_index_witness :
  let found := collect_records ten_records_fifth_fails (exactly 20 13 0)
                               (exactly 20 17 0) false true None in
  StronglySorted lt (e_index <$> invalid_of found)
  /\ StronglySorted lt (e_index <$> records_of found)
  /\ (forall r v, r ∈ records_of found -> v ∈ invalid_of found -> e_index r <> e_index v)
  /\ (forall i, (i < 10)%nat ->
        (exists e, getRecord ten_records_fifth_fails i = Raised e)
        \/ (exists v, v ∈ invalid_of found /\ e_index v = i)
        \/ (exists r, r ∈ records_of found /\ e_index r = i)
        \/ (exists name timestamp_str hash_value rec_dt,
              getRecord ten_records_fifth_fails i
              = Value [name; timestamp_str; hash_value]
              /\ resolved_time None i timestamp_str = Some rec_dt
              /\ leb (exactly 20 13 0) rec_dt && leb rec_dt (exactly 20 17 0) = false)).
Proof.
  apply (scan_accounts_for_every_index ten_records_fifth_fails (exactly 20 13 0)
           (exactly 20 17 0) false None 10).
  reflexivity.
Defined.

End ScanProperties.

(** ** A run of [main] *)

Module MainProperties.
Import Py Datetime GetAttendanceByTime ReadProperties.

#[local] Set Warnings "-clear-no-such-hyp".

(** *** Traces of the parts *)

Lemma bind_elem {E A B} (ev : event) (m : io E A) (f : A -> io E B) :
  ev ∈ (io_bind m f).1 -> ev ∈ m.1 \/ exists a, m.2 = inr a /\ ev ∈ (f a).1.
Proof.
  destruct m as [t [x|a]]; cbn; [by left|].
  destruct (f a) as [t' r] eqn:Hf. cbn. rewrite elem_of_app.
  intros [H | H]; [by left|]. right. exists a. by rewrite Hf.
Qed.

Lemma bind_exit {E A B} (m : io E A) (f : A -> io E B) x :
  (io_bind m f).2 = inl x -> m.2 = inl x \/ exists a, m.2 = inr a /\ (f a).2 = inl x.
Proof.
  destruct m as [t [y|a]]; cbn; [intros [= ->]; by left|].
  destruct (f a) as [t' r] eqn:Hf. cbn. intros ->. right. exists a. by rewrite Hf.
Qed.

Lemma bind_Forall {E A B} (P : event -> Prop) (m : io E A) (f : A -> io E B) :
  Forall P m.1 -> (forall a, Forall P (f a).1) -> Forall P (io_bind m f).1.
Proof.
  intros Hm Hf. destruct m as [t [x|a]]; cbn; [done|].
  specialize (Hf a). destruct (f a) as [t' r]. cbn in *. by apply Forall_app.
Qed.

Lemma for_each_io_Forall {E S I} (P : event -> Prop) (body : S -> I -> io E S) idx s :
  (forall s i, Forall P (body s i).1) -> Forall P (for_each_io body idx s).1.
Proof.
  intros Hbody. revert s. induction idx as [|i idx IH]; intros s; [constructor|].
  rewrite for_each_io_cons. by apply bind_Forall.
Qed.

Lemma for_each_Forall {S} (P : event -> Prop) (body : S -> nat -> list event * S) idx s :
  (forall s i, i ∈ idx -> Forall P (body s i).1) -> Forall P (for_each body idx s).1.
Proof.
  revert s. induction idx as [|i idx IH]; intros s Hbody; [constructor|].
  cbn. specialize (Hbody s i ltac:(by left)) as Hi.
  destruct (body s i) as [t1 s1]. specialize (IH s1).
  destruct (for_each body idx s1) as [t2 s2]. cbn in *.
  apply Forall_app. split; [done|]. apply IH. intros s' j Hj. apply Hbody. by right.
Qed.

(** What the block scan calls and prints. *)
Definition scan_event (ev : event) : Prop :=
  match ev with
  | Call BlockNumber | Call (GetBlock _)
  | Print (ScanningBlocks _) | Print (FoundTransactions _)
  | Print (CouldNotBuildBlockTimeMapping _) => True
  | _ => False
  end.

Lemma scan_block_trace w checksum_address st b :
  Forall scan_event (scan_block w checksum_address st b).1.
Proof.
  unfold scan_block. apply bind_Forall.
  - unfold node_call. destruct (get_block (w3 w) b); cbn; by repeat constructor.
  - intros blk. apply for_each_io_Forall. intros s tx. unfold scan_transaction.
    destruct (is_log_attendance w checksum_address tx) as [|[|]]; constructor.
Qed.

Lemma scan_blocks_trace a w checksum_address :
  Forall scan_event (scan_blocks a w checksum_address).1.
Proof.
  unfold scan_blocks. apply bind_Forall.
  { destruct (to_block a); [|constructor|constructor].
    apply bind_Forall; [|constructor].
    unfold node_call. destruct (block_number (w3 w)); cbn; by repeat constructor. }
  intros tb. apply bind_Forall; [by repeat constructor|]. intros _.
  apply bind_Forall; [destruct tb; constructor|]. intros last.
  apply bind_Forall; [|intros st; apply bind_Forall; [by repeat constructor | constructor]].
  apply for_each_io_Forall. intros s b. apply scan_block_trace.
Qed.

Lemma build_block_time_map_trace {E} a w checksum_address :
  Forall scan_event (build_block_time_map (E := E) a w checksum_address).1
  /\ exists m, (build_block_time_map (E := E) a w checksum_address).2 = inr m.
Proof.
  unfold build_block_time_map.
  pose proof (scan_blocks_trace a w checksum_address) as Ht.
  destruct (scan_blocks a w checksum_address) as [t [e|m]]; cbn in *.
  - split; [|by eexists]. apply Forall_app. split; [done | by repeat constructor].
  - split; [done | by eexists].
Qed.

(** What the scan of the records calls and prints. *)
Definition collect_event (total : nat) (ev : event) : Prop :=
  match ev with
  | Call TotalRecords => True
  | Call (GetRecord i) => (i < total)%nat
  | Print (ErrorFetchingRecord _ _) | Print (DebugRawRecord _ _)
  | Print (UnexpectedRecordShape _ _) | Print (SkippingRecord _ _)
  | Print (DebugFullRecord _ _ _ _) => True
  | _ => False
  end.

Lemma collect_record_trace c start_dt end_dt debug include_invalid block_time_map
  total st i :
  (i < total)%nat ->
  Forall (collect_event total)
         (collect_record c start_dt end_dt debug include_invalid block_time_map st i).1.
Proof.
  intros Hi. destruct st as [records invalid_records]. unfold collect_record.
  destruct (getRecord c i) as [e|raw]; cbn; [by repeat constructor|].
  destruct raw as [|name [|ts [|h [|x raw]]]]; cbn;
    try (destruct debug; cbn; by repeat constructor).
  destruct (resolved_time block_time_map i ts) as [dt|]; cbn.
  - destruct (leb start_dt dt && leb dt end_dt); destruct debug; cbn;
      by repeat constructor.
  - destruct debug; cbn; by repeat constructor.
Qed.

Lemma collect_records_trace c start_dt end_dt debug include_invalid block_time_map :
  exists total,
    Forall (collect_event total)
           (collect_records c start_dt end_dt debug include_invalid block_time_map).1
    /\ (forall found,
          (collect_records c start_dt end_dt debug include_invalid block_time_map).2
          = inr found -> totalRecords c = Value total).
Proof.
  unfold collect_records, node_call, mbind, io_mbind, io_bind.
  destruct (totalRecords c) as [e|total].
  - exists 0%nat. cbn. split; [by repeat constructor | done].
  - exists total.
    pose proof (for_each_Forall (collect_event total)
                  (collect_record c start_dt end_dt debug include_invalid block_time_map)
                  (seq 0 total) ([], [])) as Hloop.
    destruct (for_each (collect_record c start_dt end_dt debug include_invalid
                                       block_time_map) (seq 0 total) ([], []))
      as [t st]. cbn in *.
    split; [|done]. constructor; [done|]. apply Hloop.
    intros s i Hi. apply elem_of_seq in Hi. apply collect_record_trace. lia.
Qed.

(** *** How a run ends, and what it reads *)

Lemma main_of_io a w :
  (main a w).1 = (main_io a w).1
  /\ (main a w).2 = match (main_io a w).2 with inl x => x | inr _ => Return end.
Proof. unfold main. by destruct (main_io a w) as [t [x|u]]. Qed.

Ltac not_this_event H :=
  repeat (apply elem_of_cons in H as [H | H]; [discriminate H|]);
  by apply elem_of_nil in H.

(** The window raises only from [parse_time], on [--start] or on a
    given [--end]; with [--date] it does not. *)
Lemma time_window_uncaught a now e :
  (time_window a now).2 = inl (Uncaught e)
  <-> truthy (date a) = false
      /\ truthy (start a) = true
      /\ (parse_time (default "" (start a)) = None
          \/ (truthy (end_ a) = true /\ parse_time (default "" (end_ a)) = None))
      /\ e = ValueError "parse_time".
Proof.
  unfold time_window. destruct (truthy (date a)).
  - split; [|by intros [? _]].
    destruct (truthy (start a) || truthy (end_ a)); [done|].
    destruct (strptime (default "" (date a)) DATE_FORMAT) as [day_dt|] eqn:Hd; [|done].
    destruct (strptime_date_midnight _ _ Hd) as (_ & -> & ->). done.
  - destruct (truthy (start a)); cbn [negb]; [|split; [done | by intros (_ & ? & _)]].
    destruct (parse_time (default "" (start a))) as [start_dt|].
    + destruct (truthy (end_ a)).
      * destruct (parse_time (default "" (end_ a))) as [end_dt|]; cbn.
        -- split; [done|]. by intros (_ & _ & [? | [_ ?]] & _).
        -- split; [intros [= <-]; repeat split; by right | by intros (_ & _ & _ & ->)].
      * cbn. split; [done|]. by intros (_ & _ & [? | [? _]] & _).
    + cbn. split; [intros [= <-]; repeat split; by left | by intros (_ & _ & _ & ->)].
Qed.

(** The three ways in which a run raises: [parse_time] on a bound; then,
    with a window in order, a node that answers and an ABI file that
    loads, [Web3.to_checksum_address] on the contract address, or
    [w3.eth.contract] on what the ABI file holds. *)
Definition raises_in_window (a : args) (e : exn) : Prop :=
  truthy (date a) = false
  /\ truthy (start a) = true
  /\ (parse_time (default "" (start a)) = None
      \/ (truthy (end_ a) = true /\ parse_time (default "" (end_ a)) = None))
  /\ e = ValueError "parse_time".

Definition raises_binding_contract (a : args) (w : world) (e : exn) : Prop :=
  exists start_dt end_dt,
    (time_window a (now w)).2 = inr (start_dt, end_dt)
    /\ ltb end_dt start_dt = false
    /\ is_connected (w3 w) = true
    /\ (exists u, load_abi w = Value u)
    /\ (to_checksum_address w (contract_address a) = Raised e
        \/ ((exists address, to_checksum_address w (contract_address a) = Value address)
            /\ eth_contract w = Raised e)).

Lemma uncaught_cases a w e :
  (main a w).2 = Uncaught e -> raises_in_window a e \/ raises_binding_contract a w e.
Proof.
  destruct (main_of_io a w) as [_ ->].
  destruct (main_io a w).2 as [x|u] eqn:Hio; [|done]. intros ->.
  unfold main_io, mbind, io_mbind in Hio.
  apply bind_exit in Hio as [Hio | ([s en] & Htw & Hio)].
  { left. by apply time_window_uncaught in Hio. }
  right. exists s, en. split; [done|].
  apply bind_exit in Hio as [Hio | (u1 & Horder & Hio)].
  { by destruct (ltb en s). }
  split; [by destruct (ltb en s)|].
  apply bind_exit in Hio as [Hio | (_ & _ & Hio)]; [done|].
  apply bind_exit in Hio as [Hio | (u2 & Hconn & Hio)].
  { by destruct (is_connected (w3 w)). }
  split; [by destruct (is_connected (w3 w))|].
  apply bind_exit in Hio as [Hio | (u3 & Habi & Hio)].
  { by destruct (load_abi w). }
  split; [destruct (load_abi w) as [|u]; [done | by exists u]|].
  apply bind_exit in Hio as [Hio | (address & Haddr & Hio)].
  { left. destruct (to_checksum_address w (contract_address a)); [|done].
    cbn in Hio. congruence. }
  right. split.
  { destruct (to_checksum_address w (contract_address a)) as [|x]; [done | by exists x]. }
  apply bind_exit in Hio as [Hio | (_ & _ & Hio)].
  { destruct (eth_contract w); [|done]. cbn in Hio. congruence. }
  exfalso.
  apply bind_exit in Hio as [Hio | (_ & _ & Hio)]; [done|].
  apply bind_exit in Hio as [Hio | (_ & _ & Hio)]; [done|].
  apply bind_exit in Hio as [Hio | (_ & _ & Hio)]; [done|].
  apply bind_exit in Hio as [Hio | (_ & _ & Hio)].
  { destruct (get_code (w3 w)) as [|code]; [done|]. by destruct (no_code code). }
  apply bind_exit in Hio as [Hio | (_ & _ & Hio)]; [done|].
  apply bind_exit in Hio as [Hio | (_ & _ & Hio)]; [done|].
  apply bind_exit in Hio as [Hio | (block_time_map & _ & Hio)].
  { destruct (use_block_times a); [|done].
    destruct (build_block_time_map_trace (E := exit) a w address) as [_ [m Hm]].
    congruence. }
  apply bind_exit in Hio as [Hio | (found & _ & Hio)]; [|done].
  destruct (collect_records _ _ _ _ _ _) as [t [[]|found]]; done.
Qed.

Lemma raises_in_window_run a w e :
  raises_in_window a e -> main a w = ([], Uncaught e).
Proof.
  intros Hraise. apply (time_window_uncaught a (now w)) in Hraise.
  pose proof (time_window_trace a (now w)) as Htrace.
  unfold main, main_io, mbind, io_mbind.
  destruct (time_window a (now w)) as [t [x|p]]; cbn in *; [|done].
  by injection Hraise as ->; subst t.
Qed.

Lemma raises_binding_contract_run a w e :
  raises_binding_contract a w e -> main a w = ([Call IsConnected], Uncaught e).
Proof.
  intros (start_dt & end_dt & Htw & Horder & Hconn & [u Habi] & Hraise).
  pose proof (time_window_trace a (now w)) as Htrace.
  unfold main, main_io, mbind, io_mbind.
  destruct (time_window a (now w)) as [t [x|p]]; cbn in Htw, Htrace; [done|].
  injection Htw as ->. subst t. cbn [io_bind]. rewrite Horder, Hconn, Habi.
  destruct Hraise as [-> | [[address ->] ->]]; reflexivity.
Qed.

(** X10.  A run of [main] ends with an exception nobody catches in three
    cases, and in no other: [parse_time] refuses the [--start] text or a
    given [--end] text (without [--date]); or the window is in order, the
    node answers, the ABI file loads, and either
    [Web3.to_checksum_address] refuses the contract address or
    [w3.eth.contract] refuses what the ABI file holds.  All three come
    before the first [try] of [main]: the run has printed nothing and has
    asked the node at most whether it is connected.  Whatever the node, the
    contract or the block scan do afterwards, the run ends by a
    [return]. *)
Theorem main_raises_only_before_its_first_try (a : args) (w : world) (e : exn) :
  ((main a w).2 = Uncaught e
   <-> raises_in_window a e \/ raises_binding_contract a w e)
  /\ ((main a w).2 = Uncaught e ->
      (main a w).1 = [] \/ (main a w).1 = [Call IsConnected]).
Proof.
  split; [split|].
  - apply uncaught_cases.
  - intros [Hraise | Hraise].
    + by rewrite (raises_in_window_run a w e Hraise).
    + by rewrite (raises_binding_contract_run a w e Hraise).
  - intros [Hraise | Hraise]%uncaught_cases.
    + left. by rewrite (raises_in_window_run a w e Hraise).
    + right. by rewrite (raises_binding_contract_run a w e Hraise).
Qed.

(** A node that answers, with an ABI file that is JSON and no ABI. *)
Definition json_that_is_no_abi : world :=
  mkworld (now reachable_node) (fromtimestamp reachable_node) (Value tt) Value
          (Raised (ValueError "abi")) (w3 reachable_node) (deployed reachable_node).

Definition query_from_noon : args :=
  mkargs (Some "2025-12-01 12:00:00") None None "0xF00F" false false false 0 Latest.

Lemma main_raises_only_before_its_first_try_witness :
  (main query_from_noon json_that_is_no_abi).2 = Uncaught (ValueError "abi").
Proof.
  apply (proj1 (main_raises_only_before_its_first_try query_from_noon
                  json_that_is_no_abi (ValueError "abi"))).
  right. exists (mkdatetime 2025 12 1 12 0 0 0), (now json_that_is_no_abi).
  repeat split.
  - by exists tt.
  - right. split; [by exists "0xF00F" | reflexivity].
Defined.

(** X11.  [main] fetches a record only after the node answered, the ABI
    file was read, the contract address was accepted and the address was
    not found without code, and only at an index below the count the
    contract gave. *)
Theorem records_are_fetched_only_after_the_checks (a : args) (w : world) (i : nat) :
  Call (GetRecord i) ∈ (main a w).1 ->
  is_connected (w3 w) = true
  /\ (exists u, load_abi w = Value u)
  /\ (exists address, to_checksum_address w (contract_address a) = Value address)
  /\ (forall code, get_code (w3 w) = Value code -> no_code code = false)
  /\ (exists total, totalRecords (deployed w) = Value total /\ (i < total)%nat).
Proof.
  destruct (main_of_io a w) as [-> _]. intros Hev.
  unfold main_io, mbind, io_mbind in Hev.
  apply bind_elem in Hev as [Hev | ([s en] & _ & Hev)].
  { rewrite time_window_trace in Hev. by apply elem_of_nil in Hev. }
  apply bind_elem in Hev as [Hev | (_ & _ & Hev)].
  { destruct (ltb en s); by apply elem_of_nil in Hev. }
  apply bind_elem in Hev as [Hev | (_ & _ & Hev)]; [not_this_event Hev|].
  apply bind_elem in Hev as [Hev | (u1 & Hconn & Hev)].
  { destruct (is_connected (w3 w)); cbn in Hev; not_this_event Hev. }
  apply bind_elem in Hev as [Hev | (u2 & Habi & Hev)].
  { destruct (load_abi w); cbn in Hev; not_this_event Hev. }
  apply bind_elem in Hev as [Hev | (address & Haddr & Hev)].
  { destruct (to_checksum_address w (contract_address a)); cbn in Hev; not_this_event Hev. }
  apply bind_elem in Hev as [Hev | (u4 & Hcontract & Hev)].
  { destruct (eth_contract w); cbn in Hev; not_this_event Hev. }
  apply bind_elem in Hev as [Hev | (_ & _ & Hev)]; [not_this_event Hev|].
  apply bind_elem in Hev as [Hev | (_ & _ & Hev)]; [not_this_event Hev|].
  apply bind_elem in Hev as [Hev | (_ & _ & Hev)]; [not_this_event Hev|].
  apply bind_elem in Hev as [Hev | (u3 & Hcode & Hev)].
  { destruct (get_code (w3 w)) as [|code]; [cbn in Hev; not_this_event Hev|].
    destruct (no_code code); cbn in Hev; not_this_event Hev. }
  apply bind_elem in Hev as [Hev | (_ & _ & Hev)]; [not_this_event Hev|].
  apply bind_elem in Hev as [Hev | (_ & _ & Hev)]; [not_this_event Hev|].
  assert (is_connected (w3 w) = true
          /\ (exists u, load_abi w = Value u)
          /\ (exists address, to_checksum_address w (contract_address a) = Value address)
          /\ (forall code, get_code (w3 w) = Value code -> no_code code = false))
    as (H1 & H2 & H3 & H4).
  { repeat split.
    - by destruct (is_connected (w3 w)).
    - destruct (load_abi w) as [|u]; [done | by exists u].
    - destruct (to_checksum_address w (contract_address a)) as [|x]; [done | by exists x].
    - intros code Hc. rewrite Hc in Hcode. by destruct (no_code code). }
  repeat (split; [done|]).
  apply bind_elem in Hev as [Hev | (block_time_map & _ & Hev)].
  { destruct (use_block_times a); [|by apply elem_of_nil in Hev].
    destruct (build_block_time_map_trace (E := exit) a w address) as [Ht _].
    rewrite Forall_forall in Ht. by destruct (Ht _ Hev). }
  destruct (collect_records_trace (deployed w) s en (debug a) (include_invalid a)
              block_time_map) as (total & Ht & Htotal).
  apply bind_elem in Hev as [Hev | (found & Hfound & Hev)].
  - exists total.
    destruct (collect_records (deployed w) s en (debug a) (include_invalid a)
                block_time_map) as [t [ex|found]] eqn:Hc; cbn in Ht, Htotal.
    + exfalso. destruct (totalRecords (deployed w)) as [e'|total'] eqn:Htot.
      * unfold collect_records, node_call, mbind, io_mbind, io_bind in Hc.
        rewrite Htot in Hc. injection Hc as <- _.
        destruct ex; cbn in Hev; not_this_event Hev.
      * destruct (collect_records_value (deployed w) s en (debug a) (include_invalid a)
                    block_time_map total' Htot) as (t' & Hc' & _).
        rewrite Hc in Hc'. discriminate.
    + split; [by eapply Htotal|]. rewrite Forall_forall in Ht. by apply (Ht _ Hev).
  - exfalso. unfold report in Hev. destruct found as [results invalid_records].
    apply elem_of_app in Hev as [Hev | Hev].
    + destruct results as [|r rs].
      * apply elem_of_cons in Hev as [Hev | Hev]; [discriminate|].
        destruct invalid_records; [by apply elem_of_nil in Hev|].
        destruct (include_invalid a); not_this_event Hev.
      * apply elem_of_cons in Hev as [Hev | Hev]; [discriminate|].
        apply list_elem_of_fmap in Hev as (r' & Hr' & _). discriminate.
    + destruct (include_invalid a); [|by apply elem_of_nil in Hev].
      destruct invalid_records; [by apply elem_of_nil in Hev|].
      apply elem_of_cons in Hev as [Hev | Hev]; [discriminate|].
      apply list_elem_of_fmap in Hev as (r' & Hr' & _). discriminate.
Qed.

Definition query_one_minute : args :=
  mkargs (Some "2025-12-01 20:19:00") (Some "2025-12-01 20:20:00") None "0xF00F"
         false false false 0 Latest.

Lemma records_are_fetched_only_after_the_checks_witness :
  is_connected (w3 reachable_node) = true
  /\ (exists u, load_abi reachable_node = Value u)
  /\ (exists address,
        to_checksum_address reachable_node (contract_address query_one_minute)
        = Value address)
  /\ (forall code, get_code (w3 reachable_node) = Value code -> no_code code = false)
  /\ (exists total, totalRecords (deployed reachable_node) = Value total /\ (1 < total)%nat).
Proof.
  apply (records_are_fetched_only_after_the_checks query_one_minute reachable_node 1).
  vm_compute. repeat constructor.
Defined.

(** *** When the block scan fails *)

(** The records a run prints, each with the block time printed for it. *)
Definition record_lines (t : list event) : list (entry * option string) :=
  omap (fun ev => match ev with
                  | Print (RecordLines r block_time) => Some (r, block_time)
                  | _ => None
                  end) t.

(** Two computations with one outcome that print the same records. *)
Definition same_records {A} (m m' : io exit A) : Prop :=
  m.2 = m'.2 /\ record_lines m.1 = record_lines m'.1.

Lemma record_lines_app t u : record_lines (t ++ u) = record_lines t ++ record_lines u.
Proof. apply omap_app. Qed.

Lemma same_records_bind {A B} (m m' : io exit A) (f f' : A -> io exit B) :
  same_records m m' ->
  (forall x, m.2 = inr x -> same_records (f x) (f' x)) ->
  same_records (io_bind m f) (io_bind m' f').
Proof.
  unfold same_records.
  destruct m as [t [x|x]], m' as [t' [x'|x']]; cbn [fst snd io_bind];
    intros [Heq Hl] Hf; try discriminate.
  { injection Heq as <-. by split. }
  injection Heq as <-. destruct (Hf x eq_refl) as [Hout Hlines].
  destruct (f x) as [u r], (f' x) as [u' r']. cbn [fst snd] in *.
  split; [done|]. by rewrite !record_lines_app, Hl, Hlines.
Qed.

Lemma scan_prints_no_record t : Forall scan_event t -> record_lines t = [].
Proof.
  induction 1 as [|ev t Hev _ IH]; [done|].
  unfold record_lines in *. cbn. rewrite IH.
  destruct ev as [[]|[]]; done.
Qed.

(** The arguments without [--use-block-times]. *)
Definition without_block_times (a : args) : args :=
  mkargs (start a) (end_ a) (date a) (contract_address a) (debug a)
         (include_invalid a) false (from_block a) (to_block a).

(** X12.  When the block scan raises (a block that cannot be read, a
    [--to-block] that is no number, an address in a transaction that
    cannot be checked), a run with [--use-block-times] ends as the run
    without the option does and prints the same records: the scan of the
    records goes on with the stored timestamp texts. *)
Theorem failed_block_scan_falls_back_to_stored_timestamps (a : args) (w : world) :
  (forall address,
      to_checksum_address w (contract_address a) = Value address ->
      exists e, (scan_blocks a w address).2 = inl e) ->
  (main a w).2 = (main (without_block_times a) w).2
  /\ record_lines (main a w).1 = record_lines (main (without_block_times a) w).1.
Proof.
  intros Hfail.
  assert (same_records (main_io a w) (main_io (without_block_times a) w)) as [Hout Hlines].
  { unfold main_io, mbind, io_mbind.
    apply same_records_bind; [by split|]. intros [s en] _.
    apply same_records_bind; [by split|]. intros _ _.
    apply same_records_bind; [by split|]. intros _ _.
    apply same_records_bind; [by split|]. intros _ _.
    apply same_records_bind; [by split|]. intros _ _.
    apply same_records_bind; [by split|]. intros address Haddr.
    apply same_records_bind; [by split|]. intros _ _.
    apply same_records_bind; [by split|]. intros _ _.
    apply same_records_bind; [by split|]. intros _ _.
    apply same_records_bind; [by split|]. intros _ _.
    apply same_records_bind; [by split|]. intros _ _.
    apply same_records_bind; [by split|]. intros _ _.
    apply same_records_bind; [by split|]. intros _ _.
    apply same_records_bind.
    - cbn [use_block_times without_block_times].
      destruct (use_block_times a); [|by split].
      assert (to_checksum_address w (contract_address a) = Value address) as Hvalue.
      { destruct (to_checksum_address w (contract_address a)); [done|].
        cbn in Haddr. congruence. }
      destruct (Hfail address Hvalue) as (e & He).
      pose proof (scan_blocks_trace a w address) as Ht.
      unfold build_block_time_map.
      destruct (scan_blocks a w address) as [t [e'|m]]; [|by cbn in He].
      unfold same_records. cbn [fst snd] in *. split; [done|].
      rewrite record_lines_app. by rewrite scan_prints_no_record.
    - intros block_time_map _. apply same_records_bind; [by split|]. intros found _.
      by split. }
  destruct (main_of_io a w) as [-> ->].
  destruct (main_of_io (without_block_times a) w) as [-> ->].
  by rewrite Hout, Hlines.
Qed.

Definition scan_to_no_number : args :=
  mkargs (Some "2025-12-01 20:19:00") (Some "2025-12-01 20:20:00") None "0xC"
         false false true 10 (NotANumber "tip").

Lemma failed_block_scan_falls_back_to_stored_timestamps_witness :
  (main scan_to_no_number chain_of_three_blocks).2
  = (main (without_block_times scan_to_no_number) chain_of_three_blocks).2
  /\ record_lines (main scan_to_no_number chain_of_three_blocks).1
     = record_lines (main (without_block_times scan_to_no_number) chain_of_three_blocks).1.
Proof.
  apply (failed_block_scan_falls_back_to_stored_timestamps scan_to_no_number
           chain_of_three_blocks).
  intros address _. exists (ValueError "int"). reflexivity.
Defined.

End MainProperties.

(** ** Registered names and loaded names *)

Module EmbeddingProperties.
Import Py PyStr Embeddings.

#[local] Set Warnings "-clear-no-such-hyp".

(** [old] occurs in [s]. *)
Fixpoint occurs (old s : list ascii) : bool :=
  starts_with old s
  || match s with
     | [] => false
     | _ :: s' => occurs old s'
     end.

(** A name in which the suffix of the embedding files does not occur. *)
Definition plain_name (name : string) : Prop :=
  occurs (list_ascii_of_string SUFFIX) (list_ascii_of_string name) = false.

Lemma starts_with_refl_app p r : starts_with p (p ++ r) = true.
Proof. induction p as [|c p IH]; [done|]. cbn. by rewrite Ascii.eqb_refl. Qed.

Lemma starts_with_lookup p s j x :
  starts_with p s = true -> p !! j = Some x -> s !! j = Some x.
Proof.
  revert s j. induction p as [|c p IH]; intros [|d s] j; cbn; try done.
  intros Hs. apply andb_true_iff in Hs as [Hc Hs]. apply Ascii.eqb_eq in Hc as ->.
  destruct j as [|j]; cbn; [done|]. by apply IH.
Qed.

Lemma starts_with_app_long p u v :
  (length p <= length u)%nat -> starts_with p (u ++ v) = starts_with p u.
Proof.
  revert u. induction p as [|c p IH]; intros [|d u]; cbn; try done; try lia.
  intros Hlen. rewrite IH by lia. done.
Qed.

Definition SUFFIX_chars : list ascii := list_ascii_of_string SUFFIX.

Lemma underscore_only_first j : SUFFIX_chars !! j = Some "_"%char -> j = 0%nat.
Proof.
  do 15 (destruct j as [|j]; [by (reflexivity || discriminate)|]). discriminate.
Qed.

(** The suffix does not start inside a text to end in the suffix that
    follows the text. *)
Lemma no_straddle u :
  u <> [] -> (length u < 15)%nat -> starts_with SUFFIX_chars (u ++ SUFFIX_chars) = false.
Proof.
  intros Hne Hlen. destruct (starts_with _ _) eqn:Hs; [|done]. exfalso.
  destruct (lookup_lt_is_Some_2 SUFFIX_chars (length u)) as [y Hy]; [cbn; lia|].
  pose proof (starts_with_lookup _ _ _ _ Hs Hy) as Hy'.
  rewrite lookup_app_r, Nat.sub_diag in Hy' by lia. injection Hy' as <-.
  apply underscore_only_first in Hy. by destruct u.
Qed.

Lemma replace_chars_nil fuel : replace_chars fuel SUFFIX_chars [] [] = [].
Proof. by destruct fuel. Qed.

Lemma replace_plain n fuel :
  occurs SUFFIX_chars n = false -> (length n < fuel)%nat ->
  replace_chars fuel SUFFIX_chars [] (n ++ SUFFIX_chars) = n.
Proof.
  revert fuel. induction n as [|c n IH]; intros fuel Hocc Hfuel.
  - destruct fuel as [|fuel]; [cbn in Hfuel; lia|].
    cbn [app replace_chars]. rewrite <- (app_nil_r SUFFIX_chars) at 2.
    rewrite starts_with_refl_app. cbn [app]. apply replace_chars_nil.
  - destruct fuel as [|fuel]; [cbn in Hfuel; lia|].
    cbn [occurs] in Hocc. apply orb_false_iff in Hocc as [Hhead Htail].
    cbn [replace_chars].
    assert (starts_with SUFFIX_chars ((c :: n) ++ SUFFIX_chars) = false) as ->.
    { destruct (le_lt_dec 15 (length (c :: n))) as [Hlong | Hshort].
      - by rewrite starts_with_app_long.
      - by apply no_straddle. }
    cbn [app]. f_equal. apply IH; [done | cbn in Hfuel; lia].
Qed.

Lemma chars_of_append s1 s2 :
  list_ascii_of_string (s1 +:+ s2) = list_ascii_of_string s1 ++ list_ascii_of_string s2.
Proof. induction s1 as [|c s1 IH]; [done|]. simpl. by rewrite IH. Qed.

(** The file saved for a plain name has the suffix both loaders ask for,
    and the name they derive from it is the name registered. *)
Lemma saved_file_name name :
  plain_name name ->
  endswith (saved_file name) SUFFIX = true
  /\ endswith (saved_file name) ".json" = true
  /\ replace (saved_file name) SUFFIX "" = name.
Proof.
  intros Hplain. unfold endswith, replace, saved_file.
  rewrite !chars_of_append, !rev_app_distr.
  split; [apply starts_with_refl_app|]. split; [reflexivity|].
  fold SUFFIX_chars. change (list_ascii_of_string "") with (@nil ascii).
  rewrite replace_plain; [apply string_of_list_ascii_of_string | exact Hplain |].
  rewrite length_app. lia.
Qed.

Lemma dict_set_fresh {A} (d : dict A) key (value : A) :
  key ∉ keys d -> dict_set d key value = d ++ [(key, value)].
Proof.
  induction d as [|[k v] d IH]; [done|]. cbn.
  rewrite not_elem_of_cons. intros [Hne Hd].
  destruct (String.eqb_spec k key); [congruence|]. by rewrite IH.
Qed.

Section Loaded.

Context {embedding : Type} (load : string -> result embedding)
        (content : string -> embedding).

Lemma load_all_saved names embeddings :
  Forall plain_name names ->
  NoDup (keys embeddings ++ names) ->
  (forall name, name ∈ names -> load (saved_file name) = Value (content name)) ->
  fold_left
    (fun embeddings file =>
       if endswith file SUFFIX then
         match load file with
         | Value data => dict_set embeddings (replace file SUFFIX "") data
         | Raised _ => embeddings
         end
       else embeddings)
    (saved_file <$> names) embeddings
  = embeddings ++ ((fun name => (name, content name)) <$> names).
Proof.
  intros Hplain. revert embeddings.
  induction Hplain as [|name names Hname _ IH]; intros embeddings Hnd Hload.
  { cbn. by rewrite app_nil_r. }
  cbn [fmap list_fmap fold_left].
  destruct (saved_file_name name Hname) as (-> & _ & ->).
  rewrite Hload by (by left).
  apply NoDup_app in Hnd as (Hd & Hcross & Hnames).
  apply NoDup_cons in Hnames as [Hnew Hnames].
  rewrite dict_set_fresh by (intros Hin; apply (Hcross _ Hin); by left).
  rewrite IH.
  - by rewrite <- app_assoc.
  - unfold keys. rewrite map_app. cbn. rewrite <- app_assoc. cbn.
    apply NoDup_app. repeat split; [done | | by apply NoDup_cons].
    intros x Hx. apply Hcross. exact Hx.
  - intros n Hn. apply Hload. by right.
Qed.

Lemma load_known_saved names embeddings :
  Forall plain_name names ->
  NoDup (keys embeddings ++ names) ->
  (forall name, name ∈ names -> load (saved_file name) = Value (content name)) ->
  fold_left (load_known_file load) (saved_file <$> names) (Value embeddings)
  = Value (embeddings ++ ((fun name => (name, content name)) <$> names)).
Proof.
  intros Hplain. revert embeddings.
  induction Hplain as [|name names Hname _ IH]; intros embeddings Hnd Hload.
  { cbn. by rewrite app_nil_r. }
  cbn [fmap list_fmap fold_left]. unfold load_known_file at 2.
  destruct (saved_file_name name Hname) as (_ & -> & ->).
  rewrite Hload by (by left).
  apply NoDup_app in Hnd as (Hd & Hcross & Hnames).
  apply NoDup_cons in Hnames as [Hnew Hnames].
  rewrite dict_set_fresh by (intros Hin; apply (Hcross _ Hin); by left).
  rewrite IH.
  - by rewrite <- app_assoc.
  - unfold keys. rewrite map_app. cbn. rewrite <- app_assoc. cbn.
    apply NoDup_app. repeat split; [done | | by apply NoDup_cons].
    intros x Hx. apply Hcross. exact Hx.
  - intros n Hn. apply Hload. by right.
Qed.

End Loaded.

(** X13.  Names registered are the names loaded: when [student_data]
    holds the files [Register_Student.py] saved for distinct names in
    which the text ["_embedding.json"] does not occur, and the files can be
    read, both loaders give a dictionary with exactly these names, in the
    order of the listing, each with the content of its file. *)
Theorem registered_names_are_loaded_back
  {embedding : Type} (load : string -> result embedding)
  (content : string -> embedding) (names : list string) :
  Forall plain_name names ->
  NoDup names ->
  (forall name, name ∈ names -> load (saved_file name) = Value (content name)) ->
  load_all_embeddings (Some (saved_file <$> names)) load
  = (fun name => (name, content name)) <$> names
  /\ load_known_embeddings (Some (saved_file <$> names)) load
     = Value ((fun name => (name, content name)) <$> names).
Proof.
  intros Hplain Hnd Hload. unfold load_all_embeddings, load_known_embeddings. split.
  - exact (load_all_saved load content names [] Hplain Hnd Hload).
  - exact (load_known_saved load content names [] Hplain Hnd Hload).
Qed.

Lemma registered_names_are_loaded_back_witness :
  load_all_embeddings (Some (saved_file <$> ["alice"; "bob"]))
                      (fun file => Value (String.length file))
  = (fun name => (name, String.length (saved_file name))) <$> ["alice"; "bob"]
  /\ load_known_embeddings (Some (saved_file <$> ["alice"; "bob"]))
                           (fun file => Value (String.length file))
     = Value ((fun name => (name, String.length (saved_file name))) <$> ["alice"; "bob"]).
Proof.
  apply (registered_names_are_loaded_back (fun file => Value (String.length file))
           (fun name => String.length (saved_file name)) ["alice"; "bob"]).
  - repeat constructor.
  - repeat constructor; set_solver.
  - reflexivity.
Defined.

End EmbeddingProperties.

(** ** Files that cannot be read *)

Module LoaderProperties.
Import Py PyStr Embeddings.

#[local] Set Warnings "-clear-no-such-hyp".

Section Readable.

Context {embedding : Type} (load : string -> result embedding).

Definition readable (file : string) : bool :=
  match load file with
  | Value _ => true
  | Raised _ => false
  end.

Definition load_file (embeddings : dict embedding) (file : string) : dict embedding :=
  if endswith file SUFFIX then
    match load file with
    | Value data => dict_set embeddings (replace file SUFFIX "") data
    | Raised _ => embeddings
    end
  else embeddings.

Lemma load_all_unfold files :
  load_all_embeddings (Some files) load = fold_left load_file files [].
Proof. reflexivity. Qed.

Lemma load_all_filter files embeddings :
  fold_left load_file files embeddings
  = fold_left load_file (List.filter readable files) embeddings.
Proof.
  revert embeddings. induction files as [|file files IH]; intros embeddings; [done|].
  cbn [fold_left List.filter]. destruct (load file) eqn:Hload.
  - assert (load_file embeddings file = embeddings) as ->
      by (unfold load_file; rewrite Hload; by destruct (endswith _ _)).
    assert (readable file = false) as -> by (unfold readable; by rewrite Hload).
    apply IH.
  - assert (readable file = true) as -> by (unfold readable; by rewrite Hload).
    cbn [fold_left]. apply IH.
Qed.

Lemma load_known_raised files e :
  fold_left (load_known_file load) files (Raised e) = Raised e.
Proof. induction files as [|file files IH]; [done|]. exact IH. Qed.

Lemma load_known_value files embeddings :
  (exists d, fold_left (load_known_file load) files (Value embeddings) = Value d)
  <-> (forall file, file ∈ files -> endswith file ".json" = true -> readable file = true).
Proof.
  revert embeddings. induction files as [|file files IH]; intros embeddings.
  { split; [intros _ file Hin; by apply elem_of_nil in Hin | by exists embeddings]. }
  cbn [fold_left]. unfold load_known_file at 2.
  destruct (endswith file ".json") eqn:Hjson.
  - destruct (load file) eqn:Hload.
    + rewrite load_known_raised. split; [by intros [d [=]]|].
      intros Hall. specialize (Hall file ltac:(by left) Hjson).
      unfold readable in Hall. by rewrite Hload in Hall.
    + rewrite IH. split.
      * intros Hall f [-> | Hin]%elem_of_cons Hf; [|by apply Hall].
        unfold readable. by rewrite Hload.
      * intros Hall f Hin. apply Hall. by right.
  - rewrite IH. split.
    + intros Hall f [-> | Hin]%elem_of_cons Hf; [congruence | by apply Hall].
    + intros Hall f Hin. apply Hall. by right.
Qed.

End Readable.

(** X14.  A file of [student_data] that cannot be opened or parsed is
    skipped by [load_all_embeddings] of [face_attendance.py], whose result
    is the one it gives for the listing without the unreadable files;
    [load_known_embeddings] of [app.py] gives a dictionary exactly when every
    file of the listing whose name ends in [".json"] can be read. *)
Theorem unreadable_file_is_skipped_by_one_loader_and_stops_the_other
  {embedding : Type} (load : string -> result embedding) (files : list string) :
  load_all_embeddings (Some files) load
  = load_all_embeddings (Some (List.filter (readable load) files)) load
  /\ ((exists d, load_known_embeddings (Some files) load = Value d)
      <-> (forall file, file ∈ files -> endswith file ".json" = true ->
                        readable load file = true)).
Proof.
  split.
  - rewrite !load_all_unfold. apply load_all_filter.
  - apply load_known_value.
Qed.

End LoaderProperties.

(** ** Who is named for a face *)

Module MatchingProperties.
Import PyStr Matching.

#[local] Set Warnings "-clear-no-such-hyp".

Section Best.

Context {embedding score : Type}.
Context (compare_embeddings : embedding -> embedding -> score).
Context (gt : score -> score -> bool).
Context (zero threshold : score) (face_embedding : embedding).

Abbreviation similarity emb := (compare_embeddings face_embedding emb).

(** What [best_name] and [best_score] are after the entries [seen]. *)
Definition best_of (seen : dict embedding) (best : option string * score) : Prop :=
  match best.1 with
  | None =>
      best.2 = zero
      /\ forall name emb, (name, emb) ∈ seen ->
           gt (similarity emb) threshold && gt (similarity emb) zero = false
  | Some name =>
      exists emb,
        (name, emb) ∈ seen
        /\ best.2 = similarity emb
        /\ gt (similarity emb) threshold = true
        /\ gt (similarity emb) zero = true
        /\ forall name' emb', (name', emb') ∈ seen ->
             gt (similarity emb') threshold = true ->
             gt (similarity emb') (similarity emb) = false
  end.

Hypothesis gt_trans : forall x y z, gt x y = true -> gt y z = true -> gt x z = true.
Hypothesis gt_irrefl : forall x, gt x x = false.

Lemma best_of_step seen best known :
  best_of seen best ->
  best_of (seen ++ [known]) (better compare_embeddings gt face_embedding threshold best known).
Proof.
  destruct best as [best_name best_score], known as [name emb].
  unfold best_of, better. cbn [fst snd].
  destruct (gt (similarity emb) threshold && gt (similarity emb) best_score) eqn:Htest;
    cbn [fst snd].
  - apply andb_true_iff in Htest as [Hthr Hbest].
    destruct best_name as [best_name|].
    + intros (best_emb & Hin & -> & Hbthr & Hbzero & Hmax).
      exists emb. split; [set_solver|]. split; [done|]. split; [done|].
      split; [by eapply gt_trans|].
      intros name' emb' [Hin' | Hin']%elem_of_app Hthr'.
      * destruct (gt (similarity emb') (similarity emb)) eqn:Hgt; [|done].
        rewrite <- (Hmax _ _ Hin' Hthr'). symmetry. by eapply gt_trans.
      * apply list_elem_of_singleton in Hin' as [= -> ->]. apply gt_irrefl.
    + intros [-> Hnone].
      exists emb. split; [set_solver|]. split; [done|]. split; [done|]. split; [done|].
      intros name' emb' [Hin' | Hin']%elem_of_app Hthr'.
      * destruct (gt (similarity emb') (similarity emb)) eqn:Hgt; [|done].
        specialize (Hnone _ _ Hin'). rewrite Hthr' in Hnone. cbn in Hnone.
        rewrite <- Hnone. symmetry. by eapply gt_trans.
      * apply list_elem_of_singleton in Hin' as [= -> ->]. apply gt_irrefl.
  - destruct best_name as [best_name|].
    + intros (best_emb & Hin & -> & Hbthr & Hbzero & Hmax).
      exists best_emb. split; [set_solver|]. repeat (split; [done|]).
      intros name' emb' [Hin' | Hin']%elem_of_app Hthr'; [by eapply Hmax|].
      apply list_elem_of_singleton in Hin' as [= -> ->].
      by rewrite Hthr' in Htest.
    + intros [-> Hnone]. split; [done|].
      intros name' emb' [Hin' | Hin']%elem_of_app; [by eapply Hnone|].
      by apply list_elem_of_singleton in Hin' as [= -> ->].
Qed.

Lemma best_of_fold known seen best :
  best_of seen best ->
  best_of (seen ++ known)
          (fold_left (better compare_embeddings gt face_embedding threshold) known best).
Proof.
  revert seen best. induction known as [|k known IH]; intros seen best Hbest.
  - by rewrite app_nil_r.
  - cbn [fold_left]. rewrite (assoc_L _ seen [k] known : seen ++ k :: known = (seen ++ [k]) ++ known).
    apply IH. by apply best_of_step.
Qed.

End Best.

Section First.

Context {embedding score : Type}.
Context (compare_embeddings : embedding -> embedding -> score).
Context (gt : score -> score -> bool).
Context (face_embedding : embedding).

Abbreviation similarity emb := (compare_embeddings face_embedding emb).

(** The name [match_face] of [face_attendance.py] gives is the name of an
    entry above the threshold, whatever [>] is. *)
Lemma match_face_above zero threshold known name :
  match_face compare_embeddings gt zero face_embedding known threshold = Some name ->
  exists emb, (name, emb) ∈ known /\ gt (similarity emb) threshold = true.
Proof.
  unfold match_face.
  assert (forall seen best,
    (forall n, best.1 = Some n ->
       exists emb, (n, emb) ∈ seen ++ known /\ gt (similarity emb) threshold = true) ->
    forall n, (fold_left (better compare_embeddings gt face_embedding threshold) known best).1
              = Some n ->
       exists emb, (n, emb) ∈ seen ++ known /\ gt (similarity emb) threshold = true) as Hinv.
  { induction known as [|[k e] known IH]; intros seen best Hbest n; [apply Hbest|].
    cbn [fold_left].
    rewrite (assoc_L _ seen [(k, e)] known : seen ++ (k, e) :: known = (seen ++ [(k, e)]) ++ known).
    apply IH. intros n'. destruct best as [bn bs]. unfold better.
    destruct (gt (similarity e) threshold && gt (similarity e) bs) eqn:Htest; cbn [fst].
    - intros [= <-]. apply andb_true_iff in Htest as [Hthr _].
      exists e. split; [set_solver | done].
    - intros Hn. destruct (Hbest n' Hn) as (emb & Hin & Hthr).
      exists emb. split; [|done].
      rewrite <- (assoc_L _ seen [(k, e)] known). exact Hin. }
  intros Hname. apply (Hinv [] (None, zero)); [by intros n [=] | done].
Qed.

(** [match_face] of [app.py] names the first entry above its threshold. *)
Lemma app_match_face_first threshold known :
  match app_match_face compare_embeddings gt threshold face_embedding known with
  | Some name =>
      exists before emb after,
        known = before ++ (name, emb) :: after
        /\ gt (similarity emb) threshold = true
        /\ Forall (fun k => gt (similarity k.2) threshold = false) before
  | None => Forall (fun k => gt (similarity k.2) threshold = false) known
  end.
Proof.
  induction known as [|[n e] known IH]; cbn [app_match_face]; [done|].
  destruct (gt (similarity e) threshold) eqn:Hthr.
  - by exists [], e, known.
  - destruct (app_match_face _ _ _ _ known) as [name|].
    + destruct IH as (before & emb & after & -> & Hemb & Hbefore).
      exists ((n, e) :: before), emb, after. repeat split; [done|].
      by constructor.
    + by constructor.
Qed.

End First.

(** X15.  When [>] on similarities is transitive and irreflexive, the name
    [match_face] of [face_attendance.py] gives is the name of a known
    embedding whose similarity to the face is above the threshold and above
    the initial best score, and which no known embedding above the
    threshold exceeds; it gives [None] exactly when no known embedding is
    above both. *)
Theorem cli_match_is_a_best_match
  {embedding score : Type} (compare_embeddings : embedding -> embedding -> score)
  (gt : score -> score -> bool) (zero threshold : score)
  (face_embedding : embedding) (known_embeddings : dict embedding) :
  (forall x y z, gt x y = true -> gt y z = true -> gt x z = true) ->
  (forall x, gt x x = false) ->
  match match_face compare_embeddings gt zero face_embedding known_embeddings threshold with
  | Some name =>
      exists emb,
        (name, emb) ∈ known_embeddings
        /\ gt (compare_embeddings face_embedding emb) threshold = true
        /\ gt (compare_embeddings face_embedding emb) zero = true
        /\ forall name' emb', (name', emb') ∈ known_embeddings ->
             gt (compare_embeddings face_embedding emb') threshold = true ->
             gt (compare_embeddings face_embedding emb')
                (compare_embeddings face_embedding emb) = false
  | None =>
      forall name emb, (name, emb) ∈ known_embeddings ->
        gt (compare_embeddings face_embedding emb) threshold
        && gt (compare_embeddings face_embedding emb) zero = false
  end.
Proof.
  intros Htrans Hirrefl.
  pose proof (best_of_fold compare_embeddings gt zero threshold face_embedding
                Htrans Hirrefl known_embeddings [] (None, zero)) as Hfold.
  unfold match_face. rewrite app_nil_l in Hfold.
  unfold best_of in Hfold at 2.
  destruct (fold_left _ _ _).1 as [name|].
  - destruct Hfold as (emb & Hin & _ & Hthr & Hzero & Hmax).
    + split; [done|]. by intros ? ? ?%elem_of_nil.
    + by exists emb.
  - destruct Hfold as [_ Hnone]; [|done].
    split; [done|]. by intros ? ? ?%elem_of_nil.
Qed.

(** Similarities in hundredths. *)
Definition two_known : dict Z := [("alice", 70); ("bob", 90)].

Lemma cli_match_is_a_best_match_witness :
  match match_face (fun _ emb : Z => emb) Z.gtb 0 0 two_known 55 with
  | Some name =>
      exists emb,
        (name, emb) ∈ two_known
        /\ (emb >? 55) = true
        /\ (emb >? 0) = true
        /\ forall name' emb', (name', emb') ∈ two_known ->
             (emb' >? 55) = true -> (emb' >? emb) = false
  | None =>
      forall name emb, (name, emb) ∈ two_known -> (emb >? 55) && (emb >? 0) = false
  end.
Proof.
  apply (cli_match_is_a_best_match (fun _ emb : Z => emb) Z.gtb 0 55 0 two_known).
  - intros x y z. lia.
  - intros x. lia.
Defined.

(** X16.  With a threshold of [app.py] below the threshold of
    [face_attendance.py], a face the latter's [match_face] names is named
    by the former's too: it gives the first known embedding above its own
    threshold, which need not be the same student. *)
Theorem dashboard_names_a_student_whenever_the_cli_does
  {embedding score : Type} (compare_embeddings : embedding -> embedding -> score)
  (gt : score -> score -> bool) (zero cli_threshold app_threshold : score)
  (face_embedding : embedding) (known_embeddings : dict embedding) (name : string) :
  (forall x y z, gt x y = true -> gt y z = true -> gt x z = true) ->
  gt cli_threshold app_threshold = true ->
  match_face compare_embeddings gt zero face_embedding known_embeddings cli_threshold
  = Some name ->
  exists name' before emb after,
    app_match_face compare_embeddings gt app_threshold face_embedding known_embeddings
    = Some name'
    /\ known_embeddings = before ++ (name', emb) :: after
    /\ gt (compare_embeddings face_embedding emb) app_threshold = true
    /\ Forall (fun k => gt (compare_embeddings face_embedding k.2) app_threshold = false)
              before.
Proof.
  intros Htrans Hbelow Hcli.
  apply match_face_above in Hcli as (emb & Hin & Hthr).
  pose proof (app_match_face_first compare_embeddings gt face_embedding
                app_threshold known_embeddings) as Hfirst.
  destruct (app_match_face _ _ _ _ _) as [name'|].
  - destruct Hfirst as (before & emb' & after & Hknown & Hemb & Hbefore).
    by exists name', before, emb', after.
  - rewrite Forall_forall in Hfirst. specialize (Hfirst _ Hin). cbn in Hfirst.
    rewrite (Htrans _ _ _ Hthr Hbelow) in Hfirst. done.
Qed.

Lemma dashboard_names_a_student_whenever_the_cli_does_witness :
  exists name' before emb after,
    app_match_face (fun _ emb : Z => emb) Z.gtb 50 0 two_known = Some name'
    /\ two_known = before ++ (name', emb) :: after
    /\ (emb >? 50) = true
    /\ Forall (fun k : string * Z => (k.2 >? 50) = false) before.
Proof.
  apply (dashboard_names_a_student_whenever_the_cli_does
           (fun _ emb : Z => emb) Z.gtb 0 55 50 0 two_known "bob").
  - intros x y z. lia.
  - reflexivity.
  - reflexivity.
Defined.

End MatchingProperties.

(** ** The table of the dashboard *)

Module RefreshProperties.
Import Py GetAttendanceByTime AppRecords.

#[local] Set Warnings "-clear-no-such-hyp".

(** The row of the table for record [idx], when it can be fetched and has
    three fields. *)
Definition row (c : contract) (idx : nat) : option entry :=
  match getRecord c idx with
  | Value [n; t; h] => Some (mkentry idx (Some n) (Some t) (Some h) None)
  | _ => None
  end.

(** What fetching and unpacking record [idx] raises. *)
Definition failure (c : contract) (idx : nat) : option exn :=
  match getRecord c idx with
  | Raised e => Some e
  | Value [_; _; _] => None
  | Value _ => Some (ValueError "unpack")
  end.

Definition fetches (idx : list nat) : list event :=
  (fun i => Call (GetRecord i)) <$> idx.

Lemma append_row_ok c records idx :
  failure c idx = None ->
  exists r, row c idx = Some r
            /\ append_row c records idx = ([Call (GetRecord idx)], inr (records ++ [r])).
Proof.
  unfold failure, row, append_row.
  destruct (getRecord c idx) as [e | [|n [|t [|h [|x raw]]]]]; try done.
  intros _. eexists. split; reflexivity.
Qed.

Lemma append_row_fails c records idx e :
  failure c idx = Some e ->
  append_row c records idx = ([Call (GetRecord idx)], inl e).
Proof.
  unfold failure, append_row.
  destruct (getRecord c idx) as [e' | [|n [|t [|h [|x raw]]]]]; try done;
    by intros [= <-].
Qed.

Lemma rows_ok c n : forall first records,
  (forall i, (first <= i < first + n)%nat -> failure c i = None) ->
  for_each_io (append_row c) (seq first n) records
  = (fetches (seq first n), inr (records ++ omap (row c) (seq first n))).
Proof.
  induction n as [|n IH]; intros first records Hok.
  { cbn. by rewrite app_nil_r. }
  cbn [seq for_each_io].
  destruct (append_row_ok c records first) as (r & Hrow & ->); [apply Hok; lia|].
  cbn. rewrite IH by (intros i Hi; apply Hok; lia).
  cbn. rewrite Hrow. by rewrite <- app_assoc.
Qed.

Lemma rows_stop c k : forall first records rest e,
  (forall i, (first <= i < first + k)%nat -> failure c i = None) ->
  failure c (first + k) = Some e ->
  for_each_io (append_row c) (seq first k ++ (first + k)%nat :: rest) records
  = (fetches (seq first (S k)), inl e).
Proof.
  induction k as [|k IH]; intros first records rest e Hok Hfail.
  - rewrite Nat.add_0_r in *. cbn [seq app for_each_io].
    rewrite (append_row_fails _ _ _ _ Hfail). reflexivity.
  - cbn [seq app for_each_io].
    destruct (append_row_ok c records first) as (r & Hrow & ->); [apply Hok; lia|].
    cbn. replace (first + S k)%nat with (S first + k)%nat by lia.
    rewrite (IH (S first) _ rest e).
    + reflexivity.
    + intros i Hi. apply Hok. lia.
    + by replace (S first + k)%nat with (first + S k)%nat by lia.
Qed.

Lemma refresh_unfold c total :
  totalRecords c = Value total ->
  refresh_on_chain_records c
  = let '(t, r) := for_each_io (append_row c) (seq 0 total) [] in
    (Call TotalRecords :: t, r).
Proof.
  intros Htotal. unfold refresh_on_chain_records. rewrite Htotal.
  cbn [node_call]. unfold mbind, io_mbind, io_bind.
  by destruct (for_each_io _ _ _).
Qed.

(** X17.  The refresh of the on-chain table is all or nothing.  When the
    count is read and every record below it is fetched with three fields,
    the table has one row per index, in index order.  When record [k] is
    the first that cannot be fetched or has another number of fields, the
    refresh ends with that exception, no row is shown, and no record after
    [k] is fetched. *)
Theorem refresh_is_all_or_nothing (c : contract) (total : nat) :
  totalRecords c = Value total ->
  ((forall i, (i < total)%nat -> failure c i = None) ->
   refresh_on_chain_records c
   = (Call TotalRecords :: fetches (seq 0 total),
      inr (omap (row c) (seq 0 total)))
     /\ length (omap (row c) (seq 0 total)) = total)
  /\ (forall k e,
        (k < total)%nat ->
        (forall i, (i < k)%nat -> failure c i = None) ->
        failure c k = Some e ->
        refresh_on_chain_records c
        = (Call TotalRecords :: fetches (seq 0 (S k)), inl e)).
Proof.
  intros Htotal. rewrite (refresh_unfold _ _ Htotal). split.
  - intros Hok. split.
    + rewrite rows_ok by (intros i Hi; apply Hok; lia). reflexivity.
    + assert (forall first n,
        (forall i, (first <= i < first + n)%nat -> failure c i = None) ->
        length (omap (row c) (seq first n)) = n) as Hlen.
      { intros first n. revert first. induction n as [|n IH]; intros first Hn; [done|].
        cbn [seq omap list_omap].
        destruct (append_row_ok c [] first) as (r & -> & _); [apply Hn; lia|].
        cbn. f_equal. apply IH. intros i Hi. apply Hn. lia. }
      apply Hlen. intros i Hi. apply Hok. lia.
  - intros k e Hk Hok Hfail.
    replace (seq 0 total) with (seq 0 k ++ (0 + k)%nat :: seq (S k) (total - S k)).
    + rewrite (rows_stop c k 0%nat [] _ e); [reflexivity | |done].
      intros i Hi. apply Hok. lia.
    + replace total with (k + S (total - S k))%nat at 2 by lia.
      rewrite seq_app. reflexivity.
Qed.

(** Three records, of which the second has two fields. *)
Definition second_record_short : contract :=
  mkcontract (Value 3%nat)
             (fun i => if Nat.eqb i 1 then Value ["bob"; "2025-12-01 09:00:00"]
                       else Value ["alice"; "2025-12-01 08:00:00"; "hash"])
             (fun _ => Raised (ValueError "input")).

Lemma refresh_is_all_or_nothing_witness :
  refresh_on_chain_records second_record_short
  = (Call TotalRecords :: fetches (seq 0 2), inl (ValueError "unpack")).
Proof.
  apply (proj2 (refresh_is_all_or_nothing second_record_short 3 eq_refl)
               1%nat (ValueError "unpack")).
  - lia.
  - intros i Hi. assert (i = 0%nat) as -> by lia. reflexivity.
  - reflexivity.
Defined.

End RefreshProperties.

(** ** The two capture programs on the same frames *)

Module AgreementProperties.
Import Py FaceAttendance WriteProperties SessionProperties.

#[local] Set Warnings "-clear-no-such-hyp".

(** What an entry of the dashboard says: name, timestamp, hash. *)
Definition entry_fields (e : App.entry) : string * string * string :=
  (App.e_name e, App.e_timestamp e, App.e_hash e).

Lemma expected_fields_all fault faces : forall n,
  (forall k, reaches_node (fault k) = true) ->
  expected_fields fault n faces = fields_of_detection <$> faces.
Proof.
  induction faces as [|face faces IH]; intros n Hall; [done|].
  cbn [expected_fields]. rewrite (Hall n), (IH (S n) Hall). reflexivity.
Qed.

Lemma entry_fields_of_detection face :
  entry_fields (entry_of_detection face) = fields_of_detection face.
Proof. reflexivity. Qed.

Lemma run_webcam_concat frames :
  App.run_webcam frames = fold_left App.log_face (concat frames) (∅, []).
Proof.
  unfold App.run_webcam. generalize ((∅, []) : App.session_state).
  induction frames as [|faces frames IH]; intros st; [done|].
  cbn. by rewrite fold_left_app, IH.
Qed.

(** X18.  On the same frames, the command-line session and the dashboard
    loop record the same attendance: when the client can sign and no call
    before the submission raises, the transactions the session sends carry,
    in the same order, the name, the timestamp and the hash of the entries
    the dashboard queues. *)
Theorem session_and_dashboard_record_the_same_fields
  (c : client) (frames : list frame) (w : chain) :
  usable c = true ->
  (forall k, reaches_node (fault w k) = true) ->
  tx_fields <$> submitted w (capture_and_log true c frames w).2
  = entry_fields <$> (App.run_webcam frames).2.
Proof.
  intros Hc Hall.
  destruct (capture_faces_usable c (concat frames) ∅ w Hc)
    as (_ & _ & _ & new & Hs & Hnew).
  unfold capture_and_log. rewrite capture_frames_concat.
  unfold submitted. rewrite Hs, drop_app_length, Hnew.
  rewrite expected_fields_all by done.
  rewrite run_webcam_concat, app_faces. cbn [snd app]. rewrite <- list_fmap_compose.
  apply list_fmap_ext. intros i face _. symmetry. apply entry_fields_of_detection.
Qed.

(** A node on which only the wait for the receipt ever raises. *)
Definition receipts_time_out : chain :=
  mkchain [] 0 (fun _ => Some WaitForTransactionReceipt).

Lemma session_and_dashboard_record_the_same_fields_witness :
  tx_fields <$> submitted receipts_time_out
                  (capture_and_log true configured_client
                     [[alice_at_midnight; bob_later]; [alice_at_midnight]]
                     receipts_time_out).2
  = entry_fields <$> (App.run_webcam [[alice_at_midnight; bob_later]; [alice_at_midnight]]).2.
Proof.
  apply (session_and_dashboard_record_the_same_fields configured_client
           [[alice_at_midnight; bob_later]; [alice_at_midnight]] receipts_time_out).
  - reflexivity.
  - reflexivity.
Defined.

End AgreementProperties.
